(** * HyperScan JS Core: the SPCE3200 CPU and its interrupt controller

    A shallow embedding of [src/hyperscan/cpu/cpu_part1.js] (register file and
    ALU primitives), [src/unnamed/part_002] (instruction forms, exception
    entry and exit, [step]), [src/hyperscan/cpu/cpu_part3.js] (the 16-bit
    compressed forms) and [src/unnamed/part_001] (the interrupt controller),
    followed by the properties of the specification that concern them.

    JavaScript numbers are modelled by [Z]: every number the CPU handles is an
    integer below 2^53, where double arithmetic is exact.  The 32-bit
    conversions that the bitwise operators and the [Uint32Array] stores
    perform are written out.  What callers hand to [trigger] need not be an
    integer; those arguments have a type of their own, [NonInteger]. *)

From Stdlib Require Import ZArith Lia Bool QArith Qround.
From stdpp Require Import base option list gmap strings.

Local Open Scope Z_scope.

(** ** JavaScript 32-bit operators *)

Module JS.

(** [x >>> 0], and what a [Uint32Array] element keeps of a stored number. *)
Definition ToUint32 (x : Z) : Z := x mod 2 ^ 32.

(** [x | 0]: the operand conversion of every bitwise operator. *)
Definition ToInt32 (x : Z) : Z :=
  let u := x mod 2 ^ 32 in if u <? 2 ^ 31 then u else u - 2 ^ 32.

(** Shift counts are taken modulo 32. *)
Definition count (n : Z) : Z := n mod 32.

Definition shl (a n : Z) : Z := ToInt32 (Z.shiftl (ToInt32 a) (count n)).
Definition sar (a n : Z) : Z := Z.shiftr (ToInt32 a) (count n).
Definition ushr (a n : Z) : Z := Z.shiftr (ToUint32 a) (count n).
Definition and (a b : Z) : Z := Z.land (ToInt32 a) (ToInt32 b).
Definition or (a b : Z) : Z := Z.lor (ToInt32 a) (ToInt32 b).
Definition xor (a b : Z) : Z := Z.lxor (ToInt32 a) (ToInt32 b).
Definition not (a : Z) : Z := Z.lnot (ToInt32 a).

(** Truthiness of a number, as [if (x)] and [x ? a : b] test it. *)
Definition truthy (x : Z) : bool := negb (x =? 0).

End JS.

(** The operators keep JavaScript's relative precedence: additive operators
    bind tighter than shifts, shifts tighter than [&], then [^], then [|]. *)
Notation "a << n" := (JS.shl a n) (at level 52, left associativity) : Z_scope.
Notation "a >> n" := (JS.sar a n) (at level 52, left associativity) : Z_scope.
Notation "a >>> n" := (JS.ushr a n) (at level 52, left associativity) : Z_scope.
Notation "a .& b" := (JS.and a b) (at level 53, left associativity) : Z_scope.
Notation "a .^ b" := (JS.xor a b) (at level 54, left associativity) : Z_scope.
Notation "a .| b" := (JS.or a b) (at level 57, left associativity) : Z_scope.
Notation ".~ a" := (JS.not a) (at level 35, right associativity) : Z_scope.

(** ** Values that are not integers

    [trigger(irqNumber)] and, through it, [exception(cause)] receive whatever
    the caller passes.  Besides [undefined], [null] and the integers, the
    operators of the two functions ([<], [>], [<<], [&], [*], [+], [>>> 0])
    accept every value that converts to a number.  The conversion gives a
    finite double that is not an integer, NaN, or an infinity:

    - [Fraction q], a finite double by its exact value [q];
    - [NaN], the number NaN and every value that converts to it: a plain
      object such as the CPU object itself, a non-numeric string;
    - [Infinity negative], the two infinities.

    A boolean or a numeric string converts to an integer and behaves as that
    integer in every operator named above.  Symbols and BigInts, on which
    these operators throw, are outside the model. *)

Inductive NonInteger :=
| Fraction (q : Q)
| NaN
| Infinity (negative : bool).

(** Truncation towards zero, the first step of [ToInt32] and [ToUint32]. *)
Definition Qtrunc (x : Q) : Z :=
  if Qle_bool 0 x then Qfloor x else Qceiling x.

(** The exponent of a positive rational: the [e] with [2^e <= x < 2^(e+1)]. *)
Definition Qlog2 (x : Q) : Z :=
  let k := Z.log2 (Qnum x) - Z.log2 (Z.pos (Qden x)) in
  if Qle_bool (Qpower 2 k) x then k else k - 1.

(** The nearest integer, a tie going to the even one. *)
Definition Qround_even (x : Q) : Z :=
  let f := Qfloor x in
  match Qcompare (x - inject_Z f) (1 # 2) with
  | Lt => f
  | Gt => f + 1
  | Eq => if Z.even f then f else f + 1
  end.

(** The double nearest to a positive rational: 53 significant bits, the
    last one no finer than 2^-1074.  Results stay far below 2^1024 here, so
    there is no overflow to infinity. *)
Definition nearest_double (x : Q) : Q :=
  let u := Qpower 2 (Z.max (Qlog2 x - 52) (-1074)) in
  (inject_Z (Qround_even (x / u)) * u)%Q.

(** The result of a double operation whose exact value is [x]. *)
Definition to_double (x : Q) : Q :=
  match Qcompare x 0 with
  | Eq => 0%Q
  | Gt => nearest_double x
  | Lt => (- nearest_double (- x))%Q
  end.

(** The integer that [ToInt32] and [ToUint32] reduce: the truncated value
    of a finite number, and 0 for NaN and the infinities. *)
Definition to_integer (x : NonInteger) : Z :=
  match x with
  | Fraction q => Qtrunc q
  | NaN => 0
  | Infinity _ => 0
  end.

(** [x < n] and [x > n] for an integer [n]; every comparison with NaN is
    false. *)
Definition below (x : NonInteger) (n : Z) : bool :=
  match x with
  | Fraction q => negb (Qle_bool (inject_Z n) q)
  | NaN => false
  | Infinity negative => negative
  end.

Definition above (x : NonInteger) (n : Z) : bool :=
  match x with
  | Fraction q => negb (Qle_bool q (inject_Z n))
  | NaN => false
  | Infinity negative => negb negative
  end.

(** [(base + x * 4) >>> 0] for an integer [base]: a product and a sum of
    doubles, then [ToUint32].  NaN and the infinities propagate through the
    arithmetic and [ToUint32] turns them into 0. *)
Definition times_4_plus (base : Z) (x : NonInteger) : Z :=
  match x with
  | Fraction q =>
      JS.ToUint32 (Qtrunc (to_double (inject_Z base + to_double (q * 4))))
  | NaN => 0
  | Infinity _ => 0
  end.

(** ** Uint32Array(32) register banks

    A bank is a list of 32 words.  A store converts with [ToUint32]; a store
    outside the array is dropped, as typed arrays do.  A load outside the
    array would give [undefined]; every index the CPU computes is masked to
    0..31, so the default is never observed. *)

Abbreviation bank := (list Z).

Definition bank_get (b : bank) (i : Z) : Z :=
  if (0 <=? i) then b !!! Z.to_nat i else 0.

Definition bank_set (b : bank) (i v : Z) : bank :=
  if (0 <=? i) then <[Z.to_nat i := JS.ToUint32 v]> b else b.

Definition new_bank : bank := replicate 32 0.

(** ** Completions: a call returns normally or throws *)

Inductive completion (A : Type) : Type :=
| Normal (a : A)
| Throw (message : string).
Arguments Normal {A} a.
Arguments Throw {A} message.

(** ** Breakpoints ([BreakpointManager], cpu_part1.js)

    The manager as [step] consults it.  A breakpoint is the record that
    [addBreakpoint] creates, whose [condition] and [callback] are [null]:
    [checkBreakpoint] below is the method on such breakpoints, where its two
    branches [if (bp.condition)] and [if (bp.callback)] are not taken.
    [addConditionalBreakpoint] and [setBreakpointCallback], which store a
    host closure that receives the CPU object and may change any of it, are
    not modelled, and nothing here is stated about breakpoints they made.
    The hit statistics only collect wall-clock history for the debugger and
    are left out as well. *)

Record Breakpoint := mkBreakpoint {
  enabled : bool;
  hitCount : Z;
  temporary : bool }.

Record BreakpointManager := mkBreakpointManager {
  breakpoints : gmap Z Breakpoint;
  paused : bool;
  lastBreakpoint : option (Z * Z) }.

Definition new_BreakpointManager : BreakpointManager :=
  {| breakpoints := ∅; paused := false; lastBreakpoint := None |}.

Definition addBreakpoint (addr : Z) (bm : BreakpointManager)
  : bool * BreakpointManager :=
  let addr := addr >>> 0 in
  match breakpoints bm !! addr with
  | Some _ => (false, bm)
  | None =>
      (true,
       {| breakpoints :=
            <[addr := {| enabled := true; hitCount := 0; temporary := false |}]>
              (breakpoints bm);
          paused := paused bm;
          lastBreakpoint := lastBreakpoint bm |})
  end.

Definition checkBreakpoint (addr : Z) (bm : BreakpointManager)
  : bool * BreakpointManager :=
  let addr := addr >>> 0 in
  match breakpoints bm !! addr with
  | None => (false, bm)
  | Some bp =>
      if negb (enabled bp) then (false, bm)
      else
        let hit := {| enabled := enabled bp; hitCount := hitCount bp + 1;
                      temporary := temporary bp |} in
        (true,
         {| breakpoints :=
              if temporary bp then delete addr (breakpoints bm)
              else <[addr := hit]> (breakpoints bm);
            paused := paused bm;
            lastBreakpoint := Some (addr, hitCount hit) |})
  end.

Definition set_paused (v : bool) (bm : BreakpointManager) : BreakpointManager :=
  {| breakpoints := breakpoints bm; paused := v;
     lastBreakpoint := lastBreakpoint bm |}.

(** ** The memory interface

    The CPU reaches memory through [this.miu], an object of a class that is
    not among the CPU sources; the CPU uses its [size] property and its six
    access methods.  The interface is a parameter of the development: an
    access returns a number or throws, and may change the interface's state
    (a peripheral register read can have effects).  [miu_size] is [None] when
    the object has no [size] property. *)

Class MemoryInterface (M : Type) := {
  miu_size : M -> option Z;
  readU8 : M -> Z -> completion Z * M;
  readU16 : M -> Z -> completion Z * M;
  readU32 : M -> Z -> completion Z * M;
  writeU8 : M -> Z -> Z -> completion unit * M;
  writeU16 : M -> Z -> Z -> completion unit * M;
  writeU32 : M -> Z -> Z -> completion unit * M }.

Section CPU.

Context {M : Type} `{MI : MemoryInterface M}.

(** ** CPU state ([class CPU], cpu_part1.js; [initializeCPU], part_002)

    The five flags are numbers in the source and stay numbers here.
    [fault_count] is [undefined] until [initializeCPU] sets it; [step] reads it
    as [(this.fault_count || 0)], so [undefined] is represented by 0. *)

Record CPU := mkCPU {
  r : bank;
  cr : bank;
  sr : bank;
  CEL : Z;
  CEH : Z;
  pc : Z;
  flagN : Z;
  flagZ : Z;
  flagC : Z;
  flagV : Z;
  flagT : Z;
  cycles : Z;
  instructions : Z;
  halted : bool;
  miu : option M;
  initialized : bool;
  fault_count : Z;
  last_error : option string;
  breakpointManager : option BreakpointManager }.

(** Field updates. *)

Definition set_r (v : bank) (s : CPU) : CPU :=
  let 'mkCPU x1 x2 x3 x4 x5 x6 x7 x8 x9 x10 x11 x12 x13 x14 x15 x16 x17 x18
    x19 := s in
  mkCPU v x2 x3 x4 x5 x6 x7 x8 x9 x10 x11 x12 x13 x14 x15 x16 x17 x18 x19.

Definition set_cr (v : bank) (s : CPU) : CPU :=
  let 'mkCPU x1 x2 x3 x4 x5 x6 x7 x8 x9 x10 x11 x12 x13 x14 x15 x16 x17 x18
    x19 := s in
  mkCPU x1 v x3 x4 x5 x6 x7 x8 x9 x10 x11 x12 x13 x14 x15 x16 x17 x18 x19.

Definition set_sr (v : bank) (s : CPU) : CPU :=
  let 'mkCPU x1 x2 x3 x4 x5 x6 x7 x8 x9 x10 x11 x12 x13 x14 x15 x16 x17 x18
    x19 := s in
  mkCPU x1 x2 v x4 x5 x6 x7 x8 x9 x10 x11 x12 x13 x14 x15 x16 x17 x18 x19.

Definition set_CEL (v : Z) (s : CPU) : CPU :=
  let 'mkCPU x1 x2 x3 x4 x5 x6 x7 x8 x9 x10 x11 x12 x13 x14 x15 x16 x17 x18
    x19 := s in
  mkCPU x1 x2 x3 v x5 x6 x7 x8 x9 x10 x11 x12 x13 x14 x15 x16 x17 x18 x19.

Definition set_CEH (v : Z) (s : CPU) : CPU :=
  let 'mkCPU x1 x2 x3 x4 x5 x6 x7 x8 x9 x10 x11 x12 x13 x14 x15 x16 x17 x18
    x19 := s in
  mkCPU x1 x2 x3 x4 v x6 x7 x8 x9 x10 x11 x12 x13 x14 x15 x16 x17 x18 x19.

Definition set_pc (v : Z) (s : CPU) : CPU :=
  let 'mkCPU x1 x2 x3 x4 x5 x6 x7 x8 x9 x10 x11 x12 x13 x14 x15 x16 x17 x18
    x19 := s in
  mkCPU x1 x2 x3 x4 x5 v x7 x8 x9 x10 x11 x12 x13 x14 x15 x16 x17 x18 x19.

Definition set_flagN (v : Z) (s : CPU) : CPU :=
  let 'mkCPU x1 x2 x3 x4 x5 x6 x7 x8 x9 x10 x11 x12 x13 x14 x15 x16 x17 x18
    x19 := s in
  mkCPU x1 x2 x3 x4 x5 x6 v x8 x9 x10 x11 x12 x13 x14 x15 x16 x17 x18 x19.

Definition set_flagZ (v : Z) (s : CPU) : CPU :=
  let 'mkCPU x1 x2 x3 x4 x5 x6 x7 x8 x9 x10 x11 x12 x13 x14 x15 x16 x17 x18
    x19 := s in
  mkCPU x1 x2 x3 x4 x5 x6 x7 v x9 x10 x11 x12 x13 x14 x15 x16 x17 x18 x19.

Definition set_flagC (v : Z) (s : CPU) : CPU :=
  let 'mkCPU x1 x2 x3 x4 x5 x6 x7 x8 x9 x10 x11 x12 x13 x14 x15 x16 x17 x18
    x19 := s in
  mkCPU x1 x2 x3 x4 x5 x6 x7 x8 v x10 x11 x12 x13 x14 x15 x16 x17 x18 x19.

Definition set_flagV (v : Z) (s : CPU) : CPU :=
  let 'mkCPU x1 x2 x3 x4 x5 x6 x7 x8 x9 x10 x11 x12 x13 x14 x15 x16 x17 x18
    x19 := s in
  mkCPU x1 x2 x3 x4 x5 x6 x7 x8 x9 v x11 x12 x13 x14 x15 x16 x17 x18 x19.

Definition set_flagT (v : Z) (s : CPU) : CPU :=
  let 'mkCPU x1 x2 x3 x4 x5 x6 x7 x8 x9 x10 x11 x12 x13 x14 x15 x16 x17 x18
    x19 := s in
  mkCPU x1 x2 x3 x4 x5 x6 x7 x8 x9 x10 v x12 x13 x14 x15 x16 x17 x18 x19.

Definition set_cycles (v : Z) (s : CPU) : CPU :=
  let 'mkCPU x1 x2 x3 x4 x5 x6 x7 x8 x9 x10 x11 x12 x13 x14 x15 x16 x17 x18
    x19 := s in
  mkCPU x1 x2 x3 x4 x5 x6 x7 x8 x9 x10 x11 v x13 x14 x15 x16 x17 x18 x19.

Definition set_instructions (v : Z) (s : CPU) : CPU :=
  let 'mkCPU x1 x2 x3 x4 x5 x6 x7 x8 x9 x10 x11 x12 x13 x14 x15 x16 x17 x18
    x19 := s in
  mkCPU x1 x2 x3 x4 x5 x6 x7 x8 x9 x10 x11 x12 v x14 x15 x16 x17 x18 x19.

Definition set_halted (v : bool) (s : CPU) : CPU :=
  let 'mkCPU x1 x2 x3 x4 x5 x6 x7 x8 x9 x10 x11 x12 x13 x14 x15 x16 x17 x18
    x19 := s in
  mkCPU x1 x2 x3 x4 x5 x6 x7 x8 x9 x10 x11 x12 x13 v x15 x16 x17 x18 x19.

Definition set_miu (v : option M) (s : CPU) : CPU :=
  let 'mkCPU x1 x2 x3 x4 x5 x6 x7 x8 x9 x10 x11 x12 x13 x14 x15 x16 x17 x18
    x19 := s in
  mkCPU x1 x2 x3 x4 x5 x6 x7 x8 x9 x10 x11 x12 x13 x14 v x16 x17 x18 x19.

Definition set_initialized (v : bool) (s : CPU) : CPU :=
  let 'mkCPU x1 x2 x3 x4 x5 x6 x7 x8 x9 x10 x11 x12 x13 x14 x15 x16 x17 x18
    x19 := s in
  mkCPU x1 x2 x3 x4 x5 x6 x7 x8 x9 x10 x11 x12 x13 x14 x15 v x17 x18 x19.

Definition set_fault_count (v : Z) (s : CPU) : CPU :=
  let 'mkCPU x1 x2 x3 x4 x5 x6 x7 x8 x9 x10 x11 x12 x13 x14 x15 x16 x17 x18
    x19 := s in
  mkCPU x1 x2 x3 x4 x5 x6 x7 x8 x9 x10 x11 x12 x13 x14 x15 x16 v x18 x19.

Definition set_last_error (v : option string) (s : CPU) : CPU :=
  let 'mkCPU x1 x2 x3 x4 x5 x6 x7 x8 x9 x10 x11 x12 x13 x14 x15 x16 x17 x18
    x19 := s in
  mkCPU x1 x2 x3 x4 x5 x6 x7 x8 x9 x10 x11 x12 x13 x14 x15 x16 x17 v x19.

Definition set_breakpointManager (v : option BreakpointManager) (s : CPU) : CPU :=
  let 'mkCPU x1 x2 x3 x4 x5 x6 x7 x8 x9 x10 x11 x12 x13 x14 x15 x16 x17 x18
    x19 := s in
  mkCPU x1 x2 x3 x4 x5 x6 x7 x8 x9 x10 x11 x12 x13 x14 x15 x16 x17 x18 v.

(** ** Construction, reset and accessors (cpu_part1.js) *)

Definition reset (s : CPU) : CPU :=
  {| r := new_bank; cr := new_bank; sr := new_bank; CEL := 0; CEH := 0;
     pc := 0; flagN := 0; flagZ := 0; flagC := 0; flagV := 0; flagT := 0;
     cycles := 0; instructions := 0; halted := false; miu := miu s;
     initialized := initialized s; fault_count := fault_count s;
     last_error := last_error s; breakpointManager := breakpointManager s |}.

(** [new CPU(miu)]: the fields that only later methods create start absent. *)
Definition new_CPU (m : option M) : CPU :=
  reset
    {| r := []; cr := []; sr := []; CEL := 0; CEH := 0; pc := 0;
       flagN := 0; flagZ := 0; flagC := 0; flagV := 0; flagT := 0;
       cycles := 0; instructions := 0; halted := false; miu := m;
       initialized := false; fault_count := 0; last_error := None;
       breakpointManager := None |}.

Definition getPC (s : CPU) : Z := pc s.
Definition setPC (addr : Z) (s : CPU) : CPU := set_pc (addr >>> 0) s.

Definition getRegister (idx : Z) (s : CPU) : Z :=
  if (0 <=? idx) && (idx <? 32) then bank_get (r s) idx >>> 0 else 0.

Definition setRegister (idx value : Z) (s : CPU) : CPU :=
  if (0 <? idx) && (idx <? 32)
  then set_r (bank_set (r s) idx (value >>> 0)) s
  else s.

Definition getSystemRegister (idx : Z) (s : CPU) : Z :=
  if (0 <=? idx) && (idx <? 32) then bank_get (sr s) idx >>> 0 else 0.

Definition getControlRegister (idx : Z) (s : CPU) : Z :=
  if (0 <=? idx) && (idx <? 32) then bank_get (cr s) idx >>> 0 else 0.

Definition setControlRegister (idx value : Z) (s : CPU) : CPU :=
  if (0 <=? idx) && (idx <? 32)
  then set_cr (bank_set (cr s) idx (value >>> 0)) s
  else s.

Definition signExtend (x b : Z) : Z :=
  if 32 <=? b then x >>> 0
  else
    let x := x .& ((1 << b) - 1) in
    let x := if JS.truthy (x .& (1 << (b - 1))) then x .| (-1 << b) else x in
    x >>> 0.

(** ** Flags *)

Definition updateBasicFlags (res : Z) (s : CPU) : CPU :=
  let res := res >>> 0 in
  let s := set_flagN ((res >>> 31) .& 1) s in
  set_flagZ (if res =? 0 then 1 else 0) s.

Definition packSR0 (s : CPU) : CPU :=
  set_sr
    (bank_set (sr s) 0
       (((flagN s .& 1) << 31) .| ((flagZ s .& 1) << 30) .|
        ((flagC s .& 1) << 29) .| ((flagV s .& 1) << 28) .|
        (flagT s .& 1)))
    s.

Definition unpackSR0 (s : CPU) : CPU :=
  let v := bank_get (sr s) 0 >>> 0 in
  let s := set_flagN ((v >>> 31) .& 1) s in
  let s := set_flagZ ((v >>> 30) .& 1) s in
  let s := set_flagC ((v >>> 29) .& 1) s in
  let s := set_flagV ((v >>> 28) .& 1) s in
  set_flagT ((v >>> 0) .& 1) s.

Definition setSystemRegister (idx value : Z) (s : CPU) : CPU :=
  if (0 <=? idx) && (idx <? 32)
  then
    let s := set_sr (bank_set (sr s) idx (value >>> 0)) s in
    if idx =? 0 then unpackSR0 s else s
  else s.

(** ** Arithmetic

    An ALU primitive returns its result and the state with the flags it
    updated. *)

Definition add (a b : Z) (updateFlags : bool) (s : CPU) : Z * CPU :=
  let a := a >>> 0 in
  let b := b >>> 0 in
  let res := (a + b) >>> 0 in
  if updateFlags then
    let s := updateBasicFlags res s in
    let s := set_flagC (if b >? 0xFFFFFFFF - a then 1 else 0) s in
    let s := set_flagV (((.~ (a .^ b) .& (a .^ res)) >>> 31) .& 1) s in
    (res, s)
  else (res, s).

Definition addc (a b : Z) (updateFlags : bool) (s : CPU) : Z * CPU :=
  let a := a >>> 0 in
  let b := b >>> 0 in
  let res := (a + b + flagC s) >>> 0 in
  if updateFlags then
    let s := updateBasicFlags res s in
    let s := set_flagC (if b + flagC s >? 0xFFFFFFFF - a then 1 else 0) s in
    let s := set_flagV (((.~ (a .^ b) .& (a .^ res)) >>> 31) .& 1) s in
    (res, s)
  else (res, s).

Definition sub (a b : Z) (updateFlags : bool) (s : CPU) : Z * CPU :=
  let a := a >>> 0 in
  let b := b >>> 0 in
  let res := (a - b) >>> 0 in
  if updateFlags then
    let s := updateBasicFlags res s in
    let s := set_flagC (if a >=? b then 1 else 0) s in
    let s := set_flagV ((((a .^ b) .& .~ (res .^ b)) >>> 31) .& 1) s in
    (res, s)
  else (res, s).

Definition subc (a b : Z) (updateFlags : bool) (s : CPU) : Z * CPU :=
  let a := a >>> 0 in
  let b := b >>> 0 in
  let borrow := if flagC s =? 0 then 1 else 0 in
  let res := (a - b - borrow) >>> 0 in
  if updateFlags then
    let s := updateBasicFlags res s in
    let s := set_flagC (if a >=? b + borrow then 1 else 0) s in
    let s := set_flagV ((((a .^ b) .& .~ (res .^ b)) >>> 31) .& 1) s in
    (res, s)
  else (res, s).

Definition neg (a : Z) (updateFlags : bool) (s : CPU) : Z * CPU :=
  let a := a >>> 0 in
  let res := (0 - a) >>> 0 in
  if updateFlags then
    let s := updateBasicFlags res s in
    let s := set_flagC (if a =? 0 then 1 else 0) s in
    let s := set_flagV (if a =? 0x80000000 then 1 else 0) s in
    (res, s)
  else (res, s).

(** ** Logic *)

Definition bitOp (a b : Z) (type : string) (updateFlags : bool) (s : CPU)
  : Z * CPU :=
  let res :=
    if String.eqb type "and" then (a .& b) >>> 0
    else if String.eqb type "or" then (a .| b) >>> 0
    else if String.eqb type "xor" then (a .^ b) >>> 0
    else if String.eqb type "not" then (.~ a) >>> 0
    else 0 in
  (res, if updateFlags then updateBasicFlags res s else s).

(** ** Shifts and rotates *)

Definition sll (a sa : Z) (updateFlags : bool) (s : CPU) : Z * CPU :=
  let a := a >>> 0 in
  let sa := sa .& 0x1F in
  let res := (a << sa) >>> 0 in
  if updateFlags then
    let s := updateBasicFlags res s in
    (res, if sa >? 0 then set_flagC ((a >>> (32 - sa)) .& 1) s else s)
  else (res, s).

Definition srl (a sa : Z) (updateFlags : bool) (s : CPU) : Z * CPU :=
  let a := a >>> 0 in
  let sa := sa .& 0x1F in
  let res := (a >>> sa) >>> 0 in
  if updateFlags then
    let s := updateBasicFlags res s in
    (res, if sa >? 0 then set_flagC ((a >>> (sa - 1)) .& 1) s else s)
  else (res, s).

Definition sra (a sa : Z) (updateFlags : bool) (s : CPU) : Z * CPU :=
  let a := a >>> 0 in
  let sa := sa .& 0x1F in
  let res := ((a .| 0) >> sa) >>> 0 in
  if updateFlags then
    let s := updateBasicFlags res s in
    (res, if sa >? 0 then set_flagC ((a >>> (sa - 1)) .& 1) s else s)
  else (res, s).

Definition ror (a sa : Z) (updateFlags : bool) (s : CPU) : Z * CPU :=
  let a := a >>> 0 in
  let sa := sa .& 0x1F in
  if sa =? 0 then (a, s)
  else
    let res := ((a >>> sa) .| (a << (32 - sa))) >>> 0 in
    if updateFlags then
      let s := updateBasicFlags res s in
      (res, set_flagC ((a >>> (sa - 1)) .& 1) s)
    else (res, s).

Definition rol (a sa : Z) (updateFlags : bool) (s : CPU) : Z * CPU :=
  let a := a >>> 0 in
  let sa := sa .& 0x1F in
  if sa =? 0 then (a, s)
  else
    let res := ((a << sa) .| (a >>> (32 - sa))) >>> 0 in
    if updateFlags then
      let s := updateBasicFlags res s in
      (res, set_flagC ((a >>> (32 - sa)) .& 1) s)
    else (res, s).

Definition rorc (a : Z) (updateFlags : bool) (s : CPU) : Z * CPU :=
  let a := a >>> 0 in
  let res := ((a >>> 1) .| ((flagC s .& 1) << 31)) >>> 0 in
  if updateFlags then
    let s := updateBasicFlags res s in
    (res, set_flagC (a .& 1) s)
  else (res, s).

Definition rolc (a : Z) (updateFlags : bool) (s : CPU) : Z * CPU :=
  let a := a >>> 0 in
  let res := ((a << 1) .| (flagC s .& 1)) >>> 0 in
  if updateFlags then
    let s := updateBasicFlags res s in
    (res, set_flagC ((a >>> 31) .& 1) s)
  else (res, s).

(** ** Sign and zero extension *)

Definition extsb (a : Z) (updateFlags : bool) (s : CPU) : Z * CPU :=
  let res := (a .| 0) .& 0xFF in
  let res := if JS.truthy (res .& 0x80) then res .| 0xFFFFFF00 else res in
  let res := res >>> 0 in
  (res, if updateFlags then updateBasicFlags res s else s).

Definition extsh (a : Z) (updateFlags : bool) (s : CPU) : Z * CPU :=
  let res := (a .| 0) .& 0xFFFF in
  let res := if JS.truthy (res .& 0x8000) then res .| 0xFFFF0000 else res in
  let res := res >>> 0 in
  (res, if updateFlags then updateBasicFlags res s else s).

Definition extzb (a : Z) (updateFlags : bool) (s : CPU) : Z * CPU :=
  let res := a .& 0xFF in
  (res, if updateFlags then updateBasicFlags res s else s).

Definition extzh (a : Z) (updateFlags : bool) (s : CPU) : Z * CPU :=
  let res := a .& 0xFFFF in
  (res, if updateFlags then updateBasicFlags res s else s).

(** ** Single-bit operations *)

Definition bitclr (a bitIdx : Z) (updateFlags : bool) (s : CPU) : Z * CPU :=
  let bitIdx := bitIdx .& 0x1F in
  let res := (a .& .~ (1 << bitIdx)) >>> 0 in
  (res, if updateFlags then updateBasicFlags res s else s).

Definition bitset (a bitIdx : Z) (updateFlags : bool) (s : CPU) : Z * CPU :=
  let bitIdx := bitIdx .& 0x1F in
  let res := (a .| (1 << bitIdx)) >>> 0 in
  (res, if updateFlags then updateBasicFlags res s else s).

Definition bittst (a bitIdx : Z) (s : CPU) : CPU :=
  let bitIdx := bitIdx .& 0x1F in
  let s := set_flagT (if negb ((a .& (1 << bitIdx)) =? 0) then 1 else 0) s in
  set_flagZ (if JS.truthy (flagT s) then 0 else 1) s.

Definition bittgl (a bitIdx : Z) (updateFlags : bool) (s : CPU) : Z * CPU :=
  let bitIdx := bitIdx .& 0x1F in
  let res := (a .^ (1 << bitIdx)) >>> 0 in
  (res, if updateFlags then updateBasicFlags res s else s).

(** ** Conditions *)

Definition conditional (cond : Z) (s : CPU) : bool :=
  let cond := cond .& 0x0F in
  match cond with
  | 0x00 => flagC s =? 1
  | 0x01 => flagC s =? 0
  | 0x02 => (flagC s =? 1) && (flagZ s =? 0)
  | 0x03 => (flagC s =? 0) || (flagZ s =? 1)
  | 0x04 => flagZ s =? 1
  | 0x05 => flagZ s =? 0
  | 0x06 => (flagN s =? flagV s) && (flagZ s =? 0)
  | 0x07 => negb (flagN s =? flagV s) || (flagZ s =? 1)
  | 0x08 => flagN s =? flagV s
  | 0x09 => negb (flagN s =? flagV s)
  | 0x0A => flagN s =? 1
  | 0x0B => flagN s =? 0
  | 0x0C => flagV s =? 1
  | 0x0D => flagV s =? 0
  | 0x0E => flagT s =? 1
  | 0x0F => true
  | _ => false
  end.

(** ** Multiplication and division

    The products are computed on BigInt in the source, so they are exact.
    The quotients are computed on doubles and then truncated, respectively
    floored: for 32-bit operands the rounded double quotient lies strictly
    between the same two integers as the exact one, so [Math.trunc (sA / sB)]
    is [Z.quot] and [Math.floor (uA / uB)] is [Z.div].  The [%] operator takes
    the sign of the dividend, as [Z.rem] does. *)

Definition execMul (a b : Z) (s : CPU) : CPU :=
  let sA := a .| 0 in
  let sB := b .| 0 in
  let res := sA * sB in
  let s := set_CEL (Z.land res 0xFFFFFFFF >>> 0) s in
  set_CEH (Z.land (Z.shiftr res 32) 0xFFFFFFFF >>> 0) s.

Definition execMulu (a b : Z) (s : CPU) : CPU :=
  let valA := a >>> 0 in
  let valB := b >>> 0 in
  let res := valA * valB in
  let s := set_CEL (Z.land res 0xFFFFFFFF >>> 0) s in
  set_CEH (Z.land (Z.shiftr res 32) 0xFFFFFFFF >>> 0) s.

Definition execDiv (a b : Z) (s : CPU) : CPU :=
  let sA := a .| 0 in
  let sB := b .| 0 in
  if negb (sB =? 0) then
    let s := set_CEL (Z.quot sA sB >>> 0) s in
    set_CEH (Z.rem sA sB >>> 0) s
  else s.

Definition execDivu (a b : Z) (s : CPU) : CPU :=
  let uA := a >>> 0 in
  let uB := b >>> 0 in
  if negb (uB =? 0) then
    let s := set_CEL (uA / uB >>> 0) s in
    set_CEH (Z.rem uA uB >>> 0) s
  else s.

(** ** Moves between registers and the custom engine pair *)

Definition moveFromCE (rD rB : Z) (s : CPU) : CPU :=
  let rB := rB .& 0x03 in
  match rB with
  | 1 => setRegister rD (CEL s) s
  | 2 => setRegister rD (CEH s) s
  | 3 =>
      let s := setRegister rD (CEL s) s in
      if rD <? 31 then setRegister (rD + 1) (CEH s) s else s
  | _ => s
  end.

Definition moveToCE (rD rB : Z) (s : CPU) : CPU :=
  let rB := rB .& 0x03 in
  match rB with
  | 1 => set_CEL (bank_get (r s) rD) s
  | 2 => set_CEH (bank_get (r s) rD) s
  | 3 =>
      let s := set_CEL (bank_get (r s) rD) s in
      if rD <? 31 then set_CEH (bank_get (r s) (rD + 1)) s else s
  | _ => s
  end.

(** ** Exception entry and return (part_002) *)

Definition exception (cause : Z) (s : CPU) : CPU :=
  let s := packSR0 s in
  let s := set_cr (bank_set (cr s) 1 (bank_get (sr s) 0)) s in
  let s :=
    set_cr
      (bank_set (cr s) 2
         ((bank_get (cr s) 2 .& .~ 0x00FC0000) .| ((cause .& 0x3F) << 18)))
      s in
  let s := set_cr (bank_set (cr s) 5 (pc s)) s in
  let s := set_cr (bank_set (cr s) 0 (bank_get (cr s) 0 .& .~ 1)) s in
  set_pc ((bank_get (cr s) 3 + (cause * 4)) >>> 0) s.

(** [exception(cause)] for a [cause] that is not an integer.  [cause & 0x3F]
    converts it to a 32-bit integer and [cr[3] + cause * 4] is computed on
    doubles before [>>> 0]; the first line only formats the cause for the
    log. *)
Definition exception_noninteger (cause : NonInteger) (s : CPU) : CPU :=
  let s := packSR0 s in
  let s := set_cr (bank_set (cr s) 1 (bank_get (sr s) 0)) s in
  let s :=
    set_cr
      (bank_set (cr s) 2
         ((bank_get (cr s) 2 .& .~ 0x00FC0000) .|
          ((to_integer cause .& 0x3F) << 18)))
      s in
  let s := set_cr (bank_set (cr s) 5 (pc s)) s in
  let s := set_cr (bank_set (cr s) 0 (bank_get (cr s) 0 .& .~ 1)) s in
  set_pc (times_4_plus (bank_get (cr s) 3) cause) s.

Definition rte (s : CPU) : CPU :=
  let s := set_sr (bank_set (sr s) 0 (bank_get (cr s) 1)) s in
  let s := unpackSR0 s in
  set_pc (bank_get (cr s) 5) s.

(** ** Instruction execution: state and exceptions

    An executor runs on the CPU state and either returns or throws; what it
    changed before throwing stays changed, as in the source, where [step]
    catches the exception on the same object. *)

Definition Exec (A : Type) : Type := CPU -> completion A * CPU.

Definition ret {A} (a : A) : Exec A := fun s => (Normal a, s).

Definition bind {A B} (m : Exec A) (k : A -> Exec B) : Exec B :=
  fun s =>
    match m s with
    | (Normal a, s') => k a s'
    | (Throw e, s') => (Throw e, s')
    end.

Notation "'let*' x ':=' m 'in' k" := (bind m (fun x => k))
  (at level 10, x name, m at level 100, k at level 200).
Notation "m ;; k" := (bind m (fun _ => k))
  (at level 100, k at level 200, right associativity).

Definition gets {A} (f : CPU -> A) : Exec A := fun s => (Normal (f s), s).
Definition modify (f : CPU -> CPU) : Exec unit := fun s => (Normal tt, f s).
Definition alu {A} (f : CPU -> A * CPU) : Exec A :=
  fun s => let '(a, s') := f s in (Normal a, s').

(** [this.r[i]] *)
Definition R (i : Z) : Exec Z := gets (fun s => bank_get (r s) i).

(** [this.setRegister(rD, e)] *)
Definition setReg (rD : Z) (e : Exec Z) : Exec unit :=
  let* v := e in modify (setRegister rD v).

(** A method call on [this.miu]; on [null] the property access throws. *)
Definition miu_call {A} (f : M -> completion A * M) : Exec A :=
  fun s =>
    match miu s with
    | Some m => let '(c, m') := f m in (c, set_miu (Some m') s)
    | None => (Throw "Cannot read properties of null", s)
    end.

(** [if (this.miu) ...] *)
Definition if_miu (k : Exec unit) : Exec unit :=
  fun s => match miu s with Some _ => k s | None => (Normal tt, s) end.

Definition miu_readU8 (addr : Z) : Exec Z := miu_call (fun m => readU8 m addr).
Definition miu_readU16 (addr : Z) : Exec Z := miu_call (fun m => readU16 m addr).
Definition miu_readU32 (addr : Z) : Exec Z := miu_call (fun m => readU32 m addr).
Definition miu_writeU8 (addr v : Z) : Exec unit :=
  miu_call (fun m => writeU8 m addr v).
Definition miu_writeU16 (addr v : Z) : Exec unit :=
  miu_call (fun m => writeU16 m addr v).
Definition miu_writeU32 (addr v : Z) : Exec unit :=
  miu_call (fun m => writeU32 m addr v).

(** ** SP-Form *)

Definition execSpForm (insn : Z) : Exec Z :=
  let rD := (insn >>> 22) .& 0x1F in
  let rA := (insn >>> 17) .& 0x1F in
  let rB := (insn >>> 12) .& 0x1F in
  let func6 := (insn >>> 1) .& 0x3F in
  let CU := insn .& 1 in
  let op2 (f : Z -> Z -> bool -> CPU -> Z * CPU) : Exec Z :=
    (let* a := R rA in let* b := R rB in
     setReg rD (alu (f a b (CU =? 1)));; ret 4) in
  let op2i (f : Z -> Z -> bool -> CPU -> Z * CPU) : Exec Z :=
    (let* a := R rA in setReg rD (alu (f a rB (CU =? 1)));; ret 4) in
  let op1 (f : Z -> bool -> CPU -> Z * CPU) (uf : bool) : Exec Z :=
    (let* a := R rA in setReg rD (alu (f a uf));; ret 4) in
  let ce (f : Z -> Z -> CPU -> CPU) : Exec Z :=
    (let* a := R rA in let* b := R rB in modify (f a b);; ret 4) in
  match func6 with
  | 0x00 => ret 4
  | 0x01 => modify (exception 0x01);; ret 4
  | 0x02 =>
      let* c := gets (conditional rB) in
      (if c then modify (exception 0x02) else ret tt);; ret 4
  | 0x03 => modify (exception 0x03);; ret 4
  | 0x04 =>
      let* c := gets (conditional rB) in
      if c then
        (if JS.truthy CU
         then let* p := gets pc in modify (setRegister 3 ((p + 4) >>> 0))
         else ret tt);;
        (let* a := R rA in modify (set_pc a));;
        ret 0
      else ret 4
  | 0x05 => ret 4
  | 0x06 =>
      if_miu (let* a := R rA in setReg rD (miu_readU32 a));; ret 4
  | 0x07 =>
      if_miu (let* a := R rA in let* d := R rD in miu_writeU32 a d);; ret 4
  | 0x08 => op2 add
  | 0x09 => op2 addc
  | 0x0A => op2 sub
  | 0x0B => op2 subc
  | 0x0C => (let* a := R rA in let* b := R rB in alu (sub a b true));; ret 4
  | 0x0D => (let* a := R rA in alu (sub a 0 true));; ret 4
  | 0x0F => op1 neg (CU =? 1)
  | 0x10 => op2 (fun a b => bitOp a b "and")
  | 0x11 => op2 (fun a b => bitOp a b "or")
  | 0x12 => op1 (fun a => bitOp a 0 "not") (CU =? 1)
  | 0x13 => op2 (fun a b => bitOp a b "xor")
  | 0x14 => op2i bitclr
  | 0x15 => op2i bitset
  | 0x16 => (let* a := R rA in modify (bittst a rB));; ret 4
  | 0x17 => op2i bittgl
  | 0x18 => op2 sll
  | 0x1A => op2 srl
  | 0x1B => op2 sra
  | 0x1C => op2 ror
  | 0x1D => op1 rorc (CU =? 1)
  | 0x1E => op2 rol
  | 0x1F => op1 rolc (CU =? 1)
  | 0x20 => ce execMul
  | 0x21 => ce execMulu
  | 0x22 => ce execDiv
  | 0x23 => ce execDivu
  | 0x24 => modify (moveFromCE rD rB);; ret 4
  | 0x25 => modify (moveToCE rD rB);; ret 4
  | 0x28 => setReg rD (gets (fun s => bank_get (sr s) rB));; ret 4
  | 0x29 =>
      (let* a := R rA in modify (fun s => set_sr (bank_set (sr s) rB a) s));;
      (if rB =? 0 then modify unpackSR0 else ret tt);;
      ret 4
  | 0x2A =>
      (let* c := gets (conditional rB) in
       modify (set_flagT (if c then 1 else 0)));;
      ret 4
  | 0x2B =>
      let* c := gets (conditional rB) in
      (if c then setReg rD (R rA) else ret tt);; ret 4
  | 0x2C => op1 extsb (CU =? 1)
  | 0x2D => op1 extsh (CU =? 1)
  | 0x2E => op1 extzb (CU =? 1)
  | 0x2F => op1 extzh (CU =? 1)
  | 0x30 => if_miu (let* a := R rA in setReg rD (miu_readU8 a));; ret 4
  | 0x31 => if_miu (let* a := R rA in setReg rD (miu_readU32 a));; ret 4
  | 0x34 =>
      if_miu (let* a := R rA in let* d := R rD in miu_writeU8 a (d .& 0xFF));;
      ret 4
  | 0x35 =>
      if_miu (let* a := R rA in let* d := R rD in miu_writeU32 a d);; ret 4
  | 0x38 => op2i sll
  | 0x3A => op2i srl
  | 0x3B => op2i sra
  | 0x3C => op2i ror
  | 0x3D => op1 rorc true
  | 0x3E => op2i rol
  | 0x3F => modify rte;; ret 0
  | _ => ret 4
  end.

(** ** I-Form *)

Definition execIForm (insn : Z) : Exec Z :=
  let OP := (insn >>> 27) .& 0x1F in
  let rD := (insn >>> 22) .& 0x1F in
  let func3 := (insn >>> 19) .& 0x07 in
  let imm16 := signExtend ((insn >>> 1) .& 0xFFFF) 16 in
  let family (imm : Z) (ldi : Z) : Exec unit :=
    match func3 with
    | 0x00 => let* d := R rD in setReg rD (alu (add d imm false))
    | 0x02 => (let* d := R rD in alu (sub d imm true));; ret tt
    | 0x04 => let* d := R rD in setReg rD (alu (bitOp d imm "and" false))
    | 0x05 => let* d := R rD in setReg rD (alu (bitOp d imm "or" false))
    | 0x06 => modify (setRegister rD ldi)
    | _ => ret tt
    end in
  match OP with
  | 0x01 => family imm16 imm16;; ret 4
  | 0x05 => family (imm16 << 16) ((imm16 << 16) >>> 0);; ret 4
  | _ => ret 4
  end.

(** ** J-Form *)

Definition execJForm (insn : Z) : Exec Z :=
  let LK := insn .& 1 in
  let disp24 := (insn >>> 1) .& 0xFFFFFF in
  let signed_disp := signExtend disp24 24 in
  let* p := gets pc in
  let target := (p + (signed_disp << 1)) >>> 0 in
  (if JS.truthy LK
   then let* p := gets pc in modify (setRegister 3 ((p + 4) >>> 0))
   else ret tt);;
  modify (set_pc target);;
  ret 0.

(** ** B-Form *)

Definition execBForm (insn : Z) : Exec Z :=
  let LK := insn .& 1 in
  let BC := (insn >>> 23) .& 0x0F in
  let disp_high := (insn >>> 9) .& 0x3FFF in
  let disp_low := (insn >>> 1) .& 0xFF in
  let disp22 := (disp_high << 8) .| disp_low in
  let signed_disp := signExtend disp22 22 in
  let* p := gets pc in
  let target := (p + (signed_disp << 1)) >>> 0 in
  let* c := gets (conditional BC) in
  if c then
    (if JS.truthy LK
     then let* p := gets pc in modify (setRegister 3 ((p + 4) >>> 0))
     else ret tt);;
    modify (set_pc target);;
    ret 0
  else ret 4.

(** ** RIX-Form

    The post-increment stores through [this.r[rA]], not [setRegister]. *)

Definition execRixForm (insn : Z) : Exec Z :=
  let OP := (insn >>> 27) .& 0x1F in
  let rD := (insn >>> 22) .& 0x1F in
  let rA := (insn >>> 17) .& 0x1F in
  let imm12 := signExtend ((insn >>> 5) .& 0xFFF) 12 in
  let func3 := (insn >>> 2) .& 0x07 in
  let* a := R rA in
  let addr := (a + imm12) >>> 0 in
  let* m := gets miu in
  match m with
  | None => ret 4
  | Some _ =>
      match func3 with
      | 0x00 => setReg rD (miu_readU32 addr)
      | 0x01 => setReg rD (let* v := miu_readU16 addr in ret (signExtend v 16))
      | 0x02 => setReg rD (miu_readU16 addr)
      | 0x03 => setReg rD (let* v := miu_readU8 addr in ret (signExtend v 8))
      | 0x04 => let* d := R rD in miu_writeU32 addr d
      | 0x05 => let* d := R rD in miu_writeU16 addr d
      | 0x06 => setReg rD (miu_readU8 addr)
      | 0x07 => let* d := R rD in miu_writeU8 addr d
      | _ => ret tt
      end;;
      (if OP =? 0x03
       then modify (fun s => set_r (bank_set (r s) rA addr) s)
       else ret tt);;
      ret 4
  end.

(** ** Memory-Form *)

Definition execMemoryForm (insn : Z) : Exec Z :=
  let OP := (insn >>> 27) .& 0x1F in
  let rD := (insn >>> 22) .& 0x1F in
  let rA := (insn >>> 17) .& 0x1F in
  let imm15 := signExtend ((insn >>> 2) .& 0x7FFF) 15 in
  let* a := R rA in
  let addr := (a + imm15) >>> 0 in
  let* m := gets miu in
  match m with
  | None => ret 4
  | Some _ =>
      match OP with
      | 0x10 => setReg rD (miu_readU32 addr)
      | 0x11 => setReg rD (let* v := miu_readU16 addr in ret (signExtend v 16))
      | 0x12 => setReg rD (miu_readU16 addr)
      | 0x13 => setReg rD (let* v := miu_readU8 addr in ret (signExtend v 8))
      | 0x14 => let* d := R rD in miu_writeU32 addr d
      | 0x15 => let* d := R rD in miu_writeU16 addr d
      | 0x16 => setReg rD (miu_readU8 addr)
      | 0x17 => let* d := R rD in miu_writeU8 addr d
      | _ => ret tt
      end;;
      ret 4
  end.

(** ** 16-bit compressed forms (cpu_part3.js)

    [c.push] and [c.pop] move the stack register through [this.r[stackReg]],
    not [setRegister]. *)

Definition exec16 (insn : Z) : Exec Z :=
  let OP := (insn >>> 13) .& 0x07 in
  let rD := (insn >>> 1) .& 0x0F in
  let rA := (insn >>> 5) .& 0x0F in
  match OP with
  | 0x00 =>
      let func4 := (insn >>> 9) .& 0x0F in
      match func4 with
      | 0x00 => setReg (rD + 16) (R (rA + 16));; ret 2
      | 0x01 => setReg rD (R rA);; ret 2
      | 0x03 => setReg rD (R rA);; ret 2
      | 0x04 => (let* a := R rA in modify (set_pc a));; ret 0
      | 0x05 =>
          (let* p := gets pc in modify (setRegister 3 ((p + 2) >>> 0)));;
          (let* a := R rA in modify (set_pc a));;
          ret 0
      | 0x06 =>
          let imm11_jmp := (insn >>> 5) .& 0x7FF in
          let* p := gets pc in
          let target_jmp := (p + (signExtend imm11_jmp 11 << 1)) >>> 0 in
          modify (set_pc target_jmp);;
          ret 0
      | 0x07 =>
          let imm11_jal := (insn >>> 5) .& 0x7FF in
          let* p := gets pc in
          let target_jal := (p + (signExtend imm11_jal 11 << 1)) >>> 0 in
          modify (setRegister 3 ((p + 2) >>> 0));;
          modify (set_pc target_jal);;
          ret 0
      | 0x0A => ret 2
      | 0x0B => modify (exception 0x09);; ret 2
      | _ => ret 2
      end
  | 0x02 =>
      let func4 := (insn >>> 9) .& 0x0F in
      let H := (insn >>> 5) .& 1 in
      let targetReg := rD + (if JS.truthy H then 16 else 0) in
      let stackReg := (insn >>> 6) .& 0x07 in
      let imm5 := (insn >>> 5) .& 0x1F in
      match func4 with
      | 0x00 =>
          let* d := R rD in let* a := R rA in setReg rD (alu (add d a true))
      | 0x01 => let* d := R rD in setReg rD (alu (add d imm5 true))
      | 0x02 => let* d := R rD in setReg rD (alu (sub d imm5 true))
      | 0x03 => modify (setRegister rD imm5)
      | 0x04 => modify (setRegister rD ((imm5 << 11) >>> 0))
      | 0x05 =>
          let* d := R rD in let* a := R rA in
          setReg rD (alu (bitOp d a "and" true))
      | 0x06 =>
          let* d := R rD in let* a := R rA in
          setReg rD (alu (bitOp d a "or" true))
      | 0x07 =>
          let* d := R rD in let* a := R rA in
          setReg rD (alu (bitOp d a "xor" true))
      | 0x08 => let* d := R rD in setReg rD (alu (bitOp d 0 "not" true))
      | 0x09 => let* d := R rD in setReg rD (alu (neg d true))
      | 0x0A =>
          if_miu
            (let* sp := R stackReg in
             let addr := (sp + (imm5 << 2)) >>> 0 in
             setReg targetReg (miu_readU32 addr))
      | 0x0B =>
          if_miu
            (let* sp := R stackReg in
             let addr := (sp + (imm5 << 2)) >>> 0 in
             let* v := R targetReg in miu_writeU32 addr v)
      | 0x0C =>
          let* d := R rD in let* a := R rA in setReg rD (alu (sub d a true))
      | 0x0E =>
          (let* sp := R stackReg in
           modify (fun s => set_r (bank_set (r s) stackReg ((sp - 4) >>> 0)) s));;
          if_miu
            (let* sp := R stackReg in let* v := R targetReg in
             miu_writeU32 sp v)
      | 0x0F =>
          if_miu (let* sp := R stackReg in setReg targetReg (miu_readU32 sp));;
          let* sp := R stackReg in
          modify (fun s => set_r (bank_set (r s) stackReg ((sp + 4) >>> 0)) s)
      | _ => ret tt
      end;;
      ret 2
  | 0x03 =>
      let imm5 := (insn >>> 4) .& 0x1F in
      let* a := R rA in
      let addr := (a + (imm5 << 2)) >>> 0 in
      (if JS.truthy ((insn >>> 12) .& 1)
       then if_miu (let* d := R rD in miu_writeU32 addr d)
       else if_miu (setReg rD (miu_readU32 addr)));;
      ret 2
  | 0x04 =>
      let cond := (insn >>> 10) .& 0x0F in
      let imm8 := signExtend ((insn >>> 1) .& 0xFF) 8 in
      let* p := gets pc in
      let target := (p + (imm8 << 1)) >>> 0 in
      let* c := gets (conditional cond) in
      if c then modify (set_pc target);; ret 0 else ret 2
  | 0x05 =>
      let func3 := (insn >>> 10) .& 0x07 in
      let imm5 := (insn >>> 5) .& 0x1F in
      match func3 with
      | 0x00 => let* d := R rD in setReg rD (alu (sll d imm5 true))
      | 0x02 => let* d := R rD in setReg rD (alu (srl d imm5 true))
      | 0x03 => let* d := R rD in setReg rD (alu (sra d imm5 true))
      | 0x04 => let* d := R rD in setReg rD (alu (rol d imm5 true))
      | 0x05 => let* d := R rD in setReg rD (alu (ror d imm5 true))
      | _ => ret tt
      end;;
      ret 2
  | 0x06 =>
      let func3 := (insn >>> 10) .& 0x07 in
      match func3 with
      | 0x00 => let* d := R rD in setReg rD (alu (extsb d true))
      | 0x01 => let* d := R rD in setReg rD (alu (extsh d true))
      | 0x02 => let* d := R rD in setReg rD (alu (extzb d true))
      | 0x03 => let* d := R rD in setReg rD (alu (extzh d true))
      | _ => ret tt
      end;;
      ret 2
  | 0x07 =>
      let imm5 := (insn >>> 5) .& 0x1F in
      let* sp := R 2 in
      let addr := (sp + (imm5 << 2)) >>> 0 in
      (if JS.truthy ((insn >>> 10) .& 1)
       then if_miu (let* d := R rD in miu_writeU32 addr d)
       else if_miu (setReg rD (miu_readU32 addr)));;
      ret 2
  | _ => ret 2
  end.

(** ** Initialisation, halt and resume (part_002) *)

Definition initializeCPU (m : option M) (s : CPU) : bool * CPU :=
  match m with
  | None => (false, s)
  | Some _ =>
      let s := set_miu m s in
      let s := set_initialized true s in
      let s := set_halted false s in
      let s := set_fault_count 0 s in
      let s := set_last_error None s in
      (true, s)
  end.

Definition halt (s : CPU) : CPU := set_halted true s.

Definition resume (s : CPU) : bool * CPU :=
  if negb (initialized s) then (false, s) else (true, set_halted false s).

(** ** The main execution cycle *)

(** [this.breakpointManager && this.breakpointManager.checkBreakpoint(this.pc)],
    and the pause it causes. *)
Definition breakpoint_pause : Exec bool :=
  fun s =>
    match breakpointManager s with
    | None => (Normal false, s)
    | Some bm =>
        let '(hit, bm) := checkBreakpoint (pc s) bm in
        if hit
        then (Normal true, set_breakpointManager (Some (set_paused true bm)) s)
        else (Normal false, set_breakpointManager (Some bm) s)
    end.

(** [this.pc > this.miu.size]; a comparison with [undefined] is false. *)
Definition pc_out_of_range : Exec bool :=
  fun s =>
    match miu s with
    | Some m =>
        (Normal match miu_size m with Some n => pc s >? n | None => false end, s)
    | None => (Throw "Cannot read properties of null", s)
    end.

(** The [switch] of [step] on the primary opcode. *)
Definition decode_execute (encoded : Z) : Exec Z :=
  let OP := (encoded >>> 27) .& 0x1F in
  match OP with
  | 0x00 => execSpForm encoded
  | 0x01 | 0x05 => execIForm encoded
  | 0x02 => execJForm encoded
  | 0x03 | 0x07 => execRixForm encoded
  | 0x04 => execBForm encoded
  | 0x10 | 0x11 | 0x12 | 0x13 | 0x14 | 0x15 | 0x16 | 0x17 =>
      execMemoryForm encoded
  | 0x08 | 0x09 | 0x0A | 0x0B | 0x0C | 0x0D | 0x0E | 0x0F
  | 0x18 | 0x19 | 0x1A | 0x1B | 0x1C | 0x1D | 0x1E | 0x1F =>
      let low := encoded .& 0xFFFF in
      exec16 low
  | _ => ret 4
  end.

(** What [step] does once the executor has returned [result]. *)
Definition complete (result : Z) (s : CPU) : CPU :=
  let s := if negb (result =? 0) then set_pc ((pc s + result) >>> 0) s else s in
  let s := set_cycles (cycles s + 1) s in
  set_instructions (instructions s + 1) s.

(** The body of the [try] block of [step]. *)
Definition step_try : Exec bool :=
  let* out := pc_out_of_range in
  if out then modify (exception 0xFF);; ret false
  else
    let* hit := breakpoint_pause in
    if hit then ret false
    else
      let* p := gets pc in
      let* encoded := miu_readU32 p in
      let* result := decode_execute encoded in
      modify (complete result);;
      ret true.

Definition step (s : CPU) : bool * CPU :=
  if negb (initialized s) then (false, s)
  else if halted s then (false, s)
  else
    match miu s with
    | None =>
        let s := set_fault_count (fault_count s + 1) s in
        let s := set_last_error (Some "MIU desconectado ou não inicializado") s in
        let s := if fault_count s >? 100 then set_halted true s else s in
        (false, s)
    | Some _ =>
        let s := set_fault_count 0 s in
        match step_try s with
        | (Normal b, s) => (b, s)
        | (Throw message, s) =>
            let s := set_last_error (Some message) s in
            let s := set_fault_count (fault_count s + 1) s in
            (false, s)
        end
    end.

(** [n] consecutive calls of [step]: the state they leave. *)
Fixpoint steps (n : nat) (s : CPU) : CPU :=
  match n with
  | O => s
  | S n => steps n (snd (step s))
  end.

(** [run(maxSteps)]: the number of calls made and the state they leave. *)
Fixpoint run_loop (fuel : nat) (count : Z) (s : CPU) : Z * CPU :=
  match fuel with
  | O => (count, s)
  | S fuel =>
      if halted s then (count, s)
      else
        let '(ok, s) := step s in
        if negb ok && (fault_count s >? 100) then (count, s)
        else run_loop fuel (count + 1) s
  end.

Definition run (maxSteps : nat) (s : CPU) : Z * CPU :=
  if negb (initialized s) then (0, s) else run_loop maxSteps 0 s.

(** ** The override of [step] in integration.js (src/main.js)

    When that file is loaded it replaces [CPU.prototype.step] by a wrapper
    that repeats the halted and no-interface guards, zeroes the fault
    counter, and calls the original inside a [try] block.  The original
    catches every exception of its own [try] block and its guards do not
    throw, so the wrapper's [catch] block is never entered.  The wrapper's
    no-interface guard counts the fault and returns: the original's guard,
    which holds the breaker, is not reached through it. *)
Definition step_integrated (s : CPU) : bool * CPU :=
  if halted s then (false, s)
  else
    match miu s with
    | None => (false, set_fault_count (fault_count s + 1) s)
    | Some _ => step (set_fault_count 0 s)
    end.

Fixpoint steps_integrated (n : nat) (s : CPU) : CPU :=
  match n with
  | O => s
  | S n => steps_integrated n (snd (step_integrated s))
  end.

(** ** Predicates of the statements *)

(** The word [sr[0]] that [packSR0] builds from five flag values. *)
Definition sr0_image (n z c v t : Z) : Z :=
  ((n .& 1) << 31) .| ((z .& 1) << 30) .| ((c .& 1) << 29) .|
  ((v .& 1) << 28) .| (t .& 1).

Definition flag_bit (x : Z) : Prop := x = 0 \/ x = 1.

(** A state as the data model describes it: three banks of 32 words, a
    32-bit [pc], and flags that are 0 or 1. *)
Definition well_formed (s : CPU) : Prop :=
  length (r s) = 32%nat /\ length (cr s) = 32%nat /\
  length (sr s) = 32%nat /\
  0 <= pc s < 2 ^ 32 /\
  flag_bit (flagN s) /\ flag_bit (flagZ s) /\ flag_bit (flagC s) /\
  flag_bit (flagV s) /\ flag_bit (flagT s).

(** The representation invariant of a CPU object: what the typed arrays
    and the [>>> 0] and [? 1 : 0] idioms of the code maintain.  The banks
    hold 32 words of 32 bits each, [pc] is a 32-bit value and the flags
    are 0 or 1. *)
Definition u32 (x : Z) : Prop := 0 <= x < 2 ^ 32.

Definition bank_ok (b : bank) : Prop := length b = 32%nat /\ Forall u32 b.

Definition invariant (s : CPU) : Prop :=
  bank_ok (r s) /\ bank_ok (cr s) /\ bank_ok (sr s) /\ u32 (pc s) /\
  flag_bit (flagN s) /\ flag_bit (flagZ s) /\ flag_bit (flagC s) /\
  flag_bit (flagV s) /\ flag_bit (flagT s).

(** A computation preserves the invariant, whether it returns or throws. *)
Definition keeps {A} (m : Exec A) : Prop :=
  forall s, invariant s -> invariant (snd (m s)).

(** [step] on [s] passes its guards and reaches the fetch: the CPU is
    initialised and running, the interface [m] is attached, [pc] is not
    beyond its size, and no breakpoint pauses. *)
Definition reaches_fetch (s : CPU) (m : M) : Prop :=
  initialized s = true /\ halted s = false /\ miu s = Some m /\
  match miu_size m with Some n => pc s <= n | None => True end /\
  match breakpointManager s with
  | Some bm => fst (checkBreakpoint (pc s) bm) = false
  | None => True
  end.

(** ... and the fetch returns the word [w], leaving the interface as [m']. *)
Definition fetches (s : CPU) (m : M) (w : Z) (m' : M) : Prop :=
  reaches_fetch s m /\ readU32 m (pc s) = (Normal w, m').

End CPU.

Arguments CPU M : clear implicits.

(** ** Two memory interfaces for concrete runs

    [Ram] is a little-endian byte store without a [size] property, whose
    unwritten bytes read 0; [Faulty] is an interface whose every access
    throws. *)

Definition Ram := gmap Z Z.

Definition ram_byte (m : Ram) (a : Z) : Z := default 0 (m !! (a >>> 0)).

#[export] Instance Ram_interface : MemoryInterface Ram := {
  miu_size := fun _ => None;
  readU8 := fun m a => (Normal (ram_byte m a), m);
  readU16 := fun m a =>
    (Normal (ram_byte m a .| (ram_byte m (a + 1) << 8)), m);
  readU32 := fun m a =>
    (Normal
       ((ram_byte m a .| (ram_byte m (a + 1) << 8) .|
         (ram_byte m (a + 2) << 16) .| (ram_byte m (a + 3) << 24)) >>> 0), m);
  writeU8 := fun m a v => (Normal tt, <[a >>> 0 := v .& 0xFF]> m);
  writeU16 := fun m a v =>
    (Normal tt,
     <[(a + 1) >>> 0 := (v >>> 8) .& 0xFF]> (<[a >>> 0 := v .& 0xFF]> m));
  writeU32 := fun m a v =>
    (Normal tt,
     <[(a + 3) >>> 0 := (v >>> 24) .& 0xFF]>
       (<[(a + 2) >>> 0 := (v >>> 16) .& 0xFF]>
          (<[(a + 1) >>> 0 := (v >>> 8) .& 0xFF]>
             (<[a >>> 0 := v .& 0xFF]> m)))) }.

(** The image that holds the word [w] at address [a]. *)
Definition ram_with (a w : Z) : Ram :=
  snd (writeU32 (∅ : Ram) a w).

Inductive Faulty := faulty.

#[export] Instance Faulty_interface : MemoryInterface Faulty := {
  miu_size := fun _ => None;
  readU8 := fun m _ => (Throw "bus fault", m);
  readU16 := fun m _ => (Throw "bus fault", m);
  readU32 := fun m _ => (Throw "bus fault", m);
  writeU8 := fun m _ _ => (Throw "bus fault", m);
  writeU16 := fun m _ _ => (Throw "bus fault", m);
  writeU32 := fun m _ _ => (Throw "bus fault", m) }.

(** A CPU as the boot sequence leaves it: constructed, then initialised with
    the interface [m], with [pc] at [entry]. *)
Definition booted {M} (m : M) (entry : Z) : CPU M :=
  setPC entry (snd (initializeCPU (Some m) (new_CPU None))).

(** ** The interrupt controller ([class InterruptController], part_001)

    The controller keeps a reference to the CPU that [connectCPU] stored, and
    [trigger] calls [exception] on that very object.  The machine therefore
    holds the one CPU object and the controller; the controller's [cpu] field
    is [null] or the address of that object.  The connected object is a [CPU],
    whose prototype carries [exception], so the test
    [typeof this.cpu.exception === 'function'] of the source holds whenever a
    CPU is connected.

    The four registers are plain numbers in the source (not typed-array
    elements): [|=] and [&=] leave 32-bit signed values in them. *)

Module INTC.

(** The argument of [trigger]: [undefined], [null], an integer, or a value
    that is not an integer. *)
Inductive JsArg := Undefined | Null | Num (n : Z) | NotInt (x : NonInteger).

Inductive CpuRef := the_cpu.

Record Regs := mkRegs {
  INT_MASK : Z;
  INT_PRIO : Z;
  INT_STATUS : Z;
  INT_ACK : Z }.

Record Stats := mkStats {
  triggered : Z;
  processed : Z;
  blocked : Z }.

Record InterruptController := mkINTC {
  name : string;
  cpu : option CpuRef;
  regs : Regs;
  stats : Stats }.

Definition set_cpu (v : option CpuRef) (ic : InterruptController) :=
  {| name := name ic; cpu := v; regs := regs ic; stats := stats ic |}.
Definition set_regs (v : Regs) (ic : InterruptController) :=
  {| name := name ic; cpu := cpu ic; regs := v; stats := stats ic |}.
Definition set_stats (v : Stats) (ic : InterruptController) :=
  {| name := name ic; cpu := cpu ic; regs := regs ic; stats := v |}.

Definition set_INT_MASK (v : Z) (ic : InterruptController) :=
  set_regs {| INT_MASK := v; INT_PRIO := INT_PRIO (regs ic);
              INT_STATUS := INT_STATUS (regs ic);
              INT_ACK := INT_ACK (regs ic) |} ic.
Definition set_INT_PRIO (v : Z) (ic : InterruptController) :=
  set_regs {| INT_MASK := INT_MASK (regs ic); INT_PRIO := v;
              INT_STATUS := INT_STATUS (regs ic);
              INT_ACK := INT_ACK (regs ic) |} ic.
Definition set_INT_STATUS (v : Z) (ic : InterruptController) :=
  set_regs {| INT_MASK := INT_MASK (regs ic); INT_PRIO := INT_PRIO (regs ic);
              INT_STATUS := v; INT_ACK := INT_ACK (regs ic) |} ic.

Definition count_triggered (ic : InterruptController) :=
  set_stats {| triggered := triggered (stats ic) + 1;
               processed := processed (stats ic);
               blocked := blocked (stats ic) |} ic.
Definition count_processed (ic : InterruptController) :=
  set_stats {| triggered := triggered (stats ic);
               processed := processed (stats ic) + 1;
               blocked := blocked (stats ic) |} ic.
Definition count_blocked (ic : InterruptController) :=
  set_stats {| triggered := triggered (stats ic);
               processed := processed (stats ic);
               blocked := blocked (stats ic) + 1 |} ic.

Definition new_InterruptController : InterruptController :=
  {| name := "INT_CTRL"; cpu := None;
     regs := {| INT_MASK := 0xFFFFFFFF; INT_PRIO := 0; INT_STATUS := 0;
                INT_ACK := 0 |};
     stats := {| triggered := 0; processed := 0; blocked := 0 |} |}.

Definition reset (ic : InterruptController) : InterruptController :=
  {| name := name ic; cpu := cpu ic;
     regs := {| INT_MASK := 0xFFFFFFFF; INT_PRIO := 0; INT_STATUS := 0;
                INT_ACK := 0 |};
     stats := {| triggered := 0; processed := 0; blocked := 0 |} |}.

Definition enableIRQ (irqNumber : Z) (ic : InterruptController) :=
  if (0 <=? irqNumber) && (irqNumber <? 32)
  then set_INT_MASK (INT_MASK (regs ic) .| (1 << irqNumber)) ic
  else ic.

Definition disableIRQ (irqNumber : Z) (ic : InterruptController) :=
  if (0 <=? irqNumber) && (irqNumber <? 32)
  then set_INT_MASK (INT_MASK (regs ic) .& .~ (1 << irqNumber)) ic
  else ic.

Definition isIRQEnabled (irqNumber : Z) (ic : InterruptController) : bool :=
  if (0 <=? irqNumber) && (irqNumber <? 32)
  then ((INT_MASK (regs ic) >>> irqNumber) .& 1) =? 1
  else false.

Definition isIRQPending (irqNumber : Z) (ic : InterruptController) : bool :=
  if (0 <=? irqNumber) && (irqNumber <? 32)
  then ((INT_STATUS (regs ic) >>> irqNumber) .& 1) =? 1
  else false.

Definition clearIRQ (irqNumber : Z) (ic : InterruptController) :=
  if (0 <=? irqNumber) && (irqNumber <? 32)
  then set_INT_STATUS (INT_STATUS (regs ic) .& .~ (1 << irqNumber)) ic
  else ic.

(** The register file as the guest sees it. *)
Definition readU32 (address : Z) (ic : InterruptController) : Z :=
  let offset := address .& 0xFFFF in
  match offset with
  | 0x0000 => INT_MASK (regs ic)
  | 0x0004 => INT_PRIO (regs ic)
  | 0x0008 => INT_STATUS (regs ic)
  | 0x000C => 0
  | _ => 0
  end.

Definition writeU32 (address value : Z) (ic : InterruptController) :=
  let offset := address .& 0xFFFF in
  match offset with
  | 0x0000 => set_INT_MASK value ic
  | 0x0004 => set_INT_PRIO value ic
  | 0x0008 => ic
  | 0x000C => set_INT_STATUS (INT_STATUS (regs ic) .& .~ value) ic
  | _ => ic
  end.

Section Machine.

Context {M : Type}.

Record Machine := mkMachine {
  cpu_object : CPU M;
  intc : InterruptController }.

Definition connectCPU (c : option CpuRef) (mc : Machine) : Machine :=
  {| cpu_object := cpu_object mc; intc := set_cpu c (intc mc) |}.

Definition on_intc (f : InterruptController -> InterruptController)
    (mc : Machine) : Machine :=
  {| cpu_object := cpu_object mc; intc := f (intc mc) |}.

(** [trigger] past its two guards.  [bit] is the value of [1 << irqNumber]
    and [enter] is what [this.cpu.exception(irqNumber)] does to the CPU. *)
Definition deliver (bit : Z) (enter : CPU M -> CPU M) (mc : Machine)
  : Machine :=
  let mc := on_intc count_triggered mc in
  let mc :=
    on_intc (fun ic => set_INT_STATUS (INT_STATUS (regs ic) .| bit) ic) mc in
  let isEnabled := negb ((INT_MASK (regs (intc mc)) .& bit) =? 0) in
  match cpu (intc mc) with
  | Some the_cpu =>
      if isEnabled
      then
        {| cpu_object := enter (cpu_object mc);
           intc := count_processed (intc mc) |}
      else on_intc count_blocked mc
  | None => on_intc count_blocked mc
  end.

(** The first guard compares with [undefined] and [null] by [===]; the
    second is [irqNumber < 0 || irqNumber > 31], which a value that compares
    as NaN passes. *)
Definition trigger (irqNumber : JsArg) (mc : Machine) : Machine :=
  match irqNumber with
  | Undefined | Null => on_intc count_blocked mc
  | Num irqNumber =>
      if (irqNumber <? 0) || (irqNumber >? 31)
      then on_intc count_blocked mc
      else deliver (1 << irqNumber) (exception irqNumber) mc
  | NotInt irqNumber =>
      if below irqNumber 0 || above irqNumber 31
      then on_intc count_blocked mc
      else
        deliver (1 << to_integer irqNumber) (exception_noninteger irqNumber)
          mc
  end.

End Machine.

End INTC.

(** ** Concrete machines

    States used to run the definitions on explicit inputs. *)

(** A running state with a non-trivial flag pattern. *)
Definition flagged_state : CPU Ram :=
  set_flagN 1 (set_flagC 1 (set_flagT 1 (booted (∅ : Ram) 0x9E000040))).

(** An initialised CPU whose memory interface was then detached. *)
Definition detached_state : CPU Ram := set_miu None (booted (∅ : Ram) 0x9E000000).

(** The boot vector holds a word with primary opcode 0x06. *)
Definition opcode6_state : CPU Ram :=
  booted (ram_with 0x9E000000 0x30000000) 0x9E000000.

(** [jl] with [disp24 = 0xFFFFFF] and the link bit, at 0x9E000010. *)
Definition jump_back_state : CPU Ram :=
  booted (ram_with 0x9E000010 0x11FFFFFF) 0x9E000010.

(** [j] with [disp24 = 0xFFFFFF] at address 0, where [reset] leaves [pc]. *)
Definition jump_wrap_state : CPU Ram := booted (ram_with 0 0x11FFFFFE) 0.

(** RIX-Form, opcode 0x03 (post-increment), [rD = 1], [rA = 0], [imm12 = 4],
    [func3 = 0]: a word load through [r0] with write-back. *)
Definition rix_r0_state : CPU Ram := booted (ram_with 0 0x18400080) 0.

(** Compressed [c.push] with [stackReg = 0] (primary opcode 0x08, low half
    0x5C00). *)
Definition push_r0_state : CPU Ram := booted (ram_with 0 0x40005C00) 0.

(** [add r1, r1, r2] with flag update at the boot vector, [r1 = 5],
    [r2 = 7]. *)
Definition add_state : CPU Ram :=
  setRegister 2 7
    (setRegister 1 5 (booted (ram_with 0x9E000000 0x00422011) 0x9E000000)).

(** A CPU attached to the interface whose every access throws. *)
Definition faulting_state : CPU Faulty := booted faulty 0.

(** The controller after [connectCPU], with IRQ 6 raised by no one yet, and
    the same with IRQ 6 disabled. *)
Definition connected_machine : INTC.Machine (M := Ram) :=
  INTC.connectCPU (Some INTC.the_cpu)
    {| INTC.cpu_object := flagged_state;
       INTC.intc := INTC.new_InterruptController |}.

Definition masked_machine : INTC.Machine (M := Ram) :=
  INTC.on_intc (INTC.disableIRQ 6) connected_machine.

(** The CPU is inside the handler of a [syscall] (cause 1), halted by the
    debugger, when IRQ 6 arrives. *)
Definition in_handler_machine : INTC.Machine (M := Ram) :=
  {| INTC.cpu_object := halt (exception 0x01 flagged_state);
     INTC.intc := INTC.intc connected_machine |}.

(** * Definitions for the further properties

    ** Two's complement *)

(** The value that sign extension from [b] bits denotes. *)
Definition signed_low_bits (x b : Z) : Z :=
  let m := x mod 2 ^ b in if m <? 2 ^ (b - 1) then m else m - 2 ^ b.

(** ** The bookkeeping fields of the CPU

    What [step], [run], [halt] and [initializeCPU] manage and no instruction
    reaches: the counters, the run state, the fault record, the debugger,
    and whether a memory interface is attached. *)

Section ControlFrame.
Context {M : Type} `{MI : MemoryInterface M}.

Definition attached (s : CPU M) : bool :=
  match miu s with Some _ => true | None => false end.

Definition same_control (s s' : CPU M) : Prop :=
  cycles s' = cycles s /\ instructions s' = instructions s /\
  halted s' = halted s /\ initialized s' = initialized s /\
  fault_count s' = fault_count s /\ last_error s' = last_error s /\
  breakpointManager s' = breakpointManager s /\
  attached s' = attached s.

(** A computation leaves the bookkeeping fields alone, whether it returns
    or throws. *)
Definition untouched {A} (m : Exec A) : Prop :=
  forall s, same_control s (snd (m s)).

End ControlFrame.

(** ** Byte and halfword access to the interrupt controller (part_001)

    [readU8], [readU16], [writeU8] and [writeU16] of
    [class InterruptController]: each goes through the 32-bit access of the
    aligned address. *)

Module INTCBytes.
Import INTC.

Definition readU8 (offset : Z) (ic : InterruptController) : Z :=
  let word := INTC.readU32 (offset .& .~ 3) ic in
  let shift := (offset .& 3) * 8 in
  (word >>> shift) .& 0xFF.

Definition readU16 (offset : Z) (ic : InterruptController) : Z :=
  let word := INTC.readU32 (offset .& .~ 3) ic in
  let shift := (offset .& 2) * 8 in
  (word >>> shift) .& 0xFFFF.

Definition writeU8 (offset value : Z) (ic : InterruptController)
  : InterruptController :=
  let addr := offset .& .~ 3 in
  let shift := (offset .& 3) * 8 in
  let word := INTC.readU32 addr ic in
  let word := (word .& .~ (0xFF << shift)) .| ((value .& 0xFF) << shift) in
  INTC.writeU32 addr word ic.

Definition writeU16 (offset value : Z) (ic : InterruptController)
  : InterruptController :=
  let addr := offset .& .~ 3 in
  let shift := (offset .& 2) * 8 in
  let word := INTC.readU32 addr ic in
  let word := (word .& .~ (0xFFFF << shift)) .| ((value .& 0xFFFF) << shift) in
  INTC.writeU32 addr word ic.

End INTCBytes.

(** A sequence of [trigger] calls on one machine, in order. *)
Definition trigger_all {M : Type} (irqs : list INTC.JsArg)
    (mc : INTC.Machine (M := M)) : INTC.Machine (M := M) :=
  foldl (fun mc irq => INTC.trigger irq mc) mc irqs.

(** The arguments that [trigger] lets past its two guards: the numbers from
    0 to 31, whole or not, and what compares as NaN. *)
Definition accepted (irq : INTC.JsArg) : bool :=
  match irq with
  | INTC.Num n => (0 <=? n) && (n <=? 31)
  | INTC.NotInt (Fraction q) => Qle_bool 0 q && Qle_bool q 31
  | INTC.NotInt NaN => true
  | _ => false
  end.

(** ** The breakpoint table ([BreakpointManager], cpu_part1.js)

    The other methods that act on the table of breakpoints.  A [Map] method
    on a missing key returns [undefined], and a property store on
    [undefined] throws. *)

Definition hasBreakpoint (addr : Z) (bm : BreakpointManager) : bool :=
  match breakpoints bm !! (addr >>> 0) with Some _ => true | None => false end.

Definition removeBreakpoint (addr : Z) (bm : BreakpointManager)
  : bool * BreakpointManager :=
  let addr := addr >>> 0 in
  (match breakpoints bm !! addr with Some _ => true | None => false end,
   {| breakpoints := delete addr (breakpoints bm); paused := paused bm;
      lastBreakpoint := lastBreakpoint bm |}).

Definition addTemporaryBreakpoint (addr : Z) (bm : BreakpointManager)
  : completion bool * BreakpointManager :=
  let addr := addr >>> 0 in
  let bm := snd (addBreakpoint addr bm) in
  match breakpoints bm !! addr with
  | Some bp =>
      (Normal true,
       {| breakpoints :=
            <[addr := {| enabled := enabled bp; hitCount := hitCount bp;
                         temporary := true |}]> (breakpoints bm);
          paused := paused bm; lastBreakpoint := lastBreakpoint bm |})
  | None => (Throw "Cannot set properties of undefined", bm)
  end.

Definition setEnabled (addr : Z) (value : bool) (bm : BreakpointManager)
  : bool * BreakpointManager :=
  let addr := addr >>> 0 in
  match breakpoints bm !! addr with
  | Some bp =>
      (true,
       {| breakpoints :=
            <[addr := {| enabled := value; hitCount := hitCount bp;
                         temporary := temporary bp |}]> (breakpoints bm);
          paused := paused bm; lastBreakpoint := lastBreakpoint bm |})
  | None => (false, bm)
  end.

Definition resetHitCounts (bm : BreakpointManager) : BreakpointManager :=
  {| breakpoints :=
       (fun bp => {| enabled := enabled bp; hitCount := 0;
                     temporary := temporary bp |}) <$> breakpoints bm;
     paused := paused bm; lastBreakpoint := lastBreakpoint bm |}.

Definition clearAll (bm : BreakpointManager) : BreakpointManager :=
  {| breakpoints := ∅; paused := paused bm; lastBreakpoint := None |}.

(** ** Sector addresses of the CD-ROM driver (CDROM_v4.0_PARTE3.js)

    [lbaToMSF] and [msfToLBA] on integer arguments.  [Math.floor (a / b)]
    of two integers is the quotient rounded down and [%] is the remainder
    with the sign of the dividend.  The [toString] method of the object that
    [lbaToMSF] returns only formats the three fields. *)

Module CDROM.




End CDROM.

(** ** A memory interface with a [size], and further concrete states *)

(** A byte store with a [size] property, as the guard of [step] reads it. *)
Record Bounded := mkBounded { bound : Z; store : Ram }.

#[export] Instance Bounded_interface : MemoryInterface Bounded := {
  miu_size := fun b => Some (bound b);
  readU8 := fun b a =>
    let '(c, m) := readU8 (store b) a in (c, mkBounded (bound b) m);
  readU16 := fun b a =>
    let '(c, m) := readU16 (store b) a in (c, mkBounded (bound b) m);
  readU32 := fun b a =>
    let '(c, m) := readU32 (store b) a in (c, mkBounded (bound b) m);
  writeU8 := fun b a v =>
    let '(c, m) := writeU8 (store b) a v in (c, mkBounded (bound b) m);
  writeU16 := fun b a v =>
    let '(c, m) := writeU16 (store b) a v in (c, mkBounded (bound b) m);
  writeU32 := fun b a v =>
    let '(c, m) := writeU32 (store b) a v in (c, mkBounded (bound b) m) }.

(** [pc] at 0x200 on an interface of size 0x100. *)
Definition beyond_state : CPU Bounded := booted (mkBounded 0x100 ∅) 0x200.

(** B-Form: condition code 0xF (always), displacement field -2, link bit
    set, at 0x9E000010. *)
Definition branch_state : CPU Ram :=
  booted (ram_with 0x9E000010 0x27FFFFFD) 0x9E000010.

(** [r2 = 0x1000] as the stack pointer and a value in [r5]; [c.push] and
    [c.pop] of [r5] on stack register 2 are 0x5C8A and 0x5E8A. *)
Definition stack_state : CPU Ram :=
  setRegister 5 0xDEADBEEF (setRegister 2 0x1000 (booted (∅ : Ram) 0)).

(** The controller with IRQ 4 and IRQ 9 pending. *)
Definition pending_controller : INTC.InterruptController :=
  INTC.set_INT_STATUS 0x210 INTC.new_InterruptController.


(** * Properties *)

(** ** Facts about the 32-bit conversions *)

Lemma ToUint32_range x : 0 <= JS.ToUint32 x < 2 ^ 32.
Proof. unfold JS.ToUint32. apply Z.mod_pos_bound. lia. Qed.

Lemma ToUint32_small x : 0 <= x < 2 ^ 32 -> JS.ToUint32 x = x.
Proof. intros. unfold JS.ToUint32. apply Z.mod_small. lia. Qed.

Lemma ToUint32_idem x : JS.ToUint32 (JS.ToUint32 x) = JS.ToUint32 x.
Proof. apply ToUint32_small, ToUint32_range. Qed.

Lemma ToInt32_range x : - 2 ^ 31 <= JS.ToInt32 x < 2 ^ 31.
Proof.
  unfold JS.ToInt32. pose proof (Z.mod_pos_bound x (2 ^ 32)).
  destruct (Z.ltb_spec (x mod 2 ^ 32) (2 ^ 31)); lia.
Qed.

Lemma ToInt32_small x : - 2 ^ 31 <= x < 2 ^ 31 -> JS.ToInt32 x = x.
Proof.
  intros Hx. unfold JS.ToInt32.
  destruct (Z_lt_le_dec x 0) as [Hneg|Hpos].
  - replace (x mod 2 ^ 32) with (x + 2 ^ 32).
    + destruct (Z.ltb_spec (x + 2 ^ 32) (2 ^ 31)); lia.
    + apply Z.mod_unique with (q := -1); lia.
  - rewrite Z.mod_small by lia.
    destruct (Z.ltb_spec x (2 ^ 31)); lia.
Qed.

Lemma ushr_0 x : x >>> 0 = JS.ToUint32 x.
Proof. reflexivity. Qed.

Lemma ToUint32_testbit x n :
  0 <= n < 32 -> Z.testbit (JS.ToUint32 x) n = Z.testbit x n.
Proof. intros Hn. unfold JS.ToUint32. apply Z.mod_pow2_bits_low. lia. Qed.

Lemma ToInt32_testbit x n :
  0 <= n < 32 -> Z.testbit (JS.ToInt32 x) n = Z.testbit x n.
Proof.
  intros Hn. unfold JS.ToInt32.
  destruct (x mod 2 ^ 32 <? 2 ^ 31).
  - apply Z.mod_pow2_bits_low. lia.
  - rewrite <- (Z.mod_pow2_bits_low (x mod 2 ^ 32 - 2 ^ 32) 32 n) by lia.
    replace (x mod 2 ^ 32 - 2 ^ 32) with (x mod 2 ^ 32 + (-1) * 2 ^ 32) by lia.
    rewrite Z.mod_add, Z.mod_mod by lia.
    apply Z.mod_pow2_bits_low. lia.
Qed.

(** Above bit 31 a 32-bit signed value repeats its sign bit. *)
Lemma int32_sign_extended y n :
  - 2 ^ 31 <= y < 2 ^ 31 -> 31 <= n -> Z.testbit y n = (y <? 0).
Proof.
  intros Hy Hn. destruct (Z.ltb_spec y 0) as [Hneg|Hpos].
  - apply Z.bits_above_log2_neg; [lia|].
    destruct (Z.eq_dec y (-1)) as [->|Hne]; [change (Z.log2 _) with 0; lia|].
    apply Z.lt_le_trans with (m := 31); [|lia].
    apply Z.log2_lt_pow2; lia.
  - destruct (Z.eq_dec y 0) as [->|Hne]; [apply Z.bits_0|].
    apply Z.bits_above_log2; [lia|].
    apply Z.lt_le_trans with (m := 31); [|lia].
    apply Z.log2_lt_pow2; lia.
Qed.

(** [(x >>> n) & 1] reads bit [n] of [x]. *)
Lemma ushr_and_1 x n :
  0 <= n < 32 -> (x >>> n) .& 1 = Z.b2z (Z.testbit x n).
Proof.
  intros Hn. unfold JS.ushr, JS.and, JS.count.
  rewrite (Z.mod_small n) by lia.
  change (JS.ToInt32 1) with (Z.ones 1).
  rewrite Z.land_ones by lia. change (2 ^ 1) with 2.
  rewrite <- Z.bit0_mod.
  rewrite ToInt32_testbit by lia.
  rewrite Z.shiftr_spec by lia.
  rewrite Z.add_0_l, ToUint32_testbit by lia. reflexivity.
Qed.

(** The mask [1 << k] has exactly bit [k] among its low 32 bits, and is
    negative only for [k = 31]. *)
Lemma shl_1_testbit k n :
  0 <= k < 32 -> 0 <= n < 32 -> Z.testbit (1 << k) n = (k =? n).
Proof.
  intros Hk Hn. unfold JS.shl, JS.count.
  rewrite (Z.mod_small k), ToInt32_testbit by lia.
  change (JS.ToInt32 1) with 1.
  rewrite Z.shiftl_1_l. apply Z.pow2_bits_eqb. lia.
Qed.

Lemma shl_1_range k : - 2 ^ 31 <= 1 << k < 2 ^ 31.
Proof. apply ToInt32_range. Qed.

Lemma shl_1_negative k : 0 <= k < 32 -> (1 << k <? 0) = (k =? 31).
Proof.
  intros Hk.
  rewrite <- (int32_sign_extended (1 << k) 31) by (apply shl_1_range || lia).
  rewrite shl_1_testbit by lia. reflexivity.
Qed.

(** [(x & (1 << k)) !== 0] tests bit [k] of [x]. *)
Lemma and_shl_1_nonzero x k :
  0 <= k < 32 -> negb (x .& (1 << k) =? 0) = Z.testbit x k.
Proof.
  intros Hk. unfold JS.and.
  rewrite (ToInt32_small (1 << k)) by apply shl_1_range.
  rewrite <- (ToInt32_testbit x k) by lia.
  pose proof (ToInt32_range x) as Hx.
  set (a := JS.ToInt32 x) in *.
  destruct (Z.testbit a k) eqn:Ha.
  - destruct (Z.eqb_spec (Z.land a (1 << k)) 0) as [H0|]; [|reflexivity].
    assert (Hb : Z.testbit (Z.land a (1 << k)) k = true).
    { rewrite Z.land_spec, Ha, shl_1_testbit, Z.eqb_refl by lia. reflexivity. }
    rewrite H0, Z.bits_0 in Hb. discriminate.
  - replace (Z.land a (1 << k)) with 0; [reflexivity|].
    symmetry. apply Z.bits_inj'. intros n Hn.
    rewrite Z.bits_0, Z.land_spec.
    destruct (Z_lt_le_dec n 32) as [Hlow|Hhigh].
    + rewrite shl_1_testbit by lia.
      destruct (Z.eqb_spec k n) as [<-|]; [rewrite Ha|]; auto with bool.
    + rewrite (int32_sign_extended (1 << k)) by (apply shl_1_range || lia).
      rewrite shl_1_negative by lia.
      destruct (Z.eqb_spec k 31) as [->|]; [|auto with bool].
      rewrite (int32_sign_extended a n), <- (int32_sign_extended a 31), Ha
        by lia.
      reflexivity.
Qed.

(** ** Sign extension of a 24-bit displacement *)

Lemma ToInt32_eq x y k :
  y = x + k * 2 ^ 32 -> - 2 ^ 31 <= y < 2 ^ 31 -> JS.ToInt32 x = y.
Proof.
  intros -> Hy. rewrite <- (ToInt32_small _ Hy).
  unfold JS.ToInt32. rewrite Z.mod_add by lia. reflexivity.
Qed.

Lemma ToUint32_eq x y k :
  y = x + k * 2 ^ 32 -> 0 <= y < 2 ^ 32 -> JS.ToUint32 x = y.
Proof.
  intros -> Hy. rewrite <- (ToUint32_small _ Hy).
  unfold JS.ToUint32. rewrite Z.mod_add by lia. reflexivity.
Qed.

Lemma testbit_23 d : 0 <= d < 2 ^ 24 -> Z.testbit d 23 = (2 ^ 23 <=? d).
Proof.
  intros Hd.
  assert (H : Z.b2z (Z.testbit d 23) = Z.b2z (2 ^ 23 <=? d)).
  { rewrite Z.testbit_spec' by lia.
    destruct (Z.leb_spec (2 ^ 23) d).
    - replace (d / 2 ^ 23) with 1; [reflexivity|].
      apply Z.div_unique with (r := d - 2 ^ 23); lia.
    - rewrite Z.div_small by lia. reflexivity. }
  destruct (Z.testbit d 23), (2 ^ 23 <=? d); cbn in H; congruence.
Qed.

Lemma lor_sign_24 d : 0 <= d < 2 ^ 24 -> Z.lor d (- 2 ^ 24) = d - 2 ^ 24.
Proof.
  intros Hd.
  rewrite <- (Z.lnot_involutive (Z.lor d (- 2 ^ 24))).
  rewrite Z.lnot_lor.
  change (Z.lnot (- 2 ^ 24)) with (Z.ones 24).
  rewrite Z.land_ones by lia.
  unfold Z.lnot at 2.
  replace (Z.pred (- d) mod 2 ^ 24) with (2 ^ 24 - 1 - d).
  - unfold Z.lnot. lia.
  - apply Z.mod_unique with (q := -1); lia.
Qed.

Lemma and_ones_24 x : x .& 0xFFFFFF = x mod 2 ^ 24.
Proof.
  unfold JS.and. change (JS.ToInt32 0xFFFFFF) with (Z.ones 24).
  rewrite Z.land_ones by lia.
  unfold JS.ToInt32.
  destruct (x mod 2 ^ 32 <? 2 ^ 31).
  - change (2 ^ 32) with (2 ^ 24 * 2 ^ 8).
    rewrite Z.rem_mul_r by lia. 
    rewrite Z.mul_comm, Z.mod_add by lia. apply Z.mod_mod. lia.
  - replace (x mod 2 ^ 32 - 2 ^ 32)
      with (x mod 2 ^ 32 + (- 2 ^ 8) * 2 ^ 24) by lia.
    rewrite Z.mod_add by lia.
    change (2 ^ 32) with (2 ^ 24 * 2 ^ 8).
    rewrite Z.rem_mul_r by lia.
    rewrite Z.mul_comm, Z.mod_add by lia. apply Z.mod_mod. lia.
Qed.

Lemma signExtend_24 d :
  0 <= d < 2 ^ 24 ->
  signExtend d 24 = if d <? 2 ^ 23 then d else d + 2 ^ 32 - 2 ^ 24.
Proof.
  intros Hd. unfold signExtend.
  change (32 <=? 24) with false. cbv iota zeta.
  change ((1 << 24) - 1) with 0xFFFFFF.
  change (24 - 1) with 23.
  rewrite and_ones_24, (Z.mod_small d) by lia.
  unfold JS.truthy. rewrite and_shl_1_nonzero, testbit_23 by lia.
  rewrite ushr_0.
  destruct (Z.leb_spec (2 ^ 23) d); destruct (Z.ltb_spec d (2 ^ 23)); try lia.
  - unfold JS.or. change (JS.ToInt32 (-1 << 24)) with (- 2 ^ 24).
    rewrite (ToInt32_small d), lor_sign_24 by lia.
    apply ToUint32_eq with (k := 1); lia.
  - apply ToUint32_small. lia.
Qed.

Lemma jump_offset d :
  0 <= d < 2 ^ 24 ->
  signExtend d 24 << 1 = 2 * (if d <? 2 ^ 23 then d else d - 2 ^ 24).
Proof.
  intros Hd. rewrite signExtend_24 by assumption.
  unfold JS.shl. change (JS.count 1) with 1.
  rewrite Z.shiftl_mul_pow2 by lia. change (2 ^ 1) with 2.
  destruct (Z.ltb_spec d (2 ^ 23)).
  - rewrite (ToInt32_small d) by lia. rewrite ToInt32_small by lia. lia.
  - rewrite (ToInt32_eq (d + 2 ^ 32 - 2 ^ 24) (d - 2 ^ 24) (-1)) by lia.
    rewrite ToInt32_small by lia. lia.
Qed.

Lemma disp24_range w : 0 <= (w >>> 1) .& 0xFFFFFF < 2 ^ 24.
Proof. rewrite and_ones_24. apply Z.mod_pos_bound. lia. Qed.

Lemma and_1 x : x .& 1 = JS.ToInt32 x mod 2.
Proof.
  unfold JS.and. change (JS.ToInt32 1) with (Z.ones 1).
  rewrite Z.land_ones by lia. reflexivity.
Qed.

Lemma and_1_cases x : x .& 1 = 0 \/ x .& 1 = 1.
Proof.
  rewrite and_1. pose proof (Z.mod_pos_bound (JS.ToInt32 x) 2). lia.
Qed.

(** ** Facts about register banks *)

Lemma length_bank_set (b : bank) i v : length (bank_set b i v) = length b.
Proof. unfold bank_set. destruct (0 <=? i); [apply length_insert | done]. Qed.

Lemma bank_get_set_eq (b : bank) i v :
  0 <= i < Z.of_nat (length b) ->
  bank_get (bank_set b i v) i = JS.ToUint32 v.
Proof.
  intros Hi. unfold bank_get, bank_set.
  destruct (Z.leb_spec 0 i); [|lia].
  apply list_lookup_total_insert_eq. lia.
Qed.

Lemma bank_get_set_ne (b : bank) i j v :
  0 <= i -> 0 <= j -> i <> j ->
  bank_get (bank_set b i v) j = bank_get b j.
Proof.
  intros Hi Hj Hne. unfold bank_get, bank_set.
  destruct (Z.leb_spec 0 i); [|lia].
  destruct (Z.leb_spec 0 j); [|lia].
  apply list_lookup_total_insert_ne. lia.
Qed.

Ltac bank_simpl :=
  repeat first
    [ rewrite length_bank_set
    | rewrite bank_get_set_eq by (rewrite ?length_bank_set; lia)
    | rewrite bank_get_set_ne by lia ].

(** Fields of updated states: on a state given by its fields the updates
    compute. *)
Ltac cpu_fields :=
  cbn [r cr sr CEL CEH pc flagN flagZ flagC flagV flagT cycles instructions
       halted miu initialized fault_count last_error breakpointManager
       set_r set_cr set_sr set_CEL set_CEH set_pc set_flagN set_flagZ
       set_flagC set_flagV set_flagT set_cycles set_instructions set_halted
       set_miu set_initialized set_fault_count set_last_error
       set_breakpointManager fst snd] in *.

Section Properties.

Context {M : Type} `{MI : MemoryInterface M}.

Implicit Types s : CPU M.

(** ** The register file *)

Lemma setRegister_0 value s : setRegister 0 value s = s.
Proof. reflexivity. Qed.

Lemma getRegister_setRegister idx value s :
  0 < idx < 32 -> length (r s) = 32%nat ->
  getRegister idx (setRegister idx value s) = value mod 2 ^ 32.
Proof.
  intros Hi Hl. destruct s. unfold getRegister, setRegister.
  destruct (Z.leb_spec 0 idx); [|lia].
  destruct (Z.ltb_spec 0 idx); [|lia].
  destruct (Z.ltb_spec idx 32); [|lia].
  cbn [andb]. cpu_fields. bank_simpl.
  rewrite !ushr_0, !ToUint32_idem. reflexivity.
Qed.

(** ** Flags *)

Lemma updateBasicFlags_N res s :
  flagN (updateBasicFlags res s) = Z.b2z (Z.testbit (res mod 2 ^ 32) 31).
Proof.
  destruct s. unfold updateBasicFlags. cpu_fields.
  rewrite ushr_and_1 by lia. reflexivity.
Qed.

Lemma updateBasicFlags_Z res s :
  flagZ (updateBasicFlags res s) = if res mod 2 ^ 32 =? 0 then 1 else 0.
Proof. destruct s. reflexivity. Qed.

Lemma sr0_image_fields n z c v t :
  flag_bit n -> flag_bit z -> flag_bit c -> flag_bit v -> flag_bit t ->
  (JS.ToUint32 (sr0_image n z c v t) >>> 31) .& 1 = n /\
  (JS.ToUint32 (sr0_image n z c v t) >>> 30) .& 1 = z /\
  (JS.ToUint32 (sr0_image n z c v t) >>> 29) .& 1 = c /\
  (JS.ToUint32 (sr0_image n z c v t) >>> 28) .& 1 = v /\
  (JS.ToUint32 (sr0_image n z c v t) >>> 0) .& 1 = t.
Proof.
  intros [-> | ->] [-> | ->] [-> | ->] [-> | ->] [-> | ->];
    vm_compute; repeat split; reflexivity.
Qed.

Lemma sr_packSR0 s :
  length (sr s) = 32%nat ->
  bank_get (sr (packSR0 s)) 0 =
  JS.ToUint32 (sr0_image (flagN s) (flagZ s) (flagC s) (flagV s) (flagT s)).
Proof.
  intros Hl. destruct s. unfold packSR0, sr0_image. cpu_fields. bank_simpl.
  reflexivity.
Qed.

(** [unpackSR0] reads the five flags off the word in [sr[0]]. *)
Lemma unpackSR0_flags s :
  let v := JS.ToUint32 (bank_get (sr s) 0) in
  flagN (unpackSR0 s) = (v >>> 31) .& 1 /\
  flagZ (unpackSR0 s) = (v >>> 30) .& 1 /\
  flagC (unpackSR0 s) = (v >>> 29) .& 1 /\
  flagV (unpackSR0 s) = (v >>> 28) .& 1 /\
  flagT (unpackSR0 s) = (v >>> 0) .& 1.
Proof.
  destruct s. unfold unpackSR0. cpu_fields. rewrite !ushr_0. repeat split.
Qed.

(** ** Exception entry and return *)

Lemma exception_flags cause s :
  flagN (exception cause s) = flagN s /\ flagZ (exception cause s) = flagZ s /\
  flagC (exception cause s) = flagC s /\ flagV (exception cause s) = flagV s /\
  flagT (exception cause s) = flagT s.
Proof. destruct s. unfold exception, packSR0. cpu_fields. repeat split. Qed.

Lemma exception_lengths cause s :
  length (r (exception cause s)) = length (r s) /\
  length (cr (exception cause s)) = length (cr s) /\
  length (sr (exception cause s)) = length (sr s).
Proof.
  destruct s. unfold exception, packSR0. cpu_fields. bank_simpl.
  repeat split.
Qed.

(** What exception entry saves, and where it jumps. *)
Lemma exception_saves cause s :
  length (cr s) = 32%nat -> length (sr s) = 32%nat ->
  bank_get (cr (exception cause s)) 1 =
    JS.ToUint32 (sr0_image (flagN s) (flagZ s) (flagC s) (flagV s) (flagT s)) /\
  bank_get (cr (exception cause s)) 5 = JS.ToUint32 (pc s) /\
  bank_get (cr (exception cause s)) 3 = bank_get (cr s) 3 /\
  (bank_get (cr (exception cause s)) 0) .& 1 = 0 /\
  pc (exception cause s) = (bank_get (cr s) 3 + cause * 4) mod 2 ^ 32.
Proof.
  intros Hcr Hsr. destruct s.
  unfold exception, packSR0, sr0_image. cpu_fields. bank_simpl.
  rewrite ToUint32_idem.
  repeat split.
  rewrite <- ushr_0, ushr_and_1 by lia.
  unfold JS.and. rewrite Z.land_spec.
  change (JS.ToInt32 (.~ 1)) with (-2). change (Z.testbit (-2) 0) with false.
  rewrite andb_false_r. reflexivity.
Qed.

Lemma rte_restores s :
  length (sr s) = 32%nat ->
  let v := JS.ToUint32 (bank_get (cr s) 1) in
  pc (rte s) = bank_get (cr s) 5 /\
  flagN (rte s) = (v >>> 31) .& 1 /\
  flagZ (rte s) = (v >>> 30) .& 1 /\
  flagC (rte s) = (v >>> 29) .& 1 /\
  flagV (rte s) = (v >>> 28) .& 1 /\
  flagT (rte s) = (v >>> 0) .& 1.
Proof.
  intros Hsr. destruct s. unfold rte, unpackSR0. cpu_fields. bank_simpl.
  rewrite !ushr_0, !ToUint32_idem. repeat split.
Qed.

(** ** C4: exception entry followed by [rte] *)

(** C4.  For every well-formed CPU state, that is for every [pc] and each of
    the 32 combinations of the flags N, Z, C, V, T, [exception(5)] followed
    by [rte()] restores [pc] and the five flags to their values before the
    exception; and [packSR0()] followed by [unpackSR0()] reproduces the five
    flags exactly. *)
Theorem exception_rte_round_trip s :
  well_formed s ->
  (pc (rte (exception 5 s)) = pc s /\
   flagN (rte (exception 5 s)) = flagN s /\
   flagZ (rte (exception 5 s)) = flagZ s /\
   flagC (rte (exception 5 s)) = flagC s /\
   flagV (rte (exception 5 s)) = flagV s /\
   flagT (rte (exception 5 s)) = flagT s) /\
  (flagN (unpackSR0 (packSR0 s)) = flagN s /\
   flagZ (unpackSR0 (packSR0 s)) = flagZ s /\
   flagC (unpackSR0 (packSR0 s)) = flagC s /\
   flagV (unpackSR0 (packSR0 s)) = flagV s /\
   flagT (unpackSR0 (packSR0 s)) = flagT s).
Proof.
  intros (Hr & Hcr & Hsr & Hpc & HN & HZ & HC & HV & HT).
  destruct (sr0_image_fields _ _ _ _ _ HN HZ HC HV HT)
    as (WN & WZ & WC & WV & WT).
  split.
  - destruct (exception_lengths 5 s) as (_ & _ & Hsr').
    destruct (exception_saves 5 s Hcr Hsr) as (H1 & H5 & _).
    destruct (rte_restores (exception 5 s)) as (Rpc & RN & RZ & RC & RV & RT);
      [congruence|].
    rewrite H1, ToUint32_idem in RN, RZ, RC, RV, RT.
    rewrite Rpc, H5, RN, RZ, RC, RV, RT, WN, WZ, WC, WV, WT.
    rewrite ToUint32_small by lia. repeat split.
  - destruct (unpackSR0_flags (packSR0 s)) as (UN & UZ & UC & UV & UT).
    rewrite sr_packSR0, ToUint32_idem in UN, UZ, UC, UV, UT by assumption.
    rewrite UN, UZ, UC, UV, UT. repeat split; assumption.
Qed.

(** ** C5: carry, sign and zero of [add] and [sub] *)

(** C5.  For 32-bit unsigned [a] and [b], [sub(a, b, true)] returns
    [(a - b) mod 2^32] and sets C = 1 iff [a >= b]; [add(a, b, true)] returns
    [(a + b) mod 2^32] and sets C = 1 iff [b > 0xFFFFFFFF - a]; both set N to
    bit 31 of the result and Z = 1 iff the result is 0. *)
Theorem add_sub_results_and_flags (a b : Z) s :
  0 <= a < 2 ^ 32 -> 0 <= b < 2 ^ 32 ->
  (fst (sub a b true s) = (a - b) mod 2 ^ 32 /\
   (flagC (snd (sub a b true s)) = 1 <-> a >= b) /\
   flagN (snd (sub a b true s)) =
     Z.b2z (Z.testbit (fst (sub a b true s)) 31) /\
   (flagZ (snd (sub a b true s)) = 1 <-> fst (sub a b true s) = 0)) /\
  (fst (add a b true s) = (a + b) mod 2 ^ 32 /\
   (flagC (snd (add a b true s)) = 1 <-> b > 0xFFFFFFFF - a) /\
   flagN (snd (add a b true s)) =
     Z.b2z (Z.testbit (fst (add a b true s)) 31) /\
   (flagZ (snd (add a b true s)) = 1 <-> fst (add a b true s) = 0)).
Proof.
  intros Ha Hb. destruct s.
  unfold sub, add, updateBasicFlags. cbv zeta.
  rewrite !ushr_0, !(ToUint32_small a), !(ToUint32_small b) by lia.
  cpu_fields.
  rewrite ?ushr_0, ?ToUint32_idem, !ushr_and_1 by lia.
  unfold JS.ToUint32.
  repeat split; try reflexivity.
  all: repeat match goal with
         | |- context [if ?c then _ else _] => destruct c eqn:?
         end; try lia; try discriminate.
Qed.

(** The flags that [add] and [sub] set are 0 or 1. *)
Lemma add_sub_carry_values (a b : Z) s :
  flag_bit (flagC (snd (sub a b true s))) /\
  flag_bit (flagC (snd (add a b true s))).
Proof.
  destruct s. unfold sub, add, updateBasicFlags, flag_bit. cbv zeta.
  cpu_fields.
  split; match goal with |- context [if ?c then _ else _] => destruct c end;
    auto.
Qed.

(** ** C8: division by zero *)

(** C8.  For every [a], [execDiv(a, 0)] and [execDivu(a, 0)] return the CPU
    state they were given: CEL and CEH keep their values, no exception entry
    happens, and registers, flags and [pc] are untouched. *)
Theorem division_by_zero_is_a_no_op (a : Z) s :
  execDiv a 0 s = s /\ execDivu a 0 s = s.
Proof. split; reflexivity. Qed.

(** A non-zero divisor does write the pair: the quotient to CEL and the
    remainder to CEH. *)
Lemma execDiv_nonzero (a b : Z) s :
  JS.ToInt32 b <> 0 ->
  CEL (execDiv a b s) = (Z.quot (JS.ToInt32 a) (JS.ToInt32 b)) mod 2 ^ 32 /\
  CEH (execDiv a b s) = (Z.rem (JS.ToInt32 a) (JS.ToInt32 b)) mod 2 ^ 32.
Proof.
  intros Hb. destruct s. unfold execDiv. cbv zeta.
  change (b .| 0) with (Z.lor (JS.ToInt32 b) 0).
  change (a .| 0) with (Z.lor (JS.ToInt32 a) 0).
  rewrite !Z.lor_0_r.
  destruct (Z.eqb_spec (JS.ToInt32 b) 0); [contradiction|].
  cbn [negb]. cpu_fields. rewrite !ushr_0. split; reflexivity.
Qed.

(** ** [step]: from the guards to the executor *)

Lemma set_breakpointManager_same s bm :
  breakpointManager s = Some bm -> set_breakpointManager (Some bm) s = s.
Proof. destruct s. cbn. intros ->. reflexivity. Qed.

Lemma checkBreakpoint_false addr bm :
  fst (checkBreakpoint addr bm) = false -> checkBreakpoint addr bm = (false, bm).
Proof.
  unfold checkBreakpoint. cbv zeta.
  destruct (breakpoints bm !! (addr >>> 0)) as [bp|]; [|reflexivity].
  destruct (enabled bp); cbn; [discriminate | reflexivity].
Qed.

Lemma breakpoint_pause_none s :
  match breakpointManager s with
  | Some bm => fst (checkBreakpoint (pc s) bm) = false
  | None => True
  end ->
  breakpoint_pause s = (Normal false, s).
Proof.
  unfold breakpoint_pause.
  destruct (breakpointManager s) as [bm|] eqn:Hbm; [|reflexivity].
  intros Hno. rewrite (checkBreakpoint_false _ _ Hno).
  rewrite set_breakpointManager_same by assumption. reflexivity.
Qed.

(** Once the guards are passed, [step] is the fetch, the executor and the
    bookkeeping; a throw anywhere in them is caught. *)
Lemma step_at_fetch s m :
  reaches_fetch s m ->
  step s =
  match readU32 m (pc s) with
  | (Normal w, m') =>
      match decode_execute w (set_miu (Some m') (set_fault_count 0 s)) with
      | (Normal result, s1) => (true, complete result s1)
      | (Throw message, s1) =>
          (false,
           set_fault_count (fault_count s1 + 1)
             (set_last_error (Some message) s1))
      end
  | (Throw message, m') =>
      (false,
       set_fault_count 1
         (set_last_error (Some message)
            (set_miu (Some m') (set_fault_count 0 s))))
  end.
Proof.
  intros (Hinit & Hhalt & Hmiu & Hsize & Hbp).
  unfold step. rewrite Hinit, Hhalt, Hmiu. cbn [negb].
  set (s0 := set_fault_count 0 s).
  assert (Hs0 : miu s0 = Some m /\ pc s0 = pc s /\
                breakpointManager s0 = breakpointManager s).
  { unfold s0. destruct s. cpu_fields. auto. }
  destruct Hs0 as (Hmiu0 & Hpc0 & Hbm0).
  assert (Hrange : pc_out_of_range s0 = (Normal false, s0)).
  { unfold pc_out_of_range. rewrite Hmiu0, Hpc0.
    destruct (miu_size m) as [n|]; [|reflexivity].
    destruct (Z.gtb_spec (pc s) n); [lia | reflexivity]. }
  assert (Hpause : breakpoint_pause s0 = (Normal false, s0)).
  { apply breakpoint_pause_none. rewrite Hbm0, Hpc0. exact Hbp. }
  unfold step_try, bind at 1. rewrite Hrange.
  unfold bind at 1. rewrite Hpause.
  unfold bind at 1, gets at 1.
  unfold bind at 1, miu_readU32, miu_call.
  rewrite Hmiu0, Hpc0.
  destruct (readU32 m (pc s)) as [[w|message] m'];
    [|subst s0; destruct s; reflexivity].
  unfold bind at 1.
  destruct (decode_execute w (set_miu (Some m') s0)) as [[result|message] s1];
    [reflexivity | destruct s1; reflexivity].
Qed.

(** ** C9: the unassigned opcode 0x06 *)

(** C9.  When [step] on an initialised, running CPU fetches a word whose top
    five bits are 0x06, it returns [true] and leaves the state it started
    from with [pc] advanced by 4 (as a 32-bit number), [cycles] and
    [instructions] one higher and the fault counter at 0; no register bank,
    flag or CE register changes, and the memory interface is as the fetch
    left it, no further access being made. *)
Theorem unassigned_opcode_is_a_no_op s m w m' :
  fetches s m w m' ->
  (w >>> 27) .& 0x1F = 0x06 ->
  step s =
  (true,
   {| r := r s; cr := cr s; sr := sr s; CEL := CEL s; CEH := CEH s;
      pc := (pc s + 4) mod 2 ^ 32;
      flagN := flagN s; flagZ := flagZ s; flagC := flagC s;
      flagV := flagV s; flagT := flagT s;
      cycles := cycles s + 1; instructions := instructions s + 1;
      halted := halted s; miu := Some m'; initialized := initialized s;
      fault_count := 0; last_error := last_error s;
      breakpointManager := breakpointManager s |}).
Proof.
  intros [Hreach Hread] Hop.
  rewrite (step_at_fetch _ _ Hreach), Hread.
  unfold decode_execute. cbv zeta. rewrite Hop. destruct s. reflexivity.
Qed.

(** ** C6: the J-Form jump *)

Lemma execJForm_run insn s :
  execJForm insn s =
  (Normal 0,
   set_pc ((pc s + (signExtend ((insn >>> 1) .& 0xFFFFFF) 24 << 1)) >>> 0)
     (if JS.truthy (insn .& 1) then setRegister 3 ((pc s + 4) >>> 0) s
      else s)).
Proof.
  unfold execJForm. cbv zeta.
  unfold bind at 1, gets at 1.
  destruct (JS.truthy (insn .& 1)); reflexivity.
Qed.

(** C6, as amended.  A J-Form instruction sets [pc] to
    [(pc + (signExtend(disp24, 24) << 1)) mod 2^32]; with the link bit set it
    stores [(pc + 4) mod 2^32] into register 3, and otherwise leaves the
    registers alone.  A displacement with bit 23 set moves [pc] by
    [- 2 * (2^24 - disp24)] modulo 2^32: the target is below [pc] when [pc]
    is at least that distance, and wraps to an address above [pc] when it is
    not.  With [disp24 = 0xFFFFFF] at [pc = 0x9E000010], [step] leaves
    [pc = 0x9E00000E]. *)
Theorem jform_jump_target s m w m' :
  fetches s m w m' ->
  (w >>> 27) .& 0x1F = 0x02 ->
  length (r s) = 32%nat ->
  0 <= pc s < 2 ^ 32 ->
  let disp24 := (w >>> 1) .& 0xFFFFFF in
  fst (step s) = true /\
  pc (snd (step s)) = (pc s + (signExtend disp24 24 << 1)) mod 2 ^ 32 /\
  (w .& 1 = 1 -> getRegister 3 (snd (step s)) = (pc s + 4) mod 2 ^ 32) /\
  (w .& 1 = 0 -> r (snd (step s)) = r s) /\
  (Z.testbit disp24 23 = true ->
   pc (snd (step s)) = (pc s - 2 * (2 ^ 24 - disp24)) mod 2 ^ 32 /\
   (2 * (2 ^ 24 - disp24) <= pc s -> pc (snd (step s)) < pc s) /\
   (pc s < 2 * (2 ^ 24 - disp24) -> pc s < pc (snd (step s)))) /\
  (disp24 = 0xFFFFFF -> pc s = 0x9E000010 -> pc (snd (step s)) = 0x9E00000E).
Proof.
  intros [Hreach Hread] Hop Hlen Hpc disp24.
  assert (Hdec : decode_execute w = execJForm w).
  { unfold decode_execute. cbv zeta. rewrite Hop. reflexivity. }
  rewrite (step_at_fetch _ _ Hreach), Hread, Hdec, execJForm_run.
  fold disp24. clear Hreach Hread Hdec.
  pose proof (disp24_range w) as Hd. fold disp24 in Hd.
  pose proof (jump_offset disp24 Hd) as Hoff.
  destruct (and_1_cases w) as [HLK | HLK]; rewrite HLK;
    [change (JS.truthy 0) with false | change (JS.truthy 1) with true];
    cbv iota; destruct s; unfold complete, setRegister; cbv zeta;
    change (negb (0 =? 0)) with false;
    change ((0 <? 3) && (3 <? 32)) with true; cbv iota; cpu_fields;
    rewrite ushr_0.
  all: split; [reflexivity|]; split; [reflexivity|].
  all: split; [|split; [|split]].
  all: try (intros HLK'; discriminate HLK').
  - intros _. reflexivity.
  - intros Hbit. rewrite testbit_23 in Hbit by assumption.
    apply Z.leb_le in Hbit.
    rewrite Hoff. destruct (Z.ltb_spec disp24 (2 ^ 23)); [lia|].
    replace (pc0 + 2 * (disp24 - 2 ^ 24))
      with (pc0 - 2 * (2 ^ 24 - disp24)) by lia.
    unfold JS.ToUint32.
    split; [reflexivity|]. split; intros Hcmp.
    + rewrite Z.mod_small by lia. lia.
    + rewrite <- (Z.mod_add _ 1) by lia. rewrite Z.mod_small by lia. lia.
  - intros Hdisp Hat. rewrite Hdisp, Hat. reflexivity.
  - intros _. unfold getRegister.
    change ((0 <=? 3) && (3 <? 32)) with true. cbv iota. cpu_fields.
    bank_simpl. rewrite !ushr_0, !ToUint32_idem. reflexivity.
  - intros Hbit. rewrite testbit_23 in Hbit by assumption.
    apply Z.leb_le in Hbit.
    rewrite Hoff. destruct (Z.ltb_spec disp24 (2 ^ 23)); [lia|].
    replace (pc0 + 2 * (disp24 - 2 ^ 24))
      with (pc0 - 2 * (2 ^ 24 - disp24)) by lia.
    unfold JS.ToUint32.
    split; [reflexivity|]. split; intros Hcmp.
    + rewrite Z.mod_small by lia. lia.
    + rewrite <- (Z.mod_add _ 1) by lia. rewrite Z.mod_small by lia. lia.
  - intros Hdisp Hat. rewrite Hdisp, Hat. reflexivity.
Qed.

(** ** C3: the breaker on a detached memory interface *)

Lemma steps_app n k s : steps (n + k) s = steps k (steps n s).
Proof. revert s. induction n as [|n IH]; intros s; [reflexivity | apply IH]. Qed.

Lemma step_halted s : halted s = true -> step s = (false, s).
Proof. intros H. unfold step. rewrite H. destruct (initialized s); reflexivity. Qed.

Lemma steps_halted n s : halted s = true -> steps n s = s.
Proof.
  intros H. induction n as [|n IH]; [reflexivity|].
  cbn [steps]. rewrite (step_halted s H). exact IH.
Qed.

(** One call with no interface attached: it fails, counts the fault, and
    halts once the count exceeds 100. *)
Lemma step_detached s :
  initialized s = true -> halted s = false -> miu s = None ->
  fst (step s) = false /\
  initialized (snd (step s)) = true /\
  halted (snd (step s)) = (fault_count s + 1 >? 100) /\
  miu (snd (step s)) = None /\
  fault_count (snd (step s)) = fault_count s + 1 /\
  instructions (snd (step s)) = instructions s.
Proof.
  intros Hinit Hhalt Hmiu. unfold step. rewrite Hinit, Hhalt, Hmiu.
  cbn [negb]. cbv zeta. destruct s. cpu_fields.
  destruct (fault_count0 + 1 >? 100); cpu_fields; repeat split; assumption.
Qed.

Lemma detached_run n : forall s,
  initialized s = true -> halted s = false -> miu s = None ->
  fault_count s + Z.of_nat n <= 100 ->
  initialized (steps n s) = true /\ halted (steps n s) = false /\
  miu (steps n s) = None /\
  fault_count (steps n s) = fault_count s + Z.of_nat n /\
  instructions (steps n s) = instructions s.
Proof.
  induction n as [|n IH]; intros s Hinit Hhalt Hmiu Hle.
  - cbn [steps]. repeat split; try assumption. lia.
  - destruct (step_detached s Hinit Hhalt Hmiu)
      as (_ & Hi & Hh & Hm & Hf & Hn).
    cbn [steps].
    destruct (IH (snd (step s))) as (Ii & Ih & Im & If & In); try assumption.
    + rewrite Hh. destruct (Z.gtb_spec (fault_count s + 1) 100); [lia|done].
    + lia.
    + repeat split; try assumption; [lia | congruence].
Qed.

(** The breaker of [step] as part_002 defines it.  From an initialised,
    running CPU with [fault_count = 0] whose memory interface is detached,
    101 consecutive calls leave [halted = true], and not fewer; every call,
    so the 101st and each later one (the call made after [n >= 100] calls),
    returns [false] and leaves [instructions] at its initial value. *)
Lemma fault_breaker s :
  initialized s = true -> halted s = false -> miu s = None ->
  fault_count s = 0 ->
  halted (steps 101 s) = true /\
  (forall n, (n <= 100)%nat -> halted (steps n s) = false) /\
  (forall n, fst (step (steps n s)) = false /\
             instructions (snd (step (steps n s))) = instructions s).
Proof.
  intros Hinit Hhalt Hmiu Hcount.
  assert (H100 : forall n, (n <= 100)%nat ->
            initialized (steps n s) = true /\ halted (steps n s) = false /\
            miu (steps n s) = None /\
            fault_count (steps n s) = Z.of_nat n /\
            instructions (steps n s) = instructions s).
  { intros n Hn.
    destruct (detached_run n s) as (Hi & Hh & Hm & Hf & Hins);
      try assumption; [lia|].
    repeat split; try assumption. lia. }
  assert (H101 : steps 101 s = snd (step (steps 100 s))).
  { change 101%nat with (100 + 1)%nat. rewrite steps_app.
    generalize (steps 100 s). reflexivity. }
  destruct (H100 100%nat) as (Hi & Hh & Hm & Hf & Hins); [lia|].
  destruct (step_detached _ Hi Hh Hm) as (Sf & Si & Sh & Sm & Sc & Sn).
  assert (Hhalted : halted (steps 101 s) = true).
  { rewrite H101, Sh, Hf. reflexivity. }
  split; [exact Hhalted|].
  split; [intros n Hn; apply (H100 n Hn)|].
  intros n. destruct (Nat.le_gt_cases n 100) as [Hn|Hn].
  - destruct (H100 n Hn) as (Ni & Nh & Nm & Nf & Nins).
    destruct (step_detached _ Ni Nh Nm) as (Tf & _ & _ & _ & _ & Tn).
    split; [exact Tf | congruence].
  - replace n with (101 + (n - 101))%nat by lia.
    rewrite steps_app, (steps_halted _ _ Hhalted), (step_halted _ Hhalted).
    split; [reflexivity|]. cbn [snd]. rewrite H101. congruence.
Qed.

(** Under the override of integration.js the breaker of the original is out
    of reach: with no interface attached, [n] calls leave [fault_count = n]
    and never halt.  With an interface attached the override runs the
    original, which resets the counter itself. *)
Lemma integrated_steps_never_halt n : forall s,
  halted s = false -> miu s = None ->
  halted (steps_integrated n s) = false /\
  fault_count (steps_integrated n s) = fault_count s + Z.of_nat n.
Proof.
  induction n as [|n IH]; intros s Hhalt Hmiu.
  - cbn [steps_integrated]. split; [assumption | lia].
  - assert (Hstep : step_integrated s =
                      (false, set_fault_count (fault_count s + 1) s)).
    { unfold step_integrated. rewrite Hhalt, Hmiu. reflexivity. }
    cbn [steps_integrated]. rewrite Hstep. cbn [snd].
    destruct (IH (set_fault_count (fault_count s + 1) s)) as (Ih & If).
    + destruct s. exact Hhalt.
    + destruct s. exact Hmiu.
    + split; [exact Ih|]. rewrite If. destruct s. cpu_fields. lia.
Qed.

Lemma integrated_detached_run n : forall s,
  halted s = false -> miu s = None ->
  miu (steps_integrated n s) = None /\
  instructions (steps_integrated n s) = instructions s.
Proof.
  induction n as [|n IH]; intros s Hhalt Hmiu.
  - cbn [steps_integrated]. split; [assumption | reflexivity].
  - assert (Hstep : step_integrated s =
                      (false, set_fault_count (fault_count s + 1) s)).
    { unfold step_integrated. rewrite Hhalt, Hmiu. reflexivity. }
    cbn [steps_integrated]. rewrite Hstep. cbn [snd].
    destruct (IH (set_fault_count (fault_count s + 1) s)) as (Im & Ii).
    + destruct s. exact Hhalt.
    + destruct s. exact Hmiu.
    + split; [exact Im|]. rewrite Ii. destruct s. reflexivity.
Qed.

(** C3.  The breaker is in [step] as part_002 defines it and is out of reach
    in the program: the override of integration.js replaces
    [CPU.prototype.step], and its own guard for a missing interface returns
    before the original is called.  From an initialised, running CPU with
    [fault_count = 0] and no memory interface, 101 calls of the original
    leave [halted = true]; through the override no number of calls does.
    Each call returns [false] and leaves [instructions] alone, as the claim
    says, and counts one more fault, but [halted] stays [false] after the
    101st call and after every later one. *)
Theorem integration_override_disables_the_breaker s :
  initialized s = true -> halted s = false -> miu s = None ->
  fault_count s = 0 ->
  halted (steps 101 s) = true /\
  forall n,
    halted (steps_integrated n s) = false /\
    fault_count (steps_integrated n s) = Z.of_nat n /\
    fst (step_integrated (steps_integrated n s)) = false /\
    instructions (snd (step_integrated (steps_integrated n s))) =
      instructions s.
Proof.
  intros Hinit Hhalt Hmiu Hcount.
  split; [apply (fault_breaker s Hinit Hhalt Hmiu Hcount)|].
  intros n.
  destruct (integrated_steps_never_halt n s Hhalt Hmiu) as (Nh & Nf).
  destruct (integrated_detached_run n s Hhalt Hmiu) as (Nm & Ni).
  split; [exact Nh|]. split; [lia|].
  unfold step_integrated. rewrite Nh, Nm. cbn [fst snd].
  split; [reflexivity|].
  rewrite <- Ni. destruct (steps_integrated n s). reflexivity.
Qed.

Lemma step_integrated_attached s m :
  initialized s = true -> halted s = false -> miu s = Some m ->
  step_integrated s = step s.
Proof.
  intros Hinit Hhalt Hmiu. unfold step_integrated, step.
  rewrite Hhalt, Hmiu. destruct s. cpu_fields. subst. reflexivity.
Qed.

(** ** C2: faults caught by [step] *)

(** A throw caught by [step] leaves [fault_count = 1] whatever the counter
    held before, and does not halt: the counter is zeroed before the [try]
    block and the [catch] block never sets [halted]. *)
Lemma step_fetch_throws s m message m' :
  reaches_fetch s m ->
  readU32 m (pc s) = (Throw message, m') ->
  fst (step s) = false /\
  fault_count (snd (step s)) = 1 /\
  halted (snd (step s)) = false /\
  pc (snd (step s)) = pc s /\
  breakpointManager (snd (step s)) = breakpointManager s /\
  miu (snd (step s)) = Some m'.
Proof.
  intros Hreach Hread. rewrite (step_at_fetch _ _ Hreach), Hread.
  destruct Hreach as (_ & Hhalt & _). destruct s. cpu_fields.
  repeat split. exact Hhalt.
Qed.

End Properties.

(** * The representation invariant

    Every method of the CPU preserves [invariant], so every state reached
    from the constructor is [well_formed].  The proofs follow the code:
    one lemma per ALU operation, one per executor, then [step]. *)

Section Invariant.
Context {M : Type} `{MI : MemoryInterface M}.
Implicit Types s : CPU M.

Lemma u32_ToUint32 x : u32 (JS.ToUint32 x).
Proof. apply ToUint32_range. Qed.

Lemma u32_ushr_0 x : u32 (x >>> 0).
Proof. apply ToUint32_range. Qed.

Lemma flag_bit_and_1 x : flag_bit (x .& 1).
Proof. apply and_1_cases. Qed.

Lemma flag_bit_ite (c : bool) : flag_bit (if c then 1 else 0).
Proof. destruct c; [right | left]; reflexivity. Qed.

Lemma flag_bit_ite' (c : bool) : flag_bit (if c then 0 else 1).
Proof. destruct c; [left | right]; reflexivity. Qed.

Lemma bank_ok_set b i v : bank_ok b -> bank_ok (bank_set b i v).
Proof.
  intros [Hl Hf]. split; [rewrite length_bank_set; exact Hl|].
  unfold bank_set. destruct (0 <=? i); [|exact Hf].
  apply Forall_insert; [exact Hf | apply u32_ToUint32].
Qed.

Lemma bank_get_u32 b i : bank_ok b -> u32 (bank_get b i).
Proof.
  intros [Hl Hf]. unfold bank_get.
  destruct (0 <=? i); cbv iota; [|unfold u32; lia].
  destruct (decide (Z.to_nat i < length b)%nat) as [Hi|Hi].
  - apply Forall_lookup_total_1; assumption.
  - rewrite list_lookup_total_alt, lookup_ge_None_2 by lia.
    unfold u32. cbn. lia.
Qed.

Lemma bank_ok_new : bank_ok new_bank.
Proof.
  split; [reflexivity|]. apply Forall_replicate. unfold u32. lia.
Qed.

Create HintDb inv.
#[local] Hint Resolve u32_ToUint32 u32_ushr_0 flag_bit_and_1 flag_bit_ite flag_bit_ite'
  bank_ok_set bank_get_u32 bank_ok_new : inv.

(** Pure state updates: on a state given by its fields. *)
Ltac inv_fields :=
  unfold invariant in *; cpu_fields;
  repeat match goal with H : _ /\ _ |- _ => destruct H end;
  repeat match goal with |- _ /\ _ => split end;
  auto with inv.

Lemma setRegister_inv idx v s : invariant s -> invariant (setRegister idx v s).
Proof.
  intros H. unfold setRegister.
  destruct ((0 <? idx) && (idx <? 32)); [|exact H].
  destruct s. inv_fields.
Qed.

Lemma updateBasicFlags_inv res s :
  invariant s -> invariant (updateBasicFlags res s).
Proof. intros H. destruct s. unfold updateBasicFlags. inv_fields. Qed.

Lemma packSR0_inv s : invariant s -> invariant (packSR0 s).
Proof. intros H. destruct s. unfold packSR0. inv_fields. Qed.

Lemma unpackSR0_inv s : invariant s -> invariant (unpackSR0 s).
Proof. intros H. destruct s. unfold unpackSR0. inv_fields. Qed.

Lemma exception_inv cause s : invariant s -> invariant (exception cause s).
Proof. intros H. destruct s. unfold exception, packSR0. inv_fields. Qed.

Lemma rte_inv s : invariant s -> invariant (rte s).
Proof. intros H. destruct s. unfold rte, unpackSR0. inv_fields. Qed.


Tactic Notation "alu_inv" reference(f) :=
  let s := fresh "s" in
  intros ? s ?; destruct s; unfold f, updateBasicFlags; cbv zeta;
  repeat match goal with
    | |- context [if ?c then (_, _) else (_, _)] => destruct c
    | |- context [(_, if ?c then _ else _)] => destruct c
    end;
  inv_fields.

Lemma add_inv a b uf s : invariant s -> invariant (snd (add a b uf s)).
Proof. revert uf s. alu_inv add. Qed.
Lemma addc_inv a b uf s : invariant s -> invariant (snd (addc a b uf s)).
Proof. revert uf s. alu_inv addc. Qed.
Lemma sub_inv a b uf s : invariant s -> invariant (snd (sub a b uf s)).
Proof. revert uf s. alu_inv sub. Qed.
Lemma subc_inv a b uf s : invariant s -> invariant (snd (subc a b uf s)).
Proof. revert uf s. alu_inv subc. Qed.
Lemma neg_inv a uf s : invariant s -> invariant (snd (neg a uf s)).
Proof. revert uf s. alu_inv neg. Qed.
Lemma bitOp_inv a b ty uf s : invariant s -> invariant (snd (bitOp a b ty uf s)).
Proof. revert uf s. alu_inv bitOp. Qed.
Lemma sll_inv a b uf s : invariant s -> invariant (snd (sll a b uf s)).
Proof. revert uf s. alu_inv sll. Qed.
Lemma srl_inv a b uf s : invariant s -> invariant (snd (srl a b uf s)).
Proof. revert uf s. alu_inv srl. Qed.
Lemma sra_inv a b uf s : invariant s -> invariant (snd (sra a b uf s)).
Proof. revert uf s. alu_inv sra. Qed.
Lemma ror_inv a b uf s : invariant s -> invariant (snd (ror a b uf s)).
Proof. revert uf s. alu_inv ror. Qed.
Lemma rol_inv a b uf s : invariant s -> invariant (snd (rol a b uf s)).
Proof. revert uf s. alu_inv rol. Qed.
Lemma rorc_inv a uf s : invariant s -> invariant (snd (rorc a uf s)).
Proof. revert uf s. alu_inv rorc. Qed.
Lemma rolc_inv a uf s : invariant s -> invariant (snd (rolc a uf s)).
Proof. revert uf s. alu_inv rolc. Qed.
Lemma extsb_inv a uf s : invariant s -> invariant (snd (extsb a uf s)).
Proof. revert uf s. alu_inv extsb. Qed.
Lemma extsh_inv a uf s : invariant s -> invariant (snd (extsh a uf s)).
Proof. revert uf s. alu_inv extsh. Qed.
Lemma extzb_inv a uf s : invariant s -> invariant (snd (extzb a uf s)).
Proof. revert uf s. alu_inv extzb. Qed.
Lemma extzh_inv a uf s : invariant s -> invariant (snd (extzh a uf s)).
Proof. revert uf s. alu_inv extzh. Qed.
Lemma bitclr_inv a b uf s : invariant s -> invariant (snd (bitclr a b uf s)).
Proof. revert uf s. alu_inv bitclr. Qed.
Lemma bitset_inv a b uf s : invariant s -> invariant (snd (bitset a b uf s)).
Proof. revert uf s. alu_inv bitset. Qed.
Lemma bittgl_inv a b uf s : invariant s -> invariant (snd (bittgl a b uf s)).
Proof. revert uf s. alu_inv bittgl. Qed.


Lemma bittst_inv a b s : invariant s -> invariant (bittst a b s).
Proof. intros H. destruct s. unfold bittst. inv_fields. Qed.

Lemma execMul_inv a b s : invariant s -> invariant (execMul a b s).
Proof. intros H. destruct s. unfold execMul. inv_fields. Qed.
Lemma execMulu_inv a b s : invariant s -> invariant (execMulu a b s).
Proof. intros H. destruct s. unfold execMulu. inv_fields. Qed.
Lemma execDiv_inv a b s : invariant s -> invariant (execDiv a b s).
Proof.
  intros H. destruct s. unfold execDiv. cbv zeta.
  destruct (negb _); inv_fields.
Qed.
Lemma execDivu_inv a b s : invariant s -> invariant (execDivu a b s).
Proof.
  intros H. destruct s. unfold execDivu. cbv zeta.
  destruct (negb _); inv_fields.
Qed.

Lemma moveFromCE_inv rD rB s : invariant s -> invariant (moveFromCE rD rB s).
Proof.
  intros H. unfold moveFromCE. cbv zeta.
  destruct (rB .& 3) as [|[[]|[]|]|]; try exact H;
    try destruct (rD <? 31); repeat apply setRegister_inv; exact H.
Qed.

Lemma moveToCE_inv rD rB s : invariant s -> invariant (moveToCE rD rB s).
Proof.
  intros H. unfold moveToCE. cbv zeta.
  destruct (rB .& 3) as [|[[]|[]|]|]; try exact H;
    try destruct (rD <? 31); destruct s; inv_fields.
Qed.

(** ** The monad and the executors *)

Lemma keeps_ret {A} (a : A) : keeps (M:=M) (ret a).
Proof. intros s H. exact H. Qed.

Lemma keeps_gets {A} (f : CPU M -> A) : keeps (M:=M) (gets f).
Proof. intros s H. exact H. Qed.

Lemma keeps_modify (f : CPU M -> CPU M) :
  (forall s, invariant s -> invariant (f s)) -> keeps (M:=M) (modify f).
Proof. intros Hf s H. apply Hf, H. Qed.

Lemma keeps_alu {A} (f : CPU M -> A * CPU M) :
  (forall s, invariant s -> invariant (snd (f s))) -> keeps (M:=M) (alu f).
Proof.
  intros Hf s H. unfold alu. specialize (Hf s H).
  destruct (f s) as [a s']. exact Hf.
Qed.

Lemma keeps_bind {A B} (m : Exec (M:=M) A) (k : A -> Exec (M:=M) B) :
  keeps m -> (forall a, keeps (k a)) -> keeps (bind m k).
Proof.
  intros Hm Hk s H. unfold bind. specialize (Hm s H).
  destruct (m s) as [[a|e] s']; [apply Hk, Hm | exact Hm].
Qed.

Lemma set_miu_inv v s : invariant s -> invariant (set_miu v s).
Proof. intros H. destruct s. inv_fields. Qed.

Lemma keeps_miu_call {A} (f : M -> completion A * M) :
  keeps (miu_call f).
Proof.
  intros s H. unfold miu_call. destruct (miu s) as [m|]; [|exact H].
  destruct (f m) as [c m']. apply set_miu_inv, H.
Qed.

Lemma keeps_miu_readU8 a : keeps (M:=M) (miu_readU8 a).
Proof. apply keeps_miu_call. Qed.
Lemma keeps_miu_readU16 a : keeps (M:=M) (miu_readU16 a).
Proof. apply keeps_miu_call. Qed.
Lemma keeps_miu_readU32 a : keeps (M:=M) (miu_readU32 a).
Proof. apply keeps_miu_call. Qed.
Lemma keeps_miu_writeU8 a v : keeps (M:=M) (miu_writeU8 a v).
Proof. apply keeps_miu_call. Qed.
Lemma keeps_miu_writeU16 a v : keeps (M:=M) (miu_writeU16 a v).
Proof. apply keeps_miu_call. Qed.
Lemma keeps_miu_writeU32 a v : keeps (M:=M) (miu_writeU32 a v).
Proof. apply keeps_miu_call. Qed.

Lemma keeps_if_miu (k : Exec (M:=M) unit) :
  keeps k -> keeps (if_miu k).
Proof.
  intros Hk s H. unfold if_miu. destruct (miu s); [apply Hk, H | exact H].
Qed.

Lemma set_pc_inv v s : u32 v -> invariant s -> invariant (set_pc v s).
Proof. intros Hv H. destruct s. inv_fields. Qed.

Lemma set_pc_R_inv i s : invariant s -> invariant (set_pc (bank_get (r s) i) s).
Proof. intros H. destruct s. inv_fields. Qed.

Lemma set_r_inv i v s :
  invariant s -> invariant (set_r (bank_set (r s) i v) s).
Proof. intros H. destruct s. inv_fields. Qed.

Lemma set_sr_inv i v s :
  invariant s -> invariant (set_sr (bank_set (sr s) i v) s).
Proof. intros H. destruct s. inv_fields. Qed.

Lemma set_flagT_inv v s : flag_bit v -> invariant s -> invariant (set_flagT v s).
Proof. intros Hv H. destruct s. inv_fields. Qed.

Lemma keeps_R i : keeps (M:=M) (R i).
Proof. apply keeps_gets. Qed.

Lemma keeps_setReg rD (e : Exec (M:=M) Z) :
  keeps e -> keeps (setReg rD e).
Proof.
  intros He. apply keeps_bind; [exact He|].
  intros v. apply keeps_modify. intros s. apply setRegister_inv.
Qed.

#[local] Hint Resolve keeps_ret keeps_gets keeps_R keeps_miu_call keeps_if_miu
  keeps_miu_readU8 keeps_miu_readU16 keeps_miu_readU32
  keeps_miu_writeU8 keeps_miu_writeU16 keeps_miu_writeU32
  keeps_setReg keeps_bind keeps_modify keeps_alu
  setRegister_inv exception_inv rte_inv unpackSR0_inv bittst_inv
  execMul_inv execMulu_inv execDiv_inv execDivu_inv moveFromCE_inv
  moveToCE_inv set_pc_inv set_pc_R_inv set_r_inv set_sr_inv set_flagT_inv
  add_inv addc_inv sub_inv subc_inv neg_inv bitOp_inv sll_inv srl_inv sra_inv
  ror_inv rol_inv rorc_inv rolc_inv extsb_inv extsh_inv extzb_inv extzh_inv
  bitclr_inv bitset_inv bittgl_inv : inv.

Lemma keeps_jump_register i :
  keeps (M:=M) (bind (R i) (fun a => modify (set_pc a))).
Proof. intros s H. apply set_pc_R_inv, H. Qed.

Ltac keeps_step :=
  match goal with
  | |- keeps (bind (R _) (fun a => modify (set_pc a))) =>
      apply keeps_jump_register
  | |- keeps (bind _ _) => apply keeps_bind; [|intros ?]
  | |- keeps (if ?c then _ else _) => destruct c
  | |- keeps (match ?x with _ => _ end) => destruct x
  | |- keeps (modify _) => apply keeps_modify; intros ? ?
  | |- keeps (alu _) => apply keeps_alu; intros ? ?
  | |- keeps (setReg _ _) => apply keeps_setReg
  | |- keeps (if_miu _) => apply keeps_if_miu
  | |- keeps _ => solve [auto with inv]
  | |- invariant _ => solve [auto with inv]
  end.

Ltac keeps_all := repeat keeps_step.

Lemma execJForm_keeps insn : keeps (M:=M) (execJForm insn).
Proof. unfold execJForm. cbv zeta. keeps_all. Qed.

Lemma execBForm_keeps insn : keeps (M:=M) (execBForm insn).
Proof. unfold execBForm. cbv zeta. keeps_all. Qed.

Lemma execIForm_keeps insn : keeps (M:=M) (execIForm insn).
Proof. unfold execIForm. cbv zeta. keeps_all. Qed.

Lemma execRixForm_keeps insn : keeps (M:=M) (execRixForm insn).
Proof. unfold execRixForm. cbv zeta. keeps_all. Qed.

Lemma execMemoryForm_keeps insn : keeps (M:=M) (execMemoryForm insn).
Proof. unfold execMemoryForm. cbv zeta. keeps_all. Qed.


Lemma execSpForm_keeps insn : keeps (M:=M) (execSpForm insn).
Proof. unfold execSpForm. cbv zeta. keeps_all. Qed.

Lemma exec16_keeps insn : keeps (M:=M) (exec16 insn).
Proof. unfold exec16. cbv zeta. keeps_all. Qed.

Lemma decode_execute_keeps encoded : keeps (M:=M) (decode_execute encoded).
Proof.
  unfold decode_execute. cbv zeta.
  repeat match goal with
         | |- keeps (match ?x with _ => _ end) => destruct x
         end;
    lazymatch goal with
    | |- keeps (execSpForm _) => apply execSpForm_keeps
    | |- keeps (execIForm _) => apply execIForm_keeps
    | |- keeps (execJForm _) => apply execJForm_keeps
    | |- keeps (execRixForm _) => apply execRixForm_keeps
    | |- keeps (execBForm _) => apply execBForm_keeps
    | |- keeps (execMemoryForm _) => apply execMemoryForm_keeps
    | |- keeps (exec16 _) => apply exec16_keeps
    | |- keeps (ret _) => apply keeps_ret
    end.
Qed.

Lemma complete_inv result s : invariant s -> invariant (complete result s).
Proof.
  intros H. destruct s. unfold complete. cbv zeta.
  destruct (negb _); inv_fields.
Qed.

Lemma pc_out_of_range_keeps : keeps (M:=M) pc_out_of_range.
Proof.
  intros s H. unfold pc_out_of_range. destruct (miu s); exact H.
Qed.

Lemma breakpoint_pause_keeps : keeps (M:=M) breakpoint_pause.
Proof.
  intros s H. unfold breakpoint_pause.
  destruct (breakpointManager s) as [bm|]; [|exact H].
  destruct (checkBreakpoint (pc s) bm) as [[] bm']; destruct s; inv_fields.
Qed.

Lemma step_try_keeps : keeps (M:=M) step_try.
Proof.
  unfold step_try.
  apply keeps_bind; [apply pc_out_of_range_keeps|]. intros [].
  - apply keeps_bind; [|intros; apply keeps_ret].
    apply keeps_modify, exception_inv.
  - apply keeps_bind; [apply breakpoint_pause_keeps|]. intros [].
    + apply keeps_ret.
    + apply keeps_bind; [apply keeps_gets|]. intros p.
      apply keeps_bind; [apply keeps_miu_readU32|]. intros encoded.
      apply keeps_bind; [apply decode_execute_keeps|]. intros result.
      apply keeps_bind; [|intros; apply keeps_ret].
      apply keeps_modify, complete_inv.
Qed.

Lemma set_fault_count_inv v s : invariant s -> invariant (set_fault_count v s).
Proof. intros H. destruct s. inv_fields. Qed.
Lemma set_last_error_inv v s : invariant s -> invariant (set_last_error v s).
Proof. intros H. destruct s. inv_fields. Qed.
Lemma set_halted_inv v s : invariant s -> invariant (set_halted v s).
Proof. intros H. destruct s. inv_fields. Qed.
Lemma set_initialized_inv v s : invariant s -> invariant (set_initialized v s).
Proof. intros H. destruct s. inv_fields. Qed.

Lemma step_inv s : invariant s -> invariant (snd (step s)).
Proof.
  intros H. unfold step.
  destruct (negb (initialized s)); [exact H|].
  destruct (halted s); [exact H|].
  destruct (miu s) as [m|] eqn:Hm.
  - pose proof (step_try_keeps (set_fault_count 0 s)
                  (set_fault_count_inv 0 s H)) as Ht.
    destruct (step_try (set_fault_count 0 s)) as [[b|msg] s']; cbn [snd] in *.
    + exact Ht.
    + apply set_fault_count_inv, set_last_error_inv, Ht.
  - cbv zeta. match goal with |- context [if ?c then _ else _] => destruct c end;
      cbn [snd]; repeat first [apply set_halted_inv | apply set_last_error_inv
                               | apply set_fault_count_inv]; exact H.
Qed.

Lemma steps_inv n s : invariant s -> invariant (steps n s).
Proof.
  revert s. induction n as [|n IH]; intros s H; [exact H|].
  cbn [steps]. apply IH, step_inv, H.
Qed.

Lemma new_CPU_inv (m : option M) : invariant (new_CPU m).
Proof.
  unfold invariant. cbn.
  repeat split; try apply bank_ok_new; solve [lia | left; reflexivity].
Qed.

Lemma initializeCPU_inv (m : option M) s : invariant s -> invariant (snd (initializeCPU m s)).
Proof.
  intros H. unfold initializeCPU. destruct m; [|exact H].
  destruct s. inv_fields.
Qed.

Lemma invariant_well_formed s : invariant s -> well_formed s.
Proof.
  intros (Hr & Hcr & Hsr & H). destruct Hr, Hcr, Hsr.
  unfold well_formed. auto.
Qed.

(** Every state the CPU reaches from its constructor by [initializeCPU]
    and any number of [step] calls is well formed. *)
Lemma reachable_well_formed (m0 m : option M) n :
  well_formed (steps n (snd (initializeCPU m (new_CPU m0)))).
Proof.
  apply invariant_well_formed, steps_inv, initializeCPU_inv, new_CPU_inv.
Qed.

End Invariant.

(** ** Runs on concrete states *)

Ltac closed :=
  vm_compute;
  repeat match goal with |- _ /\ _ => split end;
  solve [ reflexivity | exact I | discriminate | intro; discriminate
        | left; reflexivity | right; reflexivity ].

Lemma flagged_state_well_formed : well_formed flagged_state.
Proof. closed. Qed.

(** The first end-to-end scenario of the specification: one [step] over
    [add r1, r1, r2] gives [r1 = 12], [pc] advanced by 4, Z = 0 and N = 0. *)
Example add_scenario :
  fst (step add_state) = true /\
  getRegister 1 (snd (step add_state)) = 12 /\
  pc (snd (step add_state)) = 0x9E000004 /\
  flagZ (snd (step add_state)) = 0 /\ flagN (snd (step add_state)) = 0.
Proof. closed. Qed.

(** The round trip of C4 on a state with N, C and T set. *)
Lemma exception_rte_round_trip_witness :
  well_formed flagged_state /\
  pc (rte (exception 5 flagged_state)) = 0x9E000040 /\
  flagN (rte (exception 5 flagged_state)) = 1 /\
  flagZ (rte (exception 5 flagged_state)) = 0 /\
  flagC (rte (exception 5 flagged_state)) = 1 /\
  flagV (rte (exception 5 flagged_state)) = 0 /\
  flagT (rte (exception 5 flagged_state)) = 1.
Proof.
  assert (Hwf : well_formed flagged_state) by closed.
  split; [exact Hwf|].
  destruct (exception_rte_round_trip flagged_state Hwf)
    as ((Hpc & HN & HZ & HC & HV & HT) & _).
  rewrite Hpc, HN, HZ, HC, HV, HT. repeat split.
Defined.

(** C5 at [a = 5], [b = 7]: the subtraction borrows, the addition does not
    carry. *)
Lemma add_sub_results_and_flags_witness :
  0 <= 5 < 2 ^ 32 /\ 0 <= 7 < 2 ^ 32 /\
  fst (sub 5 7 true flagged_state) = (5 - 7) mod 2 ^ 32 /\
  (flagC (snd (sub 5 7 true flagged_state)) = 1 <-> 5 >= 7) /\
  fst (add 5 7 true flagged_state) = (5 + 7) mod 2 ^ 32 /\
  (flagC (snd (add 5 7 true flagged_state)) = 1 <-> 7 > 0xFFFFFFFF - 5).
Proof.
  assert (Ha : 0 <= 5 < 2 ^ 32) by lia.
  assert (Hb : 0 <= 7 < 2 ^ 32) by lia.
  split; [exact Ha|]. split; [exact Hb|].
  destruct (add_sub_results_and_flags 5 7 flagged_state Ha Hb)
    as ((S1 & S2 & _) & (A1 & A2 & _)).
  repeat split; first [assumption | apply S2 | apply A2].
Defined.

(** The breaker of the original [step] on a CPU that was initialised and
    then lost its interface. *)
Lemma fault_breaker_witness :
  initialized detached_state = true /\ halted detached_state = false /\
  miu detached_state = None /\ fault_count detached_state = 0 /\
  halted (steps 101 detached_state) = true /\
  halted (steps 100 detached_state) = false /\
  fst (step (steps 100 detached_state)) = false /\
  instructions (snd (step (steps 100 detached_state))) = 0.
Proof.
  assert (H1 : initialized detached_state = true) by reflexivity.
  assert (H2 : halted detached_state = false) by reflexivity.
  assert (H3 : miu detached_state = None) by reflexivity.
  assert (H4 : fault_count detached_state = 0) by reflexivity.
  split; [exact H1|]. split; [exact H2|]. split; [exact H3|].
  split; [exact H4|].
  destruct (fault_breaker detached_state H1 H2 H3 H4) as (Ha & Hb & Hc).
  split; [exact Ha|].
  split; [apply Hb; lia|].
  destruct (Hc 100%nat) as (Hf & Hi). split; [exact Hf|].
  rewrite Hi. reflexivity.
Defined.

(** C3 on the same CPU: the original halts at the 101st call, the override
    has not halted after 101 calls, nor after 1000. *)
Lemma integration_override_disables_the_breaker_witness :
  initialized detached_state = true /\ halted detached_state = false /\
  miu detached_state = None /\ fault_count detached_state = 0 /\
  halted (steps 101 detached_state) = true /\
  halted (steps_integrated 101 detached_state) = false /\
  fault_count (steps_integrated 101 detached_state) = 101 /\
  halted (steps_integrated 1000 detached_state) = false.
Proof.
  assert (H1 : initialized detached_state = true) by reflexivity.
  assert (H2 : halted detached_state = false) by reflexivity.
  assert (H3 : miu detached_state = None) by reflexivity.
  assert (H4 : fault_count detached_state = 0) by reflexivity.
  split; [exact H1|]. split; [exact H2|]. split; [exact H3|].
  split; [exact H4|].
  destruct (integration_override_disables_the_breaker detached_state
              H1 H2 H3 H4) as (Ha & Hb).
  split; [exact Ha|].
  destruct (Hb 101%nat) as (Hh & Hf & _). split; [exact Hh|].
  split; [exact Hf|].
  destruct (Hb 1000%nat) as (Hh' & _). exact Hh'.
Defined.

(** C9 at the boot vector. *)
Lemma unassigned_opcode_is_a_no_op_witness :
  fetches opcode6_state (ram_with 0x9E000000 0x30000000) 0x30000000
    (ram_with 0x9E000000 0x30000000) /\
  (0x30000000 >>> 27) .& 0x1F = 0x06 /\
  fst (step opcode6_state) = true /\
  pc (snd (step opcode6_state)) = 0x9E000004 /\
  instructions (snd (step opcode6_state)) = 1 /\
  r (snd (step opcode6_state)) = r opcode6_state.
Proof.
  assert (Hf : fetches opcode6_state (ram_with 0x9E000000 0x30000000)
                 0x30000000 (ram_with 0x9E000000 0x30000000)) by closed.
  assert (Hop : (0x30000000 >>> 27) .& 0x1F = 0x06) by reflexivity.
  split; [exact Hf|]. split; [exact Hop|].
  rewrite (unassigned_opcode_is_a_no_op _ _ _ _ Hf Hop).
  repeat split.
Defined.

(** C6 on the scenario of the specification: [disp24 = 0xFFFFFF] at
    0x9E000010, here with the link bit set. *)
Lemma jform_jump_target_witness :
  fetches jump_back_state (ram_with 0x9E000010 0x11FFFFFF) 0x11FFFFFF
    (ram_with 0x9E000010 0x11FFFFFF) /\
  (0x11FFFFFF >>> 27) .& 0x1F = 0x02 /\
  length (r jump_back_state) = 32%nat /\
  0 <= pc jump_back_state < 2 ^ 32 /\
  fst (step jump_back_state) = true /\
  pc (snd (step jump_back_state)) = 0x9E00000E /\
  getRegister 3 (snd (step jump_back_state)) = 0x9E000014 /\
  pc (snd (step jump_back_state)) < pc jump_back_state.
Proof.
  assert (Hf : fetches jump_back_state (ram_with 0x9E000010 0x11FFFFFF)
                 0x11FFFFFF (ram_with 0x9E000010 0x11FFFFFF)) by closed.
  assert (Hop : (0x11FFFFFF >>> 27) .& 0x1F = 0x02) by reflexivity.
  assert (Hlen : length (r jump_back_state) = 32%nat) by reflexivity.
  assert (Hpc : 0 <= pc jump_back_state < 2 ^ 32)
    by (change (pc jump_back_state) with 0x9E000010; lia).
  split; [exact Hf|]. split; [exact Hop|]. split; [exact Hlen|].
  split; [exact Hpc|].
  destruct (jform_jump_target _ _ _ _ Hf Hop Hlen Hpc)
    as (Hret & _ & Hlink & _ & Hback & Hscenario).
  split; [exact Hret|].
  split; [apply Hscenario; reflexivity|].
  split; [rewrite Hlink; reflexivity|].
  destruct Hback as (_ & Hlt & _); [reflexivity|].
  apply Hlt. change (pc jump_back_state) with 0x9E000010.
  change ((0x11FFFFFF >>> 1) .& 0xFFFFFF) with 0xFFFFFF. lia.
Defined.

(** C6 as stated fails where the subtraction wraps: the same jump executed
    at address 0 has bit 23 of its displacement set, and lands at
    0xFFFFFFFE, which is not below 0. *)
Lemma jform_backward_counterexample :
  fetches jump_wrap_state (ram_with 0 0x11FFFFFE) 0x11FFFFFE
    (ram_with 0 0x11FFFFFE) /\
  (0x11FFFFFE >>> 27) .& 0x1F = 0x02 /\
  Z.testbit ((0x11FFFFFE >>> 1) .& 0xFFFFFF) 23 = true /\
  pc jump_wrap_state = 0 /\
  fst (step jump_wrap_state) = true /\
  pc (snd (step jump_wrap_state)) = 0xFFFFFFFE /\
  (pc (snd (step jump_wrap_state)) <? pc jump_wrap_state) = false.
Proof. closed. Qed.

(** C1 on the code.  Register 0 reads 0 before the step.  A RIX-Form load
    with post-increment and [rA = 0] writes the address 4 back into [r[0]];
    a compressed [c.push] with [stackReg = 0] leaves 0xFFFFFFFC there.  Both
    steps succeed, and [getRegister(0)] then returns a non-zero value. *)
Theorem r0_written_by_post_increment_and_push :
  (getRegister 0 rix_r0_state = 0 /\
   fst (step rix_r0_state) = true /\
   getRegister 0 (snd (step rix_r0_state)) = 4) /\
  (getRegister 0 push_r0_state = 0 /\
   fst (step push_r0_state) = true /\
   getRegister 0 (snd (step push_r0_state)) = 0xFFFFFFFC).
Proof. closed. Qed.

(** [setRegister] itself keeps the invariant. *)
Lemma setRegister_keeps_r0 {M} (x : Z) (s : CPU M) :
  getRegister 0 (setRegister 0 x s) = getRegister 0 s.
Proof. reflexivity. Qed.

Lemma faulting_state_is_stuck :
  step (snd (step faulting_state)) = (false, snd (step faulting_state)).
Proof. vm_compute. reflexivity. Qed.

Lemma faulting_steps n :
  steps (S n) faulting_state = snd (step faulting_state).
Proof.
  cbn [steps]. generalize faulting_state_is_stuck.
  generalize (snd (step faulting_state)). intros s Hs.
  induction n as [|n IH]; [reflexivity|].
  cbn [steps]. rewrite Hs. exact IH.
Qed.

(** C2 on the code.  On a CPU whose memory interface throws at every fetch,
    every call of [step] returns [false], and after any number of such
    consecutive calls, 101 and more included, [fault_count] is 1 and
    [halted] is false. *)
Theorem caught_faults_never_trip_the_breaker (n : nat) :
  fst (step (steps n faulting_state)) = false /\
  fault_count (steps (S n) faulting_state) = 1 /\
  halted (steps (S n) faulting_state) = false.
Proof.
  rewrite faulting_steps. split; [|split; reflexivity].
  destruct n as [|n]; [reflexivity|].
  rewrite faulting_steps, faulting_state_is_stuck. reflexivity.
Qed.

(** ** The interrupt controller *)

Lemma or_testbit a b n :
  0 <= n < 32 -> Z.testbit (a .| b) n = Z.testbit a n || Z.testbit b n.
Proof.
  intros Hn. unfold JS.or. rewrite Z.lor_spec, !ToInt32_testbit by lia.
  reflexivity.
Qed.

Lemma b2z_eqb_1 b : (Z.b2z b =? 1) = b.
Proof. destruct b; reflexivity. Qed.

Section INTCProperties.

Context {M : Type}.
Import INTC.

Implicit Types (mc : Machine (M := M)) (ic : InterruptController).

(** [isIRQPending] and [isIRQEnabled] read bit [j] of their register. *)
Lemma isIRQPending_testbit j ic :
  isIRQPending j ic =
  (0 <=? j) && (j <? 32) && Z.testbit (INT_STATUS (regs ic)) j.
Proof.
  unfold isIRQPending.
  destruct (Z.leb_spec 0 j); destruct (Z.ltb_spec j 32); cbn [andb];
    try reflexivity.
  rewrite ushr_and_1 by lia. apply b2z_eqb_1.
Qed.

Lemma isIRQEnabled_testbit j ic :
  isIRQEnabled j ic =
  (0 <=? j) && (j <? 32) && Z.testbit (INT_MASK (regs ic)) j.
Proof.
  unfold isIRQEnabled.
  destruct (Z.leb_spec 0 j); destruct (Z.ltb_spec j 32); cbn [andb];
    try reflexivity.
  rewrite ushr_and_1 by lia. apply b2z_eqb_1.
Qed.

(** The test that [trigger] makes on the mask is the one [isIRQEnabled]
    makes. *)
Lemma trigger_mask_test irq ic :
  0 <= irq <= 31 ->
  negb (INT_MASK (regs ic) .& (1 << irq) =? 0) = isIRQEnabled irq ic.
Proof.
  intros Hirq. rewrite and_shl_1_nonzero, isIRQEnabled_testbit by lia.
  destruct (Z.leb_spec 0 irq); destruct (Z.ltb_spec irq 32); try lia.
  reflexivity.
Qed.

(** [enableIRQ] and [disableIRQ] set and clear the bit that [trigger]
    tests. *)
Lemma isIRQEnabled_enableIRQ irq ic :
  0 <= irq <= 31 -> isIRQEnabled irq (enableIRQ irq ic) = true.
Proof.
  intros Hirq. rewrite isIRQEnabled_testbit. unfold enableIRQ.
  destruct (Z.leb_spec 0 irq); destruct (Z.ltb_spec irq 32); try lia.
  cbn [andb set_INT_MASK set_regs regs INT_MASK].
  rewrite or_testbit, shl_1_testbit, Z.eqb_refl by lia. auto with bool.
Qed.

Lemma isIRQEnabled_disableIRQ irq ic :
  0 <= irq <= 31 -> isIRQEnabled irq (disableIRQ irq ic) = false.
Proof.
  intros Hirq. rewrite isIRQEnabled_testbit. unfold disableIRQ.
  destruct (Z.leb_spec 0 irq); destruct (Z.ltb_spec irq 32); try lia.
  cbn [andb set_INT_MASK set_regs regs INT_MASK].
  unfold JS.and, JS.not.
  rewrite Z.land_spec, !ToInt32_testbit, Z.lnot_spec, ToInt32_testbit by lia.
  rewrite shl_1_testbit, Z.eqb_refl by lia. auto with bool.
Qed.

(** What [trigger] does to the machine for an IRQ number in range. *)
Lemma trigger_in_range mc irq :
  0 <= irq <= 31 ->
  trigger (Num irq) mc =
  let ic :=
    set_INT_STATUS (INT_STATUS (regs (intc mc)) .| (1 << irq))
      (count_triggered (intc mc)) in
  match cpu (intc mc) with
  | Some the_cpu =>
      if isIRQEnabled irq (intc mc)
      then {| cpu_object := exception irq (cpu_object mc);
              intc := count_processed ic |}
      else {| cpu_object := cpu_object mc; intc := count_blocked ic |}
  | None => {| cpu_object := cpu_object mc; intc := count_blocked ic |}
  end.
Proof.
  intros Hirq. unfold trigger, deliver.
  destruct (Z.ltb_spec irq 0); [lia|].
  destruct (Z.gtb_spec irq 31); [lia|].
  cbn [orb]. cbv zeta.
  cbn [on_intc intc cpu_object count_triggered set_INT_STATUS set_stats
       set_regs regs stats cpu INT_MASK INT_STATUS name].
  rewrite (trigger_mask_test irq (intc mc)) by lia.
  destruct (cpu (intc mc)) as [[]|]; reflexivity.
Qed.

(** [trigger] on the arguments its guards were written for.  For [irq] in
    0..31, [trigger(irq)] counts the request, sets bit
    [irq] of INT_STATUS and clears no pending bit, whatever the mask, which
    it leaves alone; if bit [irq] of INT_MASK is 1 and a CPU is connected it
    runs the CPU's exception entry with cause [irq] and counts the request
    as processed, and otherwise it leaves the CPU alone and counts the
    request as blocked.  For [irq] outside 0..31, and for [undefined] and
    [null], it returns normally with the registers and the CPU unchanged and
    the blocked counter one higher. *)
Lemma trigger_contract mc (irq : Z) :
  (0 <= irq <= 31 ->
   isIRQPending irq (intc (trigger (Num irq) mc)) = true /\
   (forall j, isIRQPending j (intc mc) = true ->
              isIRQPending j (intc (trigger (Num irq) mc)) = true) /\
   INT_MASK (regs (intc (trigger (Num irq) mc))) = INT_MASK (regs (intc mc)) /\
   triggered (stats (intc (trigger (Num irq) mc))) =
     triggered (stats (intc mc)) + 1 /\
   (isIRQEnabled irq (intc mc) = true /\ cpu (intc mc) = Some the_cpu ->
    cpu_object (trigger (Num irq) mc) = exception irq (cpu_object mc) /\
    processed (stats (intc (trigger (Num irq) mc))) =
      processed (stats (intc mc)) + 1 /\
    blocked (stats (intc (trigger (Num irq) mc))) =
      blocked (stats (intc mc))) /\
   (isIRQEnabled irq (intc mc) = false \/ cpu (intc mc) = None ->
    cpu_object (trigger (Num irq) mc) = cpu_object mc /\
    processed (stats (intc (trigger (Num irq) mc))) =
      processed (stats (intc mc)) /\
    blocked (stats (intc (trigger (Num irq) mc))) =
      blocked (stats (intc mc)) + 1)) /\
  (forall arg, arg = Undefined \/ arg = Null \/
               arg = Num irq /\ (irq < 0 \/ 31 < irq) ->
   cpu_object (trigger arg mc) = cpu_object mc /\
   regs (intc (trigger arg mc)) = regs (intc mc) /\
   triggered (stats (intc (trigger arg mc))) = triggered (stats (intc mc)) /\
   processed (stats (intc (trigger arg mc))) = processed (stats (intc mc)) /\
   blocked (stats (intc (trigger arg mc))) = blocked (stats (intc mc)) + 1).
Proof.
  split.
  - intros Hirq. rewrite (trigger_in_range mc irq Hirq). cbv zeta.
    assert (Hpend : forall j, 0 <= j < 32 ->
              Z.testbit (INT_STATUS (regs (intc mc)) .| (1 << irq)) j =
              Z.testbit (INT_STATUS (regs (intc mc))) j || (irq =? j)).
    { intros j Hj. rewrite or_testbit, shl_1_testbit by lia. reflexivity. }
    destruct (cpu (intc mc)) as [[]|] eqn:Hcpu;
      destruct (isIRQEnabled irq (intc mc)) eqn:Hen;
      rewrite ?isIRQPending_testbit;
      cbn [intc cpu_object count_processed count_blocked count_triggered
           set_INT_STATUS set_stats set_regs regs stats cpu processed blocked
           triggered INT_MASK INT_STATUS];
      (split; [rewrite Hpend by lia;
               destruct (Z.leb_spec 0 irq); destruct (Z.ltb_spec irq 32);
               try lia; rewrite Z.eqb_refl; auto with bool |]);
      (split; [intros j; rewrite !isIRQPending_testbit;
               cbn [set_INT_STATUS set_regs regs INT_STATUS];
               destruct (Z.leb_spec 0 j); destruct (Z.ltb_spec j 32);
               cbn [andb]; try discriminate;
               rewrite Hpend by lia; intros ->; reflexivity |]);
      (split; [reflexivity|]); (split; [reflexivity|]);
      (split; [intros [? ?] | intros [?|?]]); try discriminate;
      repeat split.
  - intros arg [-> | [-> | [-> Hirq]]].
    + cbn. repeat split.
    + cbn. repeat split.
    + unfold trigger.
      assert (Hout : (irq <? 0) || (irq >? 31) = true).
      { destruct (Z.ltb_spec irq 0); destruct (Z.gtb_spec irq 31); cbn; lia. }
      rewrite Hout. cbn. repeat split.
Qed.

(** C10.  With [irq] enabled and a CPU connected, [trigger(irq)] runs the
    exception entry on the CPU whatever bit 0 of [cr[0]], [halted] and
    [initialized] hold: no hypothesis constrains them.  It saves the current
    flags in [cr[1]] and the current [pc] in [cr[5]]; when the CPU is itself
    inside a handler, its control registers and [pc] being those that
    [exception(cause)] left, bit 0 of [cr[0]] is clear and [cr[5]] is
    overwritten with the handler's own address [cr[3] + cause * 4], the
    interrupted [pc] being lost. *)
Theorem trigger_delivery_is_unconditional mc (irq : Z) :
  0 <= irq <= 31 ->
  cpu (intc mc) = Some the_cpu ->
  isIRQEnabled irq (intc mc) = true ->
  length (cr (cpu_object mc)) = 32%nat ->
  length (sr (cpu_object mc)) = 32%nat ->
  cpu_object (trigger (Num irq) mc) = exception irq (cpu_object mc) /\
  bank_get (cr (cpu_object (trigger (Num irq) mc))) 1 =
    JS.ToUint32
      (sr0_image (flagN (cpu_object mc)) (flagZ (cpu_object mc))
         (flagC (cpu_object mc)) (flagV (cpu_object mc))
         (flagT (cpu_object mc))) /\
  bank_get (cr (cpu_object (trigger (Num irq) mc))) 5 =
    JS.ToUint32 (pc (cpu_object mc)) /\
  pc (cpu_object (trigger (Num irq) mc)) =
    (bank_get (cr (cpu_object mc)) 3 + irq * 4) mod 2 ^ 32 /\
  (forall (s : CPU M) (cause : Z),
     cr (cpu_object mc) = cr (exception cause s) ->
     pc (cpu_object mc) = pc (exception cause s) ->
     length (cr s) = 32%nat -> length (sr s) = 32%nat ->
     (bank_get (cr (cpu_object mc)) 0) .& 1 = 0 /\
     bank_get (cr (cpu_object (trigger (Num irq) mc))) 5 =
       (bank_get (cr s) 3 + cause * 4) mod 2 ^ 32).
Proof.
  intros Hirq Hcpu Hen Hcr Hsr.
  rewrite (trigger_in_range mc irq Hirq), Hcpu, Hen. cbv zeta.
  cbn [cpu_object].
  destruct (exception_saves irq (cpu_object mc) Hcr Hsr)
    as (H1 & H5 & _ & _ & Hpc).
  split; [reflexivity|]. split; [exact H1|]. split; [exact H5|].
  split; [exact Hpc|].
  intros s cause Hcrin Hpcin Hcr' Hsr'.
  destruct (exception_saves cause s Hcr' Hsr') as (_ & _ & _ & H0 & Hpc').
  rewrite H5, Hcrin, Hpcin, H0, Hpc'.
  split; [reflexivity|]. unfold JS.ToUint32. apply Z.mod_mod. lia.
Qed.

(** What [trigger] does once an argument is past the guards, whatever the
    mask and the connection. *)
Lemma deliver_counts bit enter mc :
  INT_STATUS (regs (intc (deliver bit enter mc))) =
    INT_STATUS (regs (intc mc)) .| bit /\
  INT_MASK (regs (intc (deliver bit enter mc))) = INT_MASK (regs (intc mc)) /\
  triggered (stats (intc (deliver bit enter mc))) =
    triggered (stats (intc mc)) + 1.
Proof.
  destruct mc as [c [nm cp rg st]]. unfold deliver. cbn.
  destruct cp as [[]|]; cbn; [|repeat split].
  destruct (negb _); cbn; repeat split.
Qed.

(** A value that compares as NaN passes both guards and is handled as
    IRQ 0. *)
Lemma trigger_not_a_number mc :
  trigger (NotInt NaN) mc = deliver 1 (exception_noninteger NaN) mc.
Proof. reflexivity. Qed.

Lemma trigger_not_a_number_counts mc :
  isIRQPending 0 (intc (trigger (NotInt NaN) mc)) = true /\
  triggered (stats (intc (trigger (NotInt NaN) mc))) =
    triggered (stats (intc mc)) + 1.
Proof.
  rewrite trigger_not_a_number.
  destruct (deliver_counts 1 (exception_noninteger NaN) mc) as (Hs & _ & Ht).
  split; [|exact Ht].
  rewrite isIRQPending_testbit, Hs.
  change (INT_STATUS (regs (intc mc)) .| 1)
    with (INT_STATUS (regs (intc mc)) .| (1 << 0)).
  rewrite or_testbit, shl_1_testbit by lia.
  cbn [Z.leb Z.ltb Z.compare andb]. rewrite Z.eqb_refl. apply orb_true_r.
Qed.

End INTCProperties.

(** The exception entry with a cause that converts to NaN: the vector
    [cr[3] + cause * 4] is NaN, and [>>> 0] stores 0 in [pc]. *)
Lemma exception_not_a_number_pc {M} (s : CPU M) :
  pc (exception_noninteger NaN s) = 0.
Proof. destruct s. reflexivity. Qed.

(** C7.  [trigger] does not refuse every argument outside 0..31.  Its guard
    [irqNumber < 0 || irqNumber > 31] is false for a value that compares as
    NaN, which the guard [irqNumber >= 0 && irqNumber < 32] of [enableIRQ],
    [disableIRQ], [isIRQEnabled], [isIRQPending] and [clearIRQ] refuses.
    The callers that still use the two-argument form,
    [trigger(this.cpu, irq)], pass the CPU object there.  On any controller
    such a call is counted as triggered and leaves IRQ 0 pending, and the
    exception entry it reaches sets [pc] to 0 whatever [cr[3]] holds.  On the
    connected controller, where nothing was pending, it also enters the
    exception on the CPU: the interrupted [pc] goes to [cr[5]], [pc] becomes
    0, and the call is counted as processed and not as blocked. *)
Theorem trigger_delivers_what_is_not_a_number :
  (forall (M : Type) (mc : INTC.Machine (M := M)),
     let mc' := INTC.trigger (INTC.NotInt NaN) mc in
     INTC.isIRQPending 0 (INTC.intc mc') = true /\
     INTC.triggered (INTC.stats (INTC.intc mc')) =
       INTC.triggered (INTC.stats (INTC.intc mc)) + 1) /\
  (forall (M : Type) (s : CPU M), pc (exception_noninteger NaN s) = 0) /\
  let mc' := INTC.trigger (INTC.NotInt NaN) connected_machine in
  INTC.isIRQPending 0 (INTC.intc connected_machine) = false /\
  INTC.INT_STATUS (INTC.regs (INTC.intc mc')) = 1 /\
  INTC.cpu_object mc' = exception_noninteger NaN flagged_state /\
  pc flagged_state = 0x9E000040 /\
  pc (INTC.cpu_object mc') = 0 /\
  bank_get (cr (INTC.cpu_object mc')) 5 = 0x9E000040 /\
  INTC.processed (INTC.stats (INTC.intc mc')) = 1 /\
  INTC.blocked (INTC.stats (INTC.intc mc')) = 0.
Proof.
  split.
  - intros M mc. cbv zeta. apply trigger_not_a_number_counts.
  - split; [intros M s; apply exception_not_a_number_pc|].
    cbv zeta. rewrite trigger_not_a_number.
    vm_compute. repeat split.
Qed.

(** On a connected controller: IRQ 6 enabled is delivered, IRQ 6 disabled
    is left pending and blocked, IRQ 32 is refused. *)
Lemma trigger_contract_witness :
  (0 <= 6 <= 31 /\
   INTC.isIRQEnabled 6 (INTC.intc connected_machine) = true /\
   INTC.cpu (INTC.intc connected_machine) = Some INTC.the_cpu /\
   INTC.isIRQPending 6
     (INTC.intc (INTC.trigger (INTC.Num 6) connected_machine)) = true /\
   INTC.cpu_object (INTC.trigger (INTC.Num 6) connected_machine) =
     exception 6 flagged_state) /\
  (INTC.isIRQEnabled 6 (INTC.intc masked_machine) = false /\
   INTC.isIRQPending 6
     (INTC.intc (INTC.trigger (INTC.Num 6) masked_machine)) = true /\
   INTC.cpu_object (INTC.trigger (INTC.Num 6) masked_machine) =
     flagged_state /\
   INTC.blocked
     (INTC.stats (INTC.intc (INTC.trigger (INTC.Num 6) masked_machine))) = 1) /\
  (31 < 32 /\
   INTC.regs (INTC.intc (INTC.trigger (INTC.Num 32) connected_machine)) =
     INTC.regs (INTC.intc connected_machine)).
Proof.
  assert (Hr : 0 <= 6 <= 31) by lia.
  assert (Hen : INTC.isIRQEnabled 6 (INTC.intc connected_machine) = true)
    by reflexivity.
  assert (Hc : INTC.cpu (INTC.intc connected_machine) = Some INTC.the_cpu)
    by reflexivity.
  assert (Hdis : INTC.isIRQEnabled 6 (INTC.intc masked_machine) = false)
    by reflexivity.
  destruct (trigger_contract connected_machine 6) as (Hin & _).
  destruct (Hin Hr) as (Hp & _ & _ & _ & Hdel & _).
  destruct (Hdel (conj Hen Hc)) as (Hexc & _).
  destruct (trigger_contract masked_machine 6) as (Hin' & _).
  destruct (Hin' Hr) as (Hp' & _ & _ & _ & _ & Hblk).
  destruct (Hblk (or_introl Hdis)) as (Hsame & _ & Hb).
  destruct (trigger_contract connected_machine 32) as (_ & Hout).
  destruct (Hout (INTC.Num 32)) as (_ & Hregs & _);
    [right; right; split; [reflexivity | lia]|].
  split; [|split].
  - split; [exact Hr|]. split; [exact Hen|]. split; [exact Hc|].
    split; [exact Hp | exact Hexc].
  - split; [exact Hdis|]. split; [exact Hp'|]. split; [exact Hsame|].
    rewrite Hb. reflexivity.
  - split; [lia | exact Hregs].
Defined.

(** C10 on a CPU that is halted inside the handler of a [syscall] taken at
    0x9E000040: IRQ 6 is delivered all the same, and [cr[5]] no longer holds
    0x9E000040 but the handler address 4. *)
Lemma trigger_delivery_is_unconditional_witness :
  0 <= 6 <= 31 /\
  INTC.cpu (INTC.intc in_handler_machine) = Some INTC.the_cpu /\
  INTC.isIRQEnabled 6 (INTC.intc in_handler_machine) = true /\
  halted (INTC.cpu_object in_handler_machine) = true /\
  bank_get (cr (INTC.cpu_object in_handler_machine)) 5 = 0x9E000040 /\
  INTC.cpu_object (INTC.trigger (INTC.Num 6) in_handler_machine) =
    exception 6 (INTC.cpu_object in_handler_machine) /\
  bank_get (cr (INTC.cpu_object (INTC.trigger (INTC.Num 6) in_handler_machine)))
    5 = 4.
Proof.
  assert (Hr : 0 <= 6 <= 31) by lia.
  assert (Hc : INTC.cpu (INTC.intc in_handler_machine) = Some INTC.the_cpu)
    by reflexivity.
  assert (Hen : INTC.isIRQEnabled 6 (INTC.intc in_handler_machine) = true)
    by reflexivity.
  assert (Hcr : length (cr (INTC.cpu_object in_handler_machine)) = 32%nat)
    by reflexivity.
  assert (Hsr : length (sr (INTC.cpu_object in_handler_machine)) = 32%nat)
    by reflexivity.
  destruct (trigger_delivery_is_unconditional in_handler_machine 6
              Hr Hc Hen Hcr Hsr) as (Hexc & _ & _ & _ & Hnest).
  destruct (Hnest flagged_state 1) as (_ & H5);
    [reflexivity | reflexivity | reflexivity | reflexivity |].
  split; [exact Hr|]. split; [exact Hc|]. split; [exact Hen|].
  split; [reflexivity|]. split; [reflexivity|].
  split; [exact Hexc|]. rewrite H5. reflexivity.
Defined.

(** A number between 0 and 31 that is not whole passes the guards too:
    [trigger(2.5)] on the connected controller leaves IRQ 2 pending, records
    cause 2 and enters at [cr[3] + 10]. *)
Example trigger_fraction_scenario :
  INTC.INT_STATUS
    (INTC.regs
       (INTC.intc
          (INTC.trigger (INTC.NotInt (Fraction (5 # 2))) connected_machine)))
    = 4 /\
  bank_get
    (cr (INTC.cpu_object
           (INTC.trigger (INTC.NotInt (Fraction (5 # 2))) connected_machine)))
    2 = 2 << 18 /\
  pc (INTC.cpu_object
        (INTC.trigger (INTC.NotInt (Fraction (5 # 2))) connected_machine))
    = 10.
Proof. vm_compute. repeat split. Qed.

(** Double arithmetic rounds: the double nearest to 1/3 is
    6004799503160661 * 2^-54, and 2^31 plus the largest double below 1 is
    2^31 + 1. *)
Example to_double_rounds :
  Qeq_bool (to_double (1 # 3)) (6004799503160661 # 18014398509481984) = true /\
  times_4_plus (2 ^ 31) (Fraction (9007199254740991 # 36028797018963968)) =
    2 ^ 31 + 1.
Proof. vm_compute. split; reflexivity. Qed.

(** The third end-to-end scenario of the specification: [trigger(6)] with
    IRQ 6 enabled and the CPU connected saves the interrupted [pc] in [cr[5]]
    and enters the handler at [cr[3] + 6 * 4]. *)
Example trigger_scenario :
  bank_get (cr (INTC.cpu_object (INTC.trigger (INTC.Num 6) connected_machine)))
    5 = pc flagged_state /\
  pc (INTC.cpu_object (INTC.trigger (INTC.Num 6) connected_machine)) =
    bank_get (cr flagged_state) 3 + 6 * 4.
Proof. closed. Qed.
(** * Further properties of the code

    ** Bits of the 32-bit operators

    Each operator is described by the low 32 bits of its result; a value
    that went through [>>> 0] is determined by them. *)

Lemma u32_bits_inj x y :
  0 <= x < 2 ^ 32 -> 0 <= y < 2 ^ 32 ->
  (forall n, 0 <= n < 32 -> Z.testbit x n = Z.testbit y n) -> x = y.
Proof.
  intros Hx Hy H. apply Z.bits_inj'. intros n Hn.
  destruct (Z_lt_le_dec n 32) as [Hlow|Hhigh]; [apply H; lia|].
  rewrite <- (Z.mod_small x (2 ^ 32)), <- (Z.mod_small y (2 ^ 32)) by lia.
  rewrite !Z.mod_pow2_bits_high by lia. reflexivity.
Qed.

Lemma ToUint32_bits_inj x y :
  (forall n, 0 <= n < 32 -> Z.testbit x n = Z.testbit y n) ->
  JS.ToUint32 x = JS.ToUint32 y.
Proof.
  intros H. apply u32_bits_inj; try apply ToUint32_range.
  intros n Hn. rewrite !ToUint32_testbit by lia. apply H, Hn.
Qed.

Lemma u32_testbit_high x n : 0 <= x < 2 ^ 32 -> 32 <= n -> Z.testbit x n = false.
Proof.
  intros Hx Hn. rewrite <- (Z.mod_small x (2 ^ 32)) by lia.
  apply Z.mod_pow2_bits_high. lia.
Qed.

Lemma u32_testbit_31 x : 0 <= x < 2 ^ 32 -> Z.testbit x 31 = (2 ^ 31 <=? x).
Proof.
  intros Hx.
  assert (H : Z.b2z (Z.testbit x 31) = Z.b2z (2 ^ 31 <=? x)).
  { rewrite Z.testbit_spec' by lia.
    destruct (Z.leb_spec (2 ^ 31) x).
    - replace (x / 2 ^ 31) with 1; [reflexivity|].
      apply Z.div_unique with (r := x - 2 ^ 31); lia.
    - rewrite Z.div_small by lia. reflexivity. }
  destruct (Z.testbit x 31), (2 ^ 31 <=? x); cbn in H; congruence.
Qed.

Lemma and_testbit a b n :
  0 <= n < 32 -> Z.testbit (a .& b) n = Z.testbit a n && Z.testbit b n.
Proof.
  intros Hn. unfold JS.and.
  rewrite Z.land_spec, !ToInt32_testbit by lia. reflexivity.
Qed.

Lemma xor_testbit a b n :
  0 <= n < 32 -> Z.testbit (a .^ b) n = xorb (Z.testbit a n) (Z.testbit b n).
Proof.
  intros Hn. unfold JS.xor.
  rewrite Z.lxor_spec, !ToInt32_testbit by lia. reflexivity.
Qed.

Lemma not_testbit a n :
  0 <= n < 32 -> Z.testbit (.~ a) n = negb (Z.testbit a n).
Proof.
  intros Hn. unfold JS.not.
  rewrite Z.lnot_spec, ToInt32_testbit by lia. reflexivity.
Qed.

Lemma ushr_testbit a k n :
  0 <= k < 32 -> 0 <= n ->
  Z.testbit (a >>> k) n = if n + k <? 32 then Z.testbit a (n + k) else false.
Proof.
  intros Hk Hn. unfold JS.ushr, JS.count.
  rewrite (Z.mod_small k), Z.shiftr_spec by lia.
  destruct (Z.ltb_spec (n + k) 32).
  - apply ToUint32_testbit. lia.
  - apply u32_testbit_high; [apply ToUint32_range | lia].
Qed.

Lemma shl_testbit a k n :
  0 <= k < 32 -> 0 <= n < 32 ->
  Z.testbit (a << k) n = if k <=? n then Z.testbit a (n - k) else false.
Proof.
  intros Hk Hn. unfold JS.shl, JS.count.
  rewrite (Z.mod_small k), ToInt32_testbit by lia.
  destruct (Z.leb_spec k n).
  - rewrite Z.shiftl_spec, ToInt32_testbit by lia. reflexivity.
  - apply Z.shiftl_spec_low. lia.
Qed.

Lemma sar_testbit a k n :
  0 <= k < 32 -> 0 <= n < 32 ->
  Z.testbit (a >> k) n =
  if n + k <? 32 then Z.testbit a (n + k) else Z.testbit a 31.
Proof.
  intros Hk Hn. unfold JS.sar, JS.count.
  rewrite (Z.mod_small k), Z.shiftr_spec by lia.
  destruct (Z.ltb_spec (n + k) 32).
  - apply ToInt32_testbit. lia.
  - rewrite (int32_sign_extended (JS.ToInt32 a) (n + k))
      by (apply ToInt32_range || lia).
    rewrite <- (int32_sign_extended (JS.ToInt32 a) 31)
      by (apply ToInt32_range || lia).
    apply ToInt32_testbit. lia.
Qed.

(** An operand that is already a 32-bit value, signed or unsigned, has the
    bits of its conversions. *)
Lemma and_range_mask a k : 0 <= k < 31 -> a .& (2 ^ k - 1) = a mod 2 ^ k.
Proof.
  intros Hk. unfold JS.and.
  rewrite (ToInt32_small (2 ^ k - 1)).
  - replace (2 ^ k - 1) with (Z.ones k) by (rewrite Z.ones_equiv; lia).
    rewrite Z.land_ones by lia.
    unfold JS.ToInt32.
    assert (E : 2 ^ 32 = 2 ^ k * 2 ^ (32 - k))
      by (rewrite <- Z.pow_add_r by lia; f_equal; lia).
    assert (0 < 2 ^ k) by (apply Z.pow_pos_nonneg; lia).
    assert (0 < 2 ^ (32 - k)) by (apply Z.pow_pos_nonneg; lia).
    destruct (a mod 2 ^ 32 <? 2 ^ 31).
    + rewrite E, Z.rem_mul_r by lia.
      rewrite Z.mul_comm, Z.mod_add by lia. apply Z.mod_mod. lia.
    + replace (a mod 2 ^ 32 - 2 ^ 32)
        with (a mod 2 ^ 32 + (- 2 ^ (32 - k)) * 2 ^ k) by lia.
      rewrite Z.mod_add by lia.
      rewrite E, Z.rem_mul_r by lia.
      rewrite Z.mul_comm, Z.mod_add by lia. apply Z.mod_mod. lia.
  - assert (2 ^ k <= 2 ^ 30) by (apply Z.pow_le_mono_r; lia).
    assert (0 < 2 ^ k) by (apply Z.pow_pos_nonneg; lia). lia.
Qed.


(** ** Arithmetic of the conversions *)

Lemma ToUint32_wrap_high x : 2 ^ 32 <= x < 2 ^ 33 -> JS.ToUint32 x = x - 2 ^ 32.
Proof. intros Hx. apply ToUint32_eq with (k := -1); lia. Qed.

Lemma ToUint32_wrap_low x : - 2 ^ 32 <= x < 0 -> JS.ToUint32 x = x + 2 ^ 32.
Proof. intros Hx. apply ToUint32_eq with (k := 1); lia. Qed.

Lemma ToInt32_of_u32 x :
  0 <= x < 2 ^ 32 -> JS.ToInt32 x = if x <? 2 ^ 31 then x else x - 2 ^ 32.
Proof.
  intros Hx. unfold JS.ToInt32. rewrite Z.mod_small by lia. reflexivity.
Qed.

Lemma ToInt32_ToUint32 x : JS.ToInt32 (JS.ToUint32 x) = JS.ToInt32 x.
Proof. unfold JS.ToInt32, JS.ToUint32. rewrite Z.mod_mod by lia. reflexivity. Qed.

Lemma ToUint32_ToInt32 x : JS.ToUint32 (JS.ToInt32 x) = JS.ToUint32 x.
Proof.
  unfold JS.ToInt32, JS.ToUint32.
  destruct (x mod 2 ^ 32 <? 2 ^ 31); [apply Z.mod_mod; lia|].
  replace (x mod 2 ^ 32 - 2 ^ 32) with (x mod 2 ^ 32 + (-1) * 2 ^ 32) by lia.
  rewrite Z.mod_add by lia. apply Z.mod_mod. lia.
Qed.

Lemma ToUint32_mul_l x y : JS.ToUint32 (JS.ToInt32 x * y) = JS.ToUint32 (x * y).
Proof.
  unfold JS.ToUint32 at 1. rewrite <- Z.mul_mod_idemp_l by lia.
  change (JS.ToInt32 x mod 2 ^ 32) with (JS.ToUint32 (JS.ToInt32 x)).
  rewrite ToUint32_ToInt32. unfold JS.ToUint32.
  apply Z.mul_mod_idemp_l. lia.
Qed.

(** Bit 31 of the value that [(e >>> 31) & 1] extracts. *)
Lemma ushr_31_and_1 e : (e >>> 31) .& 1 = Z.b2z (Z.testbit e 31).
Proof. apply ushr_and_1. lia. Qed.

(** The masks [& 0x1F], [& 0x0F] and the like reduce modulo a power of 2. *)
Lemma and_0x1F x : x .& 0x1F = x mod 32.
Proof. apply (and_range_mask x 5). lia. Qed.

Lemma count_and_0x1F x : JS.count (x .& 0x1F) = x mod 32.
Proof.
  rewrite and_0x1F. unfold JS.count. apply Z.mod_mod. lia.
Qed.

Lemma and_1_testbit x : x .& 1 = Z.b2z (Z.testbit x 0).
Proof.
  rewrite <- (ushr_and_1 x 0) by lia. rewrite ushr_0.
  unfold JS.and. rewrite ToInt32_ToUint32. reflexivity.
Qed.

Lemma b2z_testbit_0 (b : bool) : Z.testbit (Z.b2z b) 0 = b.
Proof. destruct b; reflexivity. Qed.

Lemma b2z_testbit_high (b : bool) n : 0 < n -> Z.testbit (Z.b2z b) n = false.
Proof.
  intros Hn. destruct b; cbn [Z.b2z]; [|apply Z.bits_0].
  destruct n; try lia. reflexivity.
Qed.

Lemma or_0 a : a .| 0 = JS.ToInt32 a.
Proof. unfold JS.or. change (JS.ToInt32 0) with 0. apply Z.lor_0_r. Qed.


Section ALUProperties.
Context {M : Type} `{MI : MemoryInterface M}.
Implicit Types s : CPU M.

(** ** Flags of [add], [addc], [sub] and [subc] *)

Lemma flagV_add_bits (a b res : Z) :
  ((.~ (a .^ b) .& (a .^ res)) >>> 31) .& 1 =
  Z.b2z (negb (xorb (Z.testbit a 31) (Z.testbit b 31)) &&
         xorb (Z.testbit a 31) (Z.testbit res 31)).
Proof.
  rewrite ushr_31_and_1, and_testbit, not_testbit, !xor_testbit by lia.
  reflexivity.
Qed.

Lemma flagV_sub_bits (a b res : Z) :
  (((a .^ b) .& .~ (res .^ b)) >>> 31) .& 1 =
  Z.b2z (xorb (Z.testbit a 31) (Z.testbit b 31) &&
         negb (xorb (Z.testbit res 31) (Z.testbit b 31))).
Proof.
  rewrite ushr_31_and_1, and_testbit, not_testbit, !xor_testbit by lia.
  reflexivity.
Qed.

(** The states that [add] ... [subc] return, field by field. *)
Lemma add_fields (a b : Z) s :
  let ua := JS.ToUint32 a in
  let ub := JS.ToUint32 b in
  let res := JS.ToUint32 (ua + ub) in
  fst (add a b true s) = res /\
  flagN (snd (add a b true s)) = Z.b2z (2 ^ 31 <=? res) /\
  flagZ (snd (add a b true s)) = (if res =? 0 then 1 else 0) /\
  flagC (snd (add a b true s)) = (if 2 ^ 32 <=? ua + ub then 1 else 0) /\
  flagV (snd (add a b true s)) =
    Z.b2z (negb (xorb (2 ^ 31 <=? ua) (2 ^ 31 <=? ub)) &&
           xorb (2 ^ 31 <=? ua) (2 ^ 31 <=? res)).
Proof.
  intros ua ub res. destruct s. unfold add, updateBasicFlags. cbv zeta.
  cpu_fields. rewrite !ushr_0, !ToUint32_idem.
  fold ua ub res. rewrite flagV_add_bits, ushr_31_and_1.
  rewrite !u32_testbit_31 by apply ToUint32_range.
  repeat split.
  destruct (Z.gtb_spec ub (0xFFFFFFFF - ua)), (Z.leb_spec (2 ^ 32) (ua + ub));
    lia || reflexivity.
Qed.

Lemma addc_fields (a b : Z) s :
  let ua := JS.ToUint32 a in
  let ub := JS.ToUint32 b in
  let res := JS.ToUint32 (ua + ub + flagC s) in
  fst (addc a b true s) = res /\
  flagN (snd (addc a b true s)) = Z.b2z (2 ^ 31 <=? res) /\
  flagZ (snd (addc a b true s)) = (if res =? 0 then 1 else 0) /\
  flagC (snd (addc a b true s)) =
    (if 2 ^ 32 <=? ua + ub + flagC s then 1 else 0) /\
  flagV (snd (addc a b true s)) =
    Z.b2z (negb (xorb (2 ^ 31 <=? ua) (2 ^ 31 <=? ub)) &&
           xorb (2 ^ 31 <=? ua) (2 ^ 31 <=? res)).
Proof.
  cbv zeta. destruct s. unfold addc, updateBasicFlags. cbv zeta.
  cpu_fields. rewrite !ushr_0, !ToUint32_idem.
  rewrite flagV_add_bits, ushr_31_and_1.
  rewrite !u32_testbit_31 by apply ToUint32_range.
  repeat split.
  match goal with
  | |- (if ?x >? ?y then _ else _) = (if ?u <=? ?v then _ else _) =>
      destruct (Z.gtb_spec x y), (Z.leb_spec u v); lia || reflexivity
  end.
Qed.

Lemma sub_fields (a b : Z) s :
  let ua := JS.ToUint32 a in
  let ub := JS.ToUint32 b in
  let res := JS.ToUint32 (ua - ub) in
  fst (sub a b true s) = res /\
  flagN (snd (sub a b true s)) = Z.b2z (2 ^ 31 <=? res) /\
  flagZ (snd (sub a b true s)) = (if res =? 0 then 1 else 0) /\
  flagC (snd (sub a b true s)) = (if ub <=? ua then 1 else 0) /\
  flagV (snd (sub a b true s)) =
    Z.b2z (xorb (2 ^ 31 <=? ua) (2 ^ 31 <=? ub) &&
           negb (xorb (2 ^ 31 <=? res) (2 ^ 31 <=? ub))).
Proof.
  intros ua ub res. destruct s. unfold sub, updateBasicFlags. cbv zeta.
  cpu_fields. rewrite !ushr_0, !ToUint32_idem.
  fold ua ub res. rewrite flagV_sub_bits, ushr_31_and_1.
  rewrite !u32_testbit_31 by apply ToUint32_range.
  repeat split.
  destruct (Z.geb_spec ua ub), (Z.leb_spec ub ua); lia || reflexivity.
Qed.

Lemma subc_fields (a b : Z) s :
  let ua := JS.ToUint32 a in
  let ub := JS.ToUint32 b in
  let borrow := if flagC s =? 0 then 1 else 0 in
  let res := JS.ToUint32 (ua - ub - borrow) in
  fst (subc a b true s) = res /\
  flagN (snd (subc a b true s)) = Z.b2z (2 ^ 31 <=? res) /\
  flagZ (snd (subc a b true s)) = (if res =? 0 then 1 else 0) /\
  flagC (snd (subc a b true s)) = (if ub + borrow <=? ua then 1 else 0) /\
  flagV (snd (subc a b true s)) =
    Z.b2z (xorb (2 ^ 31 <=? ua) (2 ^ 31 <=? ub) &&
           negb (xorb (2 ^ 31 <=? res) (2 ^ 31 <=? ub))).
Proof.
  cbv zeta. destruct s. unfold subc, updateBasicFlags.
  cbv zeta. cpu_fields. rewrite !ushr_0, !ToUint32_idem.
  rewrite flagV_sub_bits, ushr_31_and_1.
  rewrite !u32_testbit_31 by apply ToUint32_range.
  repeat split.
  match goal with
  | |- (if ?x >=? ?y then _ else _) = (if ?u <=? ?v then _ else _) =>
      destruct (Z.geb_spec x y), (Z.leb_spec u v); lia || reflexivity
  end.
Qed.


(** ** Multi-word arithmetic *)

(** [add] on the low words followed by [addc] on the high words. *)
Lemma add_then_addc (al ah bl bh : Z) s :
  u32 al -> u32 ah -> u32 bl -> u32 bh ->
  let low := add al bl true s in
  let high := addc ah bh true (snd low) in
  let x := ah * 2 ^ 32 + al in
  let y := bh * 2 ^ 32 + bl in
  fst high * 2 ^ 32 + fst low = (x + y) mod 2 ^ 64 /\
  flagC (snd high) = (if 2 ^ 64 <=? x + y then 1 else 0).
Proof.
  unfold u32. intros Hal Hah Hbl Hbh. cbv zeta.
  destruct (addc_fields ah bh (snd (add al bl true s)))
    as (-> & _ & _ & -> & _).
  destruct (add_fields al bl s) as (-> & _ & _ & -> & _).
  rewrite !(ToUint32_small al), !(ToUint32_small ah), !(ToUint32_small bl),
    !(ToUint32_small bh) by lia.
  destruct (Z.leb_spec (2 ^ 32) (al + bl)) as [Hc|Hc].
  - rewrite (ToUint32_wrap_high (al + bl)) by lia.
    destruct (Z.leb_spec (2 ^ 32) (ah + bh + 1)) as [Hd|Hd].
    + rewrite (ToUint32_wrap_high (ah + bh + 1)) by lia.
      destruct (Z.leb_spec (2 ^ 64) (ah * 2 ^ 32 + al + (bh * 2 ^ 32 + bl)));
        [|lia].
      split; [|reflexivity].
      apply Z.mod_unique with (q := 1); lia.
    + rewrite (ToUint32_small (ah + bh + 1)) by lia.
      destruct (Z.leb_spec (2 ^ 64) (ah * 2 ^ 32 + al + (bh * 2 ^ 32 + bl)));
        [lia|].
      split; [|reflexivity].
      apply Z.mod_unique with (q := 0); lia.
  - rewrite (ToUint32_small (al + bl)) by lia.
    destruct (Z.leb_spec (2 ^ 32) (ah + bh + 0)) as [Hd|Hd].
    + rewrite (ToUint32_wrap_high (ah + bh + 0)) by lia.
      destruct (Z.leb_spec (2 ^ 64) (ah * 2 ^ 32 + al + (bh * 2 ^ 32 + bl)));
        [|lia].
      split; [|reflexivity].
      apply Z.mod_unique with (q := 1); lia.
    + rewrite (ToUint32_small (ah + bh + 0)) by lia.
      destruct (Z.leb_spec (2 ^ 64) (ah * 2 ^ 32 + al + (bh * 2 ^ 32 + bl)));
        [lia|].
      split; [|reflexivity].
      apply Z.mod_unique with (q := 0); lia.
Qed.

(** [sub] on the low words followed by [subc] on the high words. *)
Lemma sub_then_subc (al ah bl bh : Z) s :
  u32 al -> u32 ah -> u32 bl -> u32 bh ->
  let low := sub al bl true s in
  let high := subc ah bh true (snd low) in
  let x := ah * 2 ^ 32 + al in
  let y := bh * 2 ^ 32 + bl in
  fst high * 2 ^ 32 + fst low = (x - y) mod 2 ^ 64 /\
  flagC (snd high) = (if y <=? x then 1 else 0).
Proof.
  unfold u32. intros Hal Hah Hbl Hbh. cbv zeta.
  destruct (subc_fields ah bh (snd (sub al bl true s)))
    as (-> & _ & _ & -> & _).
  destruct (sub_fields al bl s) as (-> & _ & _ & -> & _).
  rewrite !(ToUint32_small al), !(ToUint32_small ah), !(ToUint32_small bl),
    !(ToUint32_small bh) by lia.
  destruct (Z.leb_spec bl al) as [Hc|Hc]; cbn [Z.eqb].
  - rewrite (ToUint32_small (al - bl)) by lia.
    destruct (Z.leb_spec (bh + 0) ah) as [Hd|Hd].
    + rewrite (ToUint32_small (ah - bh - 0)) by lia.
      destruct (Z.leb_spec (bh * 2 ^ 32 + bl) (ah * 2 ^ 32 + al)); [|lia].
      split; [|reflexivity].
      apply Z.mod_unique with (q := 0); lia.
    + rewrite (ToUint32_wrap_low (ah - bh - 0)) by lia.
      destruct (Z.leb_spec (bh * 2 ^ 32 + bl) (ah * 2 ^ 32 + al)); [lia|].
      split; [|reflexivity].
      apply Z.mod_unique with (q := -1); lia.
  - rewrite (ToUint32_wrap_low (al - bl)) by lia.
    destruct (Z.leb_spec (bh + 1) ah) as [Hd|Hd].
    + rewrite (ToUint32_small (ah - bh - 1)) by lia.
      destruct (Z.leb_spec (bh * 2 ^ 32 + bl) (ah * 2 ^ 32 + al)); [|lia].
      split; [|reflexivity].
      apply Z.mod_unique with (q := 0); lia.
    + rewrite (ToUint32_wrap_low (ah - bh - 1)) by lia.
      destruct (Z.leb_spec (bh * 2 ^ 32 + bl) (ah * 2 ^ 32 + al)); [lia|].
      split; [|reflexivity].
      apply Z.mod_unique with (q := -1); lia.
Qed.

(** X6: the C flag chains 32-bit operations into 64-bit ones.
    [add] on the low words followed by [addc] on the high words gives the
    two words of the sum modulo 2^64 and leaves its carry out in C; [sub]
    followed by [subc] gives the two words of the difference modulo 2^64 and
    leaves C at 1 exactly when the first operand is not below the second. *)
Theorem carry_chains_to_64_bits (al ah bl bh : Z) s :
  u32 al -> u32 ah -> u32 bl -> u32 bh ->
  let x := ah * 2 ^ 32 + al in
  let y := bh * 2 ^ 32 + bl in
  let low := add al bl true s in
  let high := addc ah bh true (snd low) in
  let low' := sub al bl true s in
  let high' := subc ah bh true (snd low') in
  fst high * 2 ^ 32 + fst low = (x + y) mod 2 ^ 64 /\
  flagC (snd high) = (if 2 ^ 64 <=? x + y then 1 else 0) /\
  fst high' * 2 ^ 32 + fst low' = (x - y) mod 2 ^ 64 /\
  flagC (snd high') = (if y <=? x then 1 else 0).
Proof.
  intros Hal Hah Hbl Hbh. cbv zeta.
  destruct (add_then_addc al ah bl bh s Hal Hah Hbl Hbh) as [H1 H2].
  destruct (sub_then_subc al ah bl bh s Hal Hah Hbl Hbh) as [H3 H4].
  auto.
Qed.

End ALUProperties.


Section FlagMeaning.
Context {M : Type} `{MI : MemoryInterface M}.
Implicit Types s : CPU M.

Ltac split_u32 x u :=
  let H := fresh "H" in
  pose proof (ToUint32_range x) as H;
  rewrite <- (ToInt32_ToUint32 x);
  rewrite (ToInt32_of_u32 (JS.ToUint32 x)) by exact H;
  generalize dependent (JS.ToUint32 x); intros u ?;
  destruct (Z.ltb_spec u (2 ^ 31)).

Ltac u32_of e :=
  first [ rewrite (ToUint32_small e) by lia
        | rewrite (ToUint32_wrap_high e) by lia
        | rewrite (ToUint32_wrap_low e) by lia ].

Ltac decide_comparisons :=
  repeat match goal with
         | |- context [if ?x <=? ?y then _ else _] => destruct (Z.leb_spec x y)
         | |- context [if ?x =? ?y then _ else _] => destruct (Z.eqb_spec x y)
         | |- context [Z.b2z (?x <=? ?y)] => destruct (Z.leb_spec x y)
         end;
  cbn [Z.b2z xorb negb andb orb Z.eqb Pos.eqb];
  repeat match goal with
         | |- context [?x <=? ?y] => destruct (Z.leb_spec x y)
         | |- context [?x <? ?y] => destruct (Z.ltb_spec x y)
         | |- context [?x =? ?y] => destruct (Z.eqb_spec x y)
         end;
  cbn; try reflexivity; try lia.

(** X4: after [add] and [sub] with flag update the V flag is 1
    exactly when the operation overflows on the operands read as signed
    32-bit numbers. *)
Theorem overflow_flag_is_signed_overflow (a b : Z) s :
  let sa := JS.ToInt32 a in
  let sb := JS.ToInt32 b in
  flagV (snd (add a b true s)) =
    (if (- 2 ^ 31 <=? sa + sb) && (sa + sb <? 2 ^ 31) then 0 else 1) /\
  flagV (snd (sub a b true s)) =
    (if (- 2 ^ 31 <=? sa - sb) && (sa - sb <? 2 ^ 31) then 0 else 1).
Proof.
  cbv zeta.
  destruct (add_fields a b s) as (_ & _ & _ & _ & ->).
  destruct (sub_fields a b s) as (_ & _ & _ & _ & ->).
  split_u32 a ua; split_u32 b ub;
    (split;
     [ destruct (Z.leb_spec (2 ^ 32) (ua + ub)); u32_of (ua + ub)
     | destruct (Z.leb_spec ub ua); u32_of (ua - ub) ]);
    decide_comparisons.
Qed.

(** X5: the flags that [sub(a, b, true)] leaves (the [cmp]
    instruction) make the condition codes decide the comparison of [a] and
    [b]: codes 0 to 5 compare them as unsigned numbers, codes 6 to 9 as
    signed numbers. *)
Theorem compare_then_condition (a b : Z) s :
  let s' := snd (sub a b true s) in
  let ua := JS.ToUint32 a in
  let ub := JS.ToUint32 b in
  let sa := JS.ToInt32 a in
  let sb := JS.ToInt32 b in
  conditional 0x00 s' = (ub <=? ua) /\
  conditional 0x01 s' = (ua <? ub) /\
  conditional 0x02 s' = (ub <? ua) /\
  conditional 0x03 s' = (ua <=? ub) /\
  conditional 0x04 s' = (ua =? ub) /\
  conditional 0x05 s' = negb (ua =? ub) /\
  conditional 0x06 s' = (sb <? sa) /\
  conditional 0x07 s' = (sa <=? sb) /\
  conditional 0x08 s' = (sb <=? sa) /\
  conditional 0x09 s' = (sa <? sb).
Proof.
  cbv zeta.
  destruct (sub_fields a b s) as (_ & HN & HZ & HC & HV).
  unfold conditional. cbn [JS.and JS.ToInt32 Z.land Z.modulo Z.ltb].
  cbv zeta.
  change (0 .& 15) with 0. change (1 .& 15) with 1. change (2 .& 15) with 2.
  change (3 .& 15) with 3. change (4 .& 15) with 4. change (5 .& 15) with 5.
  change (6 .& 15) with 6. change (7 .& 15) with 7. change (8 .& 15) with 8.
  change (9 .& 15) with 9. cbv iota.
  rewrite HN, HZ, HC, HV. clear HN HZ HC HV.
  split_u32 a ua; split_u32 b ub;
    (destruct (Z.leb_spec ub ua); u32_of (ua - ub));
    repeat split; decide_comparisons.
Qed.

End FlagMeaning.


Section ShiftProperties.
Context {M : Type} `{MI : MemoryInterface M}.
Implicit Types s : CPU M.

(** X7: [neg(a)] is [sub(0, a)]: the same result and, with flag
    update, the same N, Z, C and V. *)
Theorem neg_is_sub_from_zero (a : Z) (updateFlags : bool) s :
  neg a updateFlags s = sub 0 a updateFlags s.
Proof.
  destruct s. unfold neg, sub, updateBasicFlags. cbv zeta.
  change (0 >>> 0) with 0.
  destruct updateFlags; [|reflexivity].
  cpu_fields. rewrite flagV_sub_bits, !ushr_0, !ToUint32_idem.
  rewrite Z.bits_0, xorb_false_l.
  rewrite !u32_testbit_31 by apply ToUint32_range.
  pose proof (ToUint32_range a) as Ha.
  set (ua := JS.ToUint32 a) in *.
  assert (HC : (if ua =? 0 then 1 else 0) = (if 0 >=? ua then 1 else 0)).
  { destruct (Z.eqb_spec ua 0), (Z.geb_spec 0 ua); lia || reflexivity. }
  assert (HV : (if ua =? 2147483648 then 1 else 0) =
               Z.b2z ((2 ^ 31 <=? ua) &&
                      negb (xorb (2 ^ 31 <=? JS.ToUint32 (0 - ua))
                                 (2 ^ 31 <=? ua)))).
  { destruct (Z.eqb_spec ua 0) as [->|].
    - reflexivity.
    - rewrite (ToUint32_wrap_low (0 - ua)) by lia.
      destruct (Z.eqb_spec ua 2147483648), (Z.leb_spec (2 ^ 31) ua),
        (Z.leb_spec (2 ^ 31) (0 - ua + 2 ^ 32)); cbn; lia || reflexivity. }
  rewrite HC, HV. reflexivity.
Qed.

(** ** Shifts *)

Lemma shift_amount sa : 0 <= sa mod 32 < 32.
Proof. apply Z.mod_pos_bound. lia. Qed.

(** The values of the three shifts. *)
Lemma shift_values (a sa : Z) (updateFlags : bool) s :
  let k := sa mod 32 in
  fst (sll a sa updateFlags s) = (JS.ToUint32 a * 2 ^ k) mod 2 ^ 32 /\
  fst (srl a sa updateFlags s) = JS.ToUint32 a / 2 ^ k /\
  fst (sra a sa updateFlags s) = JS.ToUint32 (JS.ToInt32 a / 2 ^ k).
Proof.
  cbv zeta. pose proof (shift_amount sa) as Hk.
  pose proof (ToUint32_range a) as Ha.
  assert (Hp : 0 < 2 ^ (sa mod 32)) by (apply Z.pow_pos_nonneg; lia).
  repeat split.
  - unfold sll. cbv zeta. destruct updateFlags; cbn [fst].
    all: unfold JS.shl; rewrite count_and_0x1F, ushr_0, ToUint32_ToInt32.
    all: rewrite Z.shiftl_mul_pow2, !ushr_0 by lia.
    all: rewrite ToUint32_mul_l; reflexivity.
  - unfold srl. cbv zeta. destruct updateFlags; cbn [fst].
    all: rewrite !ushr_0.
    all: unfold JS.ushr; rewrite count_and_0x1F, ToUint32_idem.
    all: rewrite Z.shiftr_div_pow2 by lia.
    all: apply ToUint32_small.
    all: split; [apply Z.div_pos; lia|].
    all: apply Z.le_lt_trans with (m := JS.ToUint32 a); [|lia].
    all: apply Z.div_le_upper_bound; nia.
  - unfold sra. cbv zeta. destruct updateFlags; cbn [fst].
    all: rewrite !ushr_0.
    all: unfold JS.sar; rewrite count_and_0x1F.
    all: rewrite Z.shiftr_div_pow2 by lia.
    all: unfold JS.or; change (JS.ToInt32 0) with 0; rewrite Z.lor_0_r.
    all: rewrite (ToInt32_small (JS.ToInt32 _)) by apply ToInt32_range.
    all: rewrite ToInt32_ToUint32; reflexivity.
Qed.


(** The C flag after the three shifts. *)
Lemma shift_carry (a sa : Z) s :
  let k := sa mod 32 in
  let ua := JS.ToUint32 a in
  flagC (snd (sll a sa true s)) =
    (if k =? 0 then flagC s else Z.b2z (Z.testbit ua (32 - k))) /\
  flagC (snd (srl a sa true s)) =
    (if k =? 0 then flagC s else Z.b2z (Z.testbit ua (k - 1))) /\
  flagC (snd (sra a sa true s)) =
    (if k =? 0 then flagC s else Z.b2z (Z.testbit ua (k - 1))).
Proof.
  cbv zeta. pose proof (shift_amount sa) as Hk.
  destruct s. unfold sll, srl, sra, updateBasicFlags. cbv zeta.
  rewrite !and_0x1F.
  destruct (Z.eqb_spec (sa mod 32) 0) as [E|E].
  - rewrite E. cbn [Z.gtb Z.compare]. cpu_fields. repeat split.
  - destruct (Z.gtb_spec (sa mod 32) 0); [|lia].
    cpu_fields. rewrite !ushr_and_1, !ushr_0 by lia. repeat split.
Qed.

(** X8: the shifts use the low five bits of the shift amount,
    [k].  [sll] multiplies by [2^k] modulo 2^32, [srl] divides the unsigned
    value by [2^k] and [sra] the signed value, both rounding down.  With
    flag update a shift by a non-zero [k] leaves in C the last bit shifted
    out, and a shift by zero leaves C as it was. *)
Theorem shifts_multiply_divide_and_carry (a sa : Z) s :
  let k := sa mod 32 in
  let ua := JS.ToUint32 a in
  fst (sll a sa true s) = (ua * 2 ^ k) mod 2 ^ 32 /\
  fst (srl a sa true s) = ua / 2 ^ k /\
  fst (sra a sa true s) = JS.ToUint32 (JS.ToInt32 a / 2 ^ k) /\
  flagC (snd (sll a sa true s)) =
    (if k =? 0 then flagC s else Z.b2z (Z.testbit ua (32 - k))) /\
  flagC (snd (srl a sa true s)) =
    (if k =? 0 then flagC s else Z.b2z (Z.testbit ua (k - 1))) /\
  flagC (snd (sra a sa true s)) =
    (if k =? 0 then flagC s else Z.b2z (Z.testbit ua (k - 1))) /\
  forall updateFlags,
    fst (sll a sa updateFlags s) = fst (sll a sa true s) /\
    fst (srl a sa updateFlags s) = fst (srl a sa true s) /\
    fst (sra a sa updateFlags s) = fst (sra a sa true s).
Proof.
  cbv zeta.
  destruct (shift_values a sa true s) as (V1 & V2 & V3).
  destruct (shift_carry a sa s) as (C1 & C2 & C3).
  repeat (split; [assumption|]).
  intros updateFlags.
  destruct (shift_values a sa updateFlags s) as (W1 & W2 & W3).
  rewrite V1, V2, V3, W1, W2, W3. auto.
Qed.

(** ** Rotates *)

Lemma ror_testbit (a sa : Z) (updateFlags : bool) s n :
  0 <= n < 32 ->
  Z.testbit (fst (ror a sa updateFlags s)) n =
  Z.testbit a ((n + sa mod 32) mod 32).
Proof.
  intros Hn. pose proof (shift_amount sa) as Hk.
  unfold ror. cbv zeta. rewrite !and_0x1F, !ushr_0.
  destruct (Z.eqb_spec (sa mod 32) 0) as [E|E].
  - cbn [fst]. rewrite E, Z.add_0_r, Z.mod_small, ToUint32_testbit by lia.
    reflexivity.
  - assert (Hres :
      Z.testbit
        (JS.ToUint32
           ((JS.ToUint32 a >>> (sa mod 32)) .|
            (JS.ToUint32 a << (32 - sa mod 32)))) n =
      Z.testbit a ((n + sa mod 32) mod 32)).
    { rewrite ToUint32_testbit, or_testbit, ushr_testbit, shl_testbit by lia.
      destruct (Z.ltb_spec (n + sa mod 32) 32),
        (Z.leb_spec (32 - sa mod 32) n); try lia.
      - rewrite orb_false_r, (Z.mod_small (n + sa mod 32)), ToUint32_testbit
          by lia.
        reflexivity.
      - rewrite orb_false_l, ToUint32_testbit by lia. f_equal.
        apply Z.mod_unique with (q := 1); lia. }
    destruct updateFlags; cbn [fst]; exact Hres.
Qed.

Lemma rol_testbit (a sa : Z) (updateFlags : bool) s n :
  0 <= n < 32 ->
  Z.testbit (fst (rol a sa updateFlags s)) n =
  Z.testbit a ((n - sa mod 32) mod 32).
Proof.
  intros Hn. pose proof (shift_amount sa) as Hk.
  unfold rol. cbv zeta. rewrite !and_0x1F, !ushr_0.
  destruct (Z.eqb_spec (sa mod 32) 0) as [E|E].
  - cbn [fst]. rewrite E, Z.sub_0_r, Z.mod_small, ToUint32_testbit by lia.
    reflexivity.
  - assert (Hres :
      Z.testbit
        (JS.ToUint32
           ((JS.ToUint32 a << (sa mod 32)) .|
            (JS.ToUint32 a >>> (32 - sa mod 32)))) n =
      Z.testbit a ((n - sa mod 32) mod 32)).
    { rewrite ToUint32_testbit, or_testbit, ushr_testbit, shl_testbit by lia.
      destruct (Z.ltb_spec (n + (32 - sa mod 32)) 32),
        (Z.leb_spec (sa mod 32) n); try lia.
      - rewrite orb_false_l, ToUint32_testbit by lia. f_equal.
        apply Z.mod_unique with (q := -1); lia.
      - rewrite orb_false_r, (Z.mod_small (n - sa mod 32)), ToUint32_testbit
          by lia.
        reflexivity. }
    destruct updateFlags; cbn [fst]; exact Hres.
Qed.

Lemma ror_range (a sa : Z) (updateFlags : bool) s :
  0 <= fst (ror a sa updateFlags s) < 2 ^ 32.
Proof.
  unfold ror. cbv zeta.
  destruct (_ =? 0); [|destruct updateFlags]; cbn [fst]; apply ToUint32_range.
Qed.

Lemma rol_range (a sa : Z) (updateFlags : bool) s :
  0 <= fst (rol a sa updateFlags s) < 2 ^ 32.
Proof.
  unfold rol. cbv zeta.
  destruct (_ =? 0); [|destruct updateFlags]; cbn [fst]; apply ToUint32_range.
Qed.

(** X9: [ror] and [rol] by the same amount are inverse to each
    other on 32-bit values, and [ror] moves bit [(n + k) mod 32] of the
    operand to bit [n], [k] being the low five bits of the amount. *)
Theorem rotations_are_inverse (a sa : Z) (f f' : bool) s s' :
  fst (ror (fst (rol a sa f s)) sa f' s') = JS.ToUint32 a /\
  fst (rol (fst (ror a sa f s)) sa f' s') = JS.ToUint32 a /\
  forall n, 0 <= n < 32 ->
    Z.testbit (fst (ror a sa f s)) n = Z.testbit a ((n + sa mod 32) mod 32).
Proof.
  pose proof (shift_amount sa) as Hk.
  split; [|split].
  - apply u32_bits_inj; [apply ror_range | apply ToUint32_range |].
    intros n Hn.
    rewrite ror_testbit, rol_testbit, ToUint32_testbit
      by (lia || apply Z.mod_pos_bound; lia).
    f_equal. rewrite Zminus_mod_idemp_l.
    replace (n + sa mod 32 - sa mod 32) with n by lia.
    apply Z.mod_small. lia.
  - apply u32_bits_inj; [apply rol_range | apply ToUint32_range |].
    intros n Hn.
    rewrite rol_testbit, ror_testbit, ToUint32_testbit
      by (lia || apply Z.mod_pos_bound; lia).
    f_equal. rewrite Zplus_mod_idemp_l.
    replace (n - sa mod 32 + sa mod 32) with n by lia.
    apply Z.mod_small. lia.
  - intros n Hn. apply ror_testbit, Hn.
Qed.

(** X10: [rolc] and [rorc] rotate the 33-bit value formed by the
    operand and the C flag.  With flag update, [rorc] after [rolc] gives
    back the operand and the C flag. *)
Theorem rotate_through_carry_round_trip (a : Z) s :
  flag_bit (flagC s) ->
  let left := rolc a true s in
  let right := rorc (fst left) true (snd left) in
  fst right = JS.ToUint32 a /\ flagC (snd right) = flagC s.
Proof.
  intros HC. cbv zeta.
  assert (Hc : flagC s .& 1 = Z.b2z (flagC s =? 1))
    by (destruct HC as [-> | ->]; reflexivity).
  assert (Hc' : flagC s = Z.b2z (flagC s =? 1))
    by (destruct HC as [-> | ->]; reflexivity).
  destruct s. unfold rolc, rorc, updateBasicFlags.
  cbv zeta. cpu_fields. cbn [flagC] in Hc, Hc'.
  rewrite Hc. rewrite ?ushr_and_1 by lia. rewrite ?and_1_testbit.
  rewrite !ushr_0, !ToUint32_idem.
  set (ua := JS.ToUint32 a).
  assert (Ha : 0 <= ua < 2 ^ 32) by apply ToUint32_range.
  split.
  - apply u32_bits_inj; [apply ToUint32_range | exact Ha |].
    intros n Hn.
    rewrite ToUint32_testbit, or_testbit, ushr_testbit by lia.
    rewrite (shl_testbit _ 31 n) by lia.
    destruct (Z.ltb_spec (n + 1) 32), (Z.leb_spec 31 n); try lia.
    + rewrite orb_false_r, ToUint32_testbit, or_testbit, shl_testbit by lia.
      destruct (Z.leb_spec 1 (n + 1)); [|lia].
      replace (n + 1 - 1) with n by lia.
      rewrite b2z_testbit_high, orb_false_r by lia. reflexivity.
    + replace n with 31 by lia. cbn [orb Z.sub Z.pos_sub].
      rewrite !b2z_testbit_0. reflexivity.
  - rewrite ToUint32_testbit, or_testbit, shl_testbit by lia.
    cbn [Z.leb Z.compare orb]. rewrite b2z_testbit_0. symmetry. exact Hc'.
Qed.

End ShiftProperties.


(** ** Sign extension *)

Lemma testbit_top m k :
  0 <= k -> 0 <= m < 2 ^ (k + 1) -> Z.testbit m k = (2 ^ k <=? m).
Proof.
  intros Hk Hm.
  replace (2 ^ (k + 1)) with (2 * 2 ^ k) in Hm
    by (rewrite Z.pow_add_r by lia; lia).
  assert (0 < 2 ^ k) by (apply Z.pow_pos_nonneg; lia).
  assert (H' : Z.b2z (Z.testbit m k) = Z.b2z (2 ^ k <=? m)).
  { rewrite Z.testbit_spec' by lia.
    destruct (Z.leb_spec (2 ^ k) m).
    - replace (m / 2 ^ k) with 1; [reflexivity|].
      apply Z.div_unique with (r := m - 2 ^ k); lia.
    - rewrite Z.div_small by lia. reflexivity. }
  destruct (Z.testbit m k), (2 ^ k <=? m); cbn in H'; congruence.
Qed.

Lemma lor_sign m b : 0 <= b -> 0 <= m < 2 ^ b -> Z.lor m (- 2 ^ b) = m - 2 ^ b.
Proof.
  intros Hb Hm.
  rewrite <- (Z.lnot_involutive (Z.lor m (- 2 ^ b))).
  rewrite Z.lnot_lor.
  replace (Z.lnot (- 2 ^ b)) with (Z.ones b)
    by (rewrite Z.ones_equiv; unfold Z.lnot; lia).
  rewrite Z.land_ones by lia.
  unfold Z.lnot at 2.
  replace (Z.pred (- m) mod 2 ^ b) with (2 ^ b - 1 - m).
  - unfold Z.lnot. lia.
  - apply Z.mod_unique with (q := -1); lia.
Qed.

Lemma land_ToInt32_ones x b :
  0 <= b <= 32 -> Z.land (JS.ToInt32 x) (Z.ones b) = x mod 2 ^ b.
Proof.
  intros Hb. rewrite Z.land_ones by lia.
  assert (E : 2 ^ 32 = 2 ^ b * 2 ^ (32 - b))
    by (rewrite <- Z.pow_add_r by lia; f_equal; lia).
  assert (0 < 2 ^ b) by (apply Z.pow_pos_nonneg; lia).
  assert (0 < 2 ^ (32 - b)) by (apply Z.pow_pos_nonneg; lia).
  unfold JS.ToInt32.
  destruct (x mod 2 ^ 32 <? 2 ^ 31).
  - rewrite E, Z.rem_mul_r by lia.
    rewrite Z.mul_comm, Z.mod_add by lia. apply Z.mod_mod. lia.
  - replace (x mod 2 ^ 32 - 2 ^ 32)
      with (x mod 2 ^ 32 + (- 2 ^ (32 - b)) * 2 ^ b) by lia.
    rewrite Z.mod_add by lia.
    rewrite E, Z.rem_mul_r by lia.
    rewrite Z.mul_comm, Z.mod_add by lia. apply Z.mod_mod. lia.
Qed.

Lemma sign_extend_steps m b neg :
  1 <= b <= 31 -> 0 <= m < 2 ^ b -> JS.ToInt32 neg = - 2 ^ b ->
  (if JS.truthy (m .& (1 << (b - 1))) then m .| neg else m) >>> 0 =
  JS.ToUint32 (if m <? 2 ^ (b - 1) then m else m - 2 ^ b).
Proof.
  intros Hb Hm Hneg.
  assert (2 ^ b <= 2 ^ 31) by (apply Z.pow_le_mono_r; lia).
  unfold JS.truthy. rewrite and_shl_1_nonzero by lia.
  rewrite testbit_top by (replace (b - 1 + 1) with b by lia; lia).
  rewrite ushr_0.
  destruct (Z.leb_spec (2 ^ (b - 1)) m), (Z.ltb_spec m (2 ^ (b - 1)));
    try lia; try reflexivity.
  unfold JS.or. rewrite Hneg, (ToInt32_small m), lor_sign by lia.
  reflexivity.
Qed.

Section Extension.
Context {M : Type} `{MI : MemoryInterface M}.
Implicit Types s : CPU M.

(** The value of [signExtend]. *)
Lemma signExtend_value (x b : Z) :
  1 <= b ->
  signExtend x b =
  if 32 <=? b then JS.ToUint32 x else JS.ToUint32 (signed_low_bits x b).
Proof.
  intros Hb. unfold signExtend, signed_low_bits.
  destruct (Z.leb_spec 32 b); [reflexivity|]. cbv zeta.
  assert (Hmask : JS.ToInt32 ((1 << b) - 1) = Z.ones b).
  { unfold JS.shl, JS.count. rewrite (Z.mod_small b) by lia.
    change (JS.ToInt32 1) with 1. rewrite Z.shiftl_1_l, Z.ones_equiv.
    assert (2 ^ b <= 2 ^ 31) by (apply Z.pow_le_mono_r; lia).
    assert (0 < 2 ^ b) by (apply Z.pow_pos_nonneg; lia).
    destruct (Z.eq_dec b 31) as [->|].
    - reflexivity.
    - assert (2 ^ b <= 2 ^ 30) by (apply Z.pow_le_mono_r; lia).
      rewrite (ToInt32_small (2 ^ b)) by lia.
      apply ToInt32_small. lia. }
  assert (Hand : x .& ((1 << b) - 1) = x mod 2 ^ b).
  { unfold JS.and. rewrite Hmask. apply land_ToInt32_ones. lia. }
  rewrite Hand. apply sign_extend_steps.
  - lia.
  - apply Z.mod_pos_bound, Z.pow_pos_nonneg; lia.
  - unfold JS.shl, JS.count. rewrite (Z.mod_small b) by lia.
    change (JS.ToInt32 (-1)) with (-1).
    rewrite Z.shiftl_mul_pow2 by lia.
    assert (2 ^ b <= 2 ^ 31) by (apply Z.pow_le_mono_r; lia).
    assert (0 < 2 ^ b) by (apply Z.pow_pos_nonneg; lia).
    rewrite (ToInt32_small (-1 * 2 ^ b)) by lia.
    rewrite ToInt32_small by lia. lia.
Qed.

(** [extsb] and [extsh] against [signExtend], [extzb] and [extzh]. *)
Lemma extension_values (a : Z) (updateFlags : bool) s :
  fst (extsb a updateFlags s) = signExtend a 8 /\
  fst (extsh a updateFlags s) = signExtend a 16 /\
  fst (extzb a updateFlags s) = a mod 2 ^ 8 /\
  fst (extzh a updateFlags s) = a mod 2 ^ 16.
Proof.
  assert (Hlow : forall b, 0 <= b <= 31 -> (a .| 0) .& (2 ^ b - 1) = a mod 2 ^ b).
  { intros b Hb. unfold JS.and, JS.or. change (JS.ToInt32 0) with 0.
    rewrite Z.lor_0_r, (ToInt32_small (JS.ToInt32 a)) by apply ToInt32_range.
    assert (2 ^ b <= 2 ^ 31) by (apply Z.pow_le_mono_r; lia).
    assert (0 < 2 ^ b) by (apply Z.pow_pos_nonneg; lia).
    rewrite (ToInt32_small (2 ^ b - 1)) by lia.
    replace (2 ^ b - 1) with (Z.ones b) by (rewrite Z.ones_equiv; lia).
    apply land_ToInt32_ones. lia. }
  repeat split.
  - rewrite signExtend_value by lia.
    unfold extsb, signed_low_bits. cbv zeta. cbn [fst].
    change (32 <=? 8) with false. cbv iota.
    change 0xFF with (2 ^ 8 - 1). rewrite Hlow by lia.
    change 0x80 with (1 << (8 - 1)).
    apply sign_extend_steps; [lia | apply Z.mod_pos_bound; lia | reflexivity].
  - rewrite signExtend_value by lia.
    unfold extsh, signed_low_bits. cbv zeta. cbn [fst].
    change (32 <=? 16) with false. cbv iota.
    change 0xFFFF with (2 ^ 16 - 1). rewrite Hlow by lia.
    change 0x8000 with (1 << (16 - 1)).
    apply sign_extend_steps; [lia | apply Z.mod_pos_bound; lia | reflexivity].
  - unfold extzb. cbv zeta. cbn [fst]. apply (and_range_mask a 8). lia.
  - unfold extzh. cbv zeta. cbn [fst]. apply (and_range_mask a 16). lia.
Qed.

(** X3: [signExtend(x, b)] for [b] from 1 to 31 keeps the low [b]
    bits of [x] and returns, as an unsigned 32-bit number, the value they
    denote in two's complement; for [b] of 32 or more it returns [x] as an
    unsigned 32-bit number.  [extsb] and [extsh] return what [signExtend]
    returns for 8 and 16 bits, and [extzb] and [extzh] return the operand
    modulo 2^8 and 2^16. *)
Theorem sign_and_zero_extension (x b : Z) (updateFlags : bool) s :
  1 <= b ->
  signExtend x b =
    (if 32 <=? b then JS.ToUint32 x else JS.ToUint32 (signed_low_bits x b)) /\
  fst (extsb x updateFlags s) = signExtend x 8 /\
  fst (extsh x updateFlags s) = signExtend x 16 /\
  fst (extzb x updateFlags s) = x mod 2 ^ 8 /\
  fst (extzh x updateFlags s) = x mod 2 ^ 16.
Proof.
  intros Hb. split; [apply signExtend_value, Hb|].
  apply extension_values.
Qed.

End Extension.


Section BitProperties.
Context {M : Type} `{MI : MemoryInterface M}.
Implicit Types s : CPU M.

(** ** Single-bit operations *)

(** X11: the bit operations act on bit [k = bitIdx mod 32] alone:
    [bitset] sets it, [bitclr] clears it, [bittgl] inverts it, and every
    other bit of the 32-bit operand is kept; [bittst] leaves T equal to that
    bit and Z equal to its complement. *)
Theorem bit_operations_touch_one_bit (a bitIdx : Z) (updateFlags : bool) s :
  let k := bitIdx mod 32 in
  (forall n, 0 <= n < 32 ->
     Z.testbit (fst (bitset a bitIdx updateFlags s)) n =
       (if n =? k then true else Z.testbit a n) /\
     Z.testbit (fst (bitclr a bitIdx updateFlags s)) n =
       (if n =? k then false else Z.testbit a n) /\
     Z.testbit (fst (bittgl a bitIdx updateFlags s)) n =
       (if n =? k then negb (Z.testbit a n) else Z.testbit a n)) /\
  flagT (bittst a bitIdx s) = Z.b2z (Z.testbit a k) /\
  flagZ (bittst a bitIdx s) = Z.b2z (negb (Z.testbit a k)).
Proof.
  cbv zeta. pose proof (shift_amount bitIdx) as Hk.
  split.
  - intros n Hn. unfold bitset, bitclr, bittgl. cbv zeta. cbn [fst].
    rewrite !and_0x1F, !ushr_0, !ToUint32_testbit by lia.
    rewrite or_testbit, and_testbit, xor_testbit, not_testbit by lia.
    rewrite shl_1_testbit by lia.
    rewrite (Z.eqb_sym (bitIdx mod 32) n).
    destruct (n =? bitIdx mod 32), (Z.testbit a n); repeat split.
  - destruct s. unfold bittst. cbv zeta. cpu_fields.
    rewrite and_0x1F, and_shl_1_nonzero by lia.
    unfold JS.truthy. destruct (Z.testbit a (bitIdx mod 32)); split; reflexivity.
Qed.

(** ** Multiplication and division *)

Lemma split_64 x :
  x mod 2 ^ 32 + 2 ^ 32 * ((x / 2 ^ 32) mod 2 ^ 32) = x mod 2 ^ 64.
Proof.
  change (2 ^ 64) with (2 ^ 32 * 2 ^ 32). rewrite Z.rem_mul_r by lia.
  reflexivity.
Qed.

Lemma product_words res :
  (Z.land (Z.shiftr res 32) 0xFFFFFFFF >>> 0) * 2 ^ 32 +
  (Z.land res 0xFFFFFFFF >>> 0) = res mod 2 ^ 64.
Proof.
  change 0xFFFFFFFF with (Z.ones 32).
  rewrite !Z.land_ones, Z.shiftr_div_pow2, !ushr_0 by lia.
  rewrite !ToUint32_small by (apply Z.mod_pos_bound; lia).
  rewrite <- split_64. lia.
Qed.

(** X12: [execMulu] leaves in CEH:CEL the exact 64-bit product of the
    operands read as unsigned 32-bit numbers, and [execMul] the product of
    the operands read as signed 32-bit numbers, in 64-bit two's
    complement. *)
Theorem multiplication_fills_CEH_CEL (a b : Z) s :
  CEH (execMulu a b s) * 2 ^ 32 + CEL (execMulu a b s) =
    JS.ToUint32 a * JS.ToUint32 b /\
  CEH (execMul a b s) * 2 ^ 32 + CEL (execMul a b s) =
    (JS.ToInt32 a * JS.ToInt32 b) mod 2 ^ 64.
Proof.
  destruct s. unfold execMulu, execMul. cbv zeta. cpu_fields.
  rewrite !product_words. split.
  - rewrite !ushr_0. apply Z.mod_small.
    pose proof (ToUint32_range a). pose proof (ToUint32_range b). nia.
  - rewrite !or_0. reflexivity.
Qed.

Lemma quot_range sa sb :
  - 2 ^ 31 <= sa < 2 ^ 31 -> - 2 ^ 31 <= sb < 2 ^ 31 -> sb <> 0 ->
  (sa = - 2 ^ 31 -> sb <> -1) ->
  - 2 ^ 31 <= Z.quot sa sb < 2 ^ 31.
Proof.
  intros Ha Hb Hnz Hov.
  destruct (Z.eq_dec sb 1) as [->|H1]; [rewrite Z.quot_1_r; lia|].
  destruct (Z.eq_dec sb (-1)) as [->|H2].
  - change (-1) with (- (1)). rewrite Z.quot_opp_r, Z.quot_1_r by lia. lia.
  - assert (Habs : Z.abs (Z.quot sa sb) = Z.abs sa / Z.abs sb).
    { rewrite <- Z.quot_abs by lia. apply Z.quot_div_nonneg; lia. }
    assert (Z.abs sa / Z.abs sb <= 2 ^ 30)
      by (apply Z.div_le_upper_bound; lia).
    lia.
Qed.

(** X13: for a non-zero divisor [execDivu] leaves the quotient in
    CEL and the remainder in CEH, with [a = CEL * b + CEH] and
    [CEH < b] on the unsigned values.  [execDiv] does the same on the signed
    values, the quotient rounded towards zero, except for the one quotient
    that does not fit: -2^31 divided by -1 leaves 0x80000000 and 0. *)
Theorem division_fills_CEL_CEH (a b : Z) s :
  JS.ToUint32 b <> 0 ->
  let ua := JS.ToUint32 a in
  let ub := JS.ToUint32 b in
  let sa := JS.ToInt32 a in
  let sb := JS.ToInt32 b in
  (ua = CEL (execDivu a b s) * ub + CEH (execDivu a b s) /\
   0 <= CEH (execDivu a b s) < ub) /\
  (if (sa =? - 2 ^ 31) && (sb =? -1)
   then CEL (execDiv a b s) = 0x80000000 /\ CEH (execDiv a b s) = 0
   else
     sa = JS.ToInt32 (CEL (execDiv a b s)) * sb +
          JS.ToInt32 (CEH (execDiv a b s)) /\
     Z.abs (JS.ToInt32 (CEH (execDiv a b s))) < Z.abs sb /\
     0 <= JS.ToInt32 (CEH (execDiv a b s)) * sa).
Proof.
  intros Hb. cbv zeta.
  assert (Hsb : JS.ToInt32 b <> 0).
  { revert Hb. unfold JS.ToInt32, JS.ToUint32.
    pose proof (Z.mod_pos_bound b (2 ^ 32)).
    destruct (b mod 2 ^ 32 <? 2 ^ 31); lia. }
  destruct s. unfold execDivu, execDiv. cbv zeta. split.
  - rewrite !ushr_0.
    pose proof (ToUint32_range a) as Ha. pose proof (ToUint32_range b) as Hb'.
    set (ua := JS.ToUint32 a) in *. set (ub := JS.ToUint32 b) in *.
    destruct (Z.eqb_spec ub 0); [contradiction|]. cbn [negb]. cpu_fields.
    rewrite Z.rem_mod_nonneg by lia.
    pose proof (Z.mod_pos_bound ua ub ltac:(lia)) as Hr.
    assert (0 <= ua / ub <= ua).
    { split; [apply Z.div_pos; lia|]. apply Z.div_le_upper_bound; nia. }
    rewrite !ToUint32_small by lia.
    split; [|lia]. rewrite (Z.div_mod ua ub) at 1 by lia. lia.
  - rewrite !or_0.
    pose proof (ToInt32_range a) as Ha. pose proof (ToInt32_range b) as Hb'.
    set (sa := JS.ToInt32 a) in *. set (sb := JS.ToInt32 b) in *.
    destruct (Z.eqb_spec sb 0); [contradiction|]. cbn [negb]. cpu_fields.
    rewrite !ushr_0.
    destruct (Z.eqb_spec sa (- 2 ^ 31)) as [Ea|Ea];
      destruct (Z.eqb_spec sb (-1)) as [Eb|Eb]; cbn [andb].
    1: rewrite Ea, Eb; split; reflexivity.
    all: rewrite !ToInt32_ToUint32.
    all: pose proof (Z.quot_rem' sa sb) as Hqr.
    all: pose proof (Z.rem_bound_abs sa sb ltac:(lia)) as Hrem.
    all: pose proof (Z.rem_sign_mul sa sb ltac:(lia)) as Hsign.
    all: pose proof (quot_range sa sb Ha Hb' ltac:(lia) ltac:(lia)) as Hq.
    all: rewrite (ToInt32_small (Z.quot sa sb)) by lia.
    all: rewrite (ToInt32_small (Z.rem sa sb)) by lia.
    all: repeat split; lia.
Qed.

End BitProperties.


(** ** Bits of constant masks *)

Lemma forall_bits (P : Z -> bool) :
  forallb P (map Z.of_nat (seq 0 32)) = true ->
  forall n, 0 <= n < 32 -> P n = true.
Proof.
  intros H n Hn. rewrite forallb_forall in H. apply H.
  apply in_map_iff. exists (Z.to_nat n). split; [lia|].
  apply in_seq. lia.
Qed.

Lemma mask_bits (c : Z) (f : Z -> bool) :
  forallb (fun n => Bool.eqb (Z.testbit c n) (f n)) (map Z.of_nat (seq 0 32))
    = true ->
  forall n, 0 <= n < 32 -> Z.testbit c n = f n.
Proof.
  intros H n Hn. apply eqb_prop.
  exact (forall_bits (fun n => Bool.eqb (Z.testbit c n) (f n)) H n Hn).
Qed.

Section RegisterProperties.
Context {M : Type} `{MI : MemoryInterface M}.
Implicit Types s : CPU M.

(** ** The register files *)

(** X1: a general register in 1..31 and a control register in 0..31
    read back the value written, converted to an unsigned 32-bit number;
    every other register of the bank is unchanged, and a write to an index
    outside the bank changes nothing. *)
Theorem register_write_then_read (idx value : Z) s :
  length (r s) = 32%nat -> length (cr s) = 32%nat ->
  getRegister idx (setRegister idx value s) =
    (if (0 <? idx) && (idx <? 32) then JS.ToUint32 value
     else getRegister idx s) /\
  getControlRegister idx (setControlRegister idx value s) =
    (if (0 <=? idx) && (idx <? 32) then JS.ToUint32 value else 0) /\
  forall j, j <> idx ->
    getRegister j (setRegister idx value s) = getRegister j s /\
    getControlRegister j (setControlRegister idx value s) =
      getControlRegister j s.
Proof.
  intros Hr Hcr. destruct s. cpu_fields.
  unfold getRegister, setRegister, getControlRegister, setControlRegister.
  split; [|split].
  - destruct (Z.ltb_spec 0 idx), (Z.ltb_spec idx 32); cbn [andb];
      try reflexivity.
    destruct (Z.leb_spec 0 idx); [|lia]. cbn [andb]. cpu_fields. bank_simpl.
    rewrite !ushr_0, !ToUint32_idem. reflexivity.
  - destruct (Z.leb_spec 0 idx), (Z.ltb_spec idx 32); cbn [andb];
      try reflexivity.
    cpu_fields. bank_simpl. rewrite !ushr_0, !ToUint32_idem. reflexivity.
  - intros j Hj. split.
    + destruct (Z.ltb_spec 0 idx), (Z.ltb_spec idx 32); cbn [andb];
        try reflexivity.
      destruct (Z.leb_spec 0 j), (Z.ltb_spec j 32); cbn [andb];
        try reflexivity.
      cpu_fields. bank_simpl. reflexivity.
    + destruct (Z.leb_spec 0 idx), (Z.ltb_spec idx 32); cbn [andb];
        try reflexivity.
      destruct (Z.leb_spec 0 j), (Z.ltb_spec j 32); cbn [andb];
        try reflexivity.
      cpu_fields. bank_simpl. reflexivity.
Qed.

(** ** The status register *)

Lemma flag_image_testbit (bn bz bc bv bt : bool) n :
  0 <= n < 32 ->
  Z.testbit
    (sr0_image (Z.b2z bn) (Z.b2z bz) (Z.b2z bc) (Z.b2z bv) (Z.b2z bt)) n =
  if n =? 31 then bn else if n =? 30 then bz else if n =? 29 then bc
  else if n =? 28 then bv else if n =? 0 then bt else false.
Proof.
  intros Hn.
  apply (mask_bits _
    (fun n => if n =? 31 then bn else if n =? 30 then bz
              else if n =? 29 then bc else if n =? 28 then bv
              else if n =? 0 then bt else false)); [|exact Hn].
  destruct bn, bz, bc, bv, bt; vm_compute; reflexivity.
Qed.

(** X2: writing system register 0 loads the five flags from bits 31,
    30, 29, 28 and 0 of the value.  The register itself holds all 32 bits
    written, until [packSR0] rebuilds it from the flags: after that only
    those five bits are left and the other 27 are zero. *)
Theorem status_register_keeps_five_bits (value : Z) s :
  length (sr s) = 32%nat ->
  let s' := setSystemRegister 0 value s in
  flagN s' = Z.b2z (Z.testbit value 31) /\
  flagZ s' = Z.b2z (Z.testbit value 30) /\
  flagC s' = Z.b2z (Z.testbit value 29) /\
  flagV s' = Z.b2z (Z.testbit value 28) /\
  flagT s' = Z.b2z (Z.testbit value 0) /\
  getSystemRegister 0 s' = JS.ToUint32 value /\
  getSystemRegister 0 (packSR0 s') = Z.land (JS.ToUint32 value) 0xF0000001.
Proof.
  intros Hsr. cbv zeta.
  assert (Hmask : forall n, 0 <= n < 32 ->
            Z.testbit 0xF0000001 n = (n =? 0) || (28 <=? n)).
  { apply mask_bits. vm_compute. reflexivity. }
  assert (H : flagN (setSystemRegister 0 value s) = Z.b2z (Z.testbit value 31)
              /\ flagZ (setSystemRegister 0 value s) = Z.b2z (Z.testbit value 30)
              /\ flagC (setSystemRegister 0 value s) = Z.b2z (Z.testbit value 29)
              /\ flagV (setSystemRegister 0 value s) = Z.b2z (Z.testbit value 28)
              /\ flagT (setSystemRegister 0 value s) = Z.b2z (Z.testbit value 0)
              /\ getSystemRegister 0 (setSystemRegister 0 value s) =
                   JS.ToUint32 value
              /\ length (sr (setSystemRegister 0 value s)) = 32%nat).
  { destruct s. cpu_fields.
    unfold setSystemRegister, getSystemRegister, unpackSR0.
    cbn [Z.leb Z.ltb Z.compare Z.eqb andb]. cbv zeta. cpu_fields. bank_simpl.
    rewrite !ushr_0, !ToUint32_idem, <- !ushr_0.
    rewrite !ushr_and_1, !ushr_0, !ToUint32_testbit by lia.
    repeat split. exact Hsr. }
  destruct H as (HN & HZ & HC & HV & HT & Hget & Hlen).
  repeat (split; [assumption|]).
  unfold getSystemRegister. cbn [Z.leb Z.ltb Z.compare andb].
  rewrite sr_packSR0, ushr_0, ToUint32_idem, HN, HZ, HC, HV, HT by exact Hlen.
  apply Z.bits_inj'. intros n Hn.
  rewrite Z.land_spec.
  destruct (Z_lt_le_dec n 32) as [Hlow|Hhigh].
  - rewrite ToUint32_testbit by lia.
    rewrite flag_image_testbit, ToUint32_testbit, Hmask by lia.
    destruct (Z.eqb_spec n 31) as [->|]; [symmetry; apply andb_true_r|].
    destruct (Z.eqb_spec n 30) as [->|]; [symmetry; apply andb_true_r|].
    destruct (Z.eqb_spec n 29) as [->|]; [symmetry; apply andb_true_r|].
    destruct (Z.eqb_spec n 28) as [->|]; [symmetry; apply andb_true_r|].
    destruct (Z.eqb_spec n 0) as [->|]; [symmetry; apply andb_true_r|].
    destruct (Z.leb_spec 28 n); [lia|]. cbn [orb]. rewrite andb_false_r.
    reflexivity.
  - rewrite !(u32_testbit_high _ n) by (apply ToUint32_range || lia).
    reflexivity.
Qed.


(** ** Exception entry *)


End RegisterProperties.


(** ** Instructions and the bookkeeping of [step] *)

Section ControlFrameProperties.
Context {M : Type} `{MI : MemoryInterface M}.
Implicit Types s : CPU M.

Lemma same_control_refl s : same_control s s.
Proof. repeat split. Qed.

Lemma same_control_trans s1 s2 s3 :
  same_control s1 s2 -> same_control s2 s3 -> same_control s1 s3.
Proof.
  unfold same_control. intros H1 H2.
  repeat match goal with H : _ /\ _ |- _ => destruct H end.
  repeat split; congruence.
Qed.

Lemma untouched_ret {A} (a : A) : untouched (M:=M) (ret a).
Proof. intros s. apply same_control_refl. Qed.

Lemma untouched_gets {A} (f : CPU M -> A) : untouched (M:=M) (gets f).
Proof. intros s. apply same_control_refl. Qed.

Lemma untouched_R i : untouched (M:=M) (R i).
Proof. apply untouched_gets. Qed.

Lemma untouched_modify (f : CPU M -> CPU M) :
  (forall s, same_control s (f s)) -> untouched (modify f).
Proof. intros Hf s. apply Hf. Qed.

Lemma untouched_alu {A} (f : CPU M -> A * CPU M) :
  (forall s, same_control s (snd (f s))) -> untouched (alu f).
Proof.
  intros Hf s. unfold alu. specialize (Hf s).
  destruct (f s) as [a s']. exact Hf.
Qed.

Lemma untouched_bind {A B} (m : Exec (M:=M) A) (k : A -> Exec (M:=M) B) :
  untouched m -> (forall a, untouched (k a)) -> untouched (bind m k).
Proof.
  intros Hm Hk s. unfold bind. specialize (Hm s).
  destruct (m s) as [[a|e] s']; [|exact Hm].
  eapply same_control_trans; [exact Hm | apply Hk].
Qed.

Lemma untouched_miu_call {A} (f : M -> completion A * M) :
  untouched (miu_call f).
Proof.
  intros s. unfold miu_call.
  destruct (miu s) as [m|] eqn:Hm; [|apply same_control_refl].
  destruct (f m) as [c m']. destruct s. cbn in Hm. subst.
  repeat split.
Qed.

Lemma untouched_if_miu (k : Exec (M:=M) unit) :
  untouched k -> untouched (if_miu k).
Proof.
  intros Hk s. unfold if_miu.
  destruct (miu s); [apply Hk | apply same_control_refl].
Qed.

(** A state update given by the ALU and register functions of the CPU. *)
Ltac frame_atom :=
  let s := fresh "s" in
  intros s; destruct s;
  unfold same_control, attached, add, addc, sub, subc, neg, bitOp, sll, srl,
    sra, ror, rol, rorc, rolc, extsb, extsh, extzb, extzh, bitclr, bitset,
    bittst, bittgl, execMul, execMulu, execDiv, execDivu, moveFromCE,
    moveToCE, setRegister, exception, rte, packSR0, unpackSR0,
    updateBasicFlags;
  cbv zeta;
  repeat match goal with
         | |- context [match ?c with _ => _ end] =>
             lazymatch type of c with
             | bool => destruct c
             | Z => destruct c
             | positive => destruct c
             end
         end;
  cpu_fields; repeat split; reflexivity.

Lemma untouched_setReg rD (e : Exec (M:=M) Z) :
  untouched e -> untouched (setReg rD e).
Proof.
  intros He. apply untouched_bind; [exact He|].
  intros v. apply untouched_modify. frame_atom.
Qed.

Lemma untouched_miu_readU8 a : untouched (M:=M) (miu_readU8 a).
Proof. apply untouched_miu_call. Qed.
Lemma untouched_miu_readU16 a : untouched (M:=M) (miu_readU16 a).
Proof. apply untouched_miu_call. Qed.
Lemma untouched_miu_readU32 a : untouched (M:=M) (miu_readU32 a).
Proof. apply untouched_miu_call. Qed.
Lemma untouched_miu_writeU8 a v : untouched (M:=M) (miu_writeU8 a v).
Proof. apply untouched_miu_call. Qed.
Lemma untouched_miu_writeU16 a v : untouched (M:=M) (miu_writeU16 a v).
Proof. apply untouched_miu_call. Qed.
Lemma untouched_miu_writeU32 a v : untouched (M:=M) (miu_writeU32 a v).
Proof. apply untouched_miu_call. Qed.

Ltac untouched_step :=
  match goal with
  | |- untouched (bind _ _) => apply untouched_bind; [|intros ?]
  | |- untouched (if ?c then _ else _) => destruct c
  | |- untouched (match ?x with _ => _ end) => destruct x
  | |- untouched (modify _) => apply untouched_modify; frame_atom
  | |- untouched (alu _) => apply untouched_alu; frame_atom
  | |- untouched (setReg _ _) => apply untouched_setReg
  | |- untouched (if_miu _) => apply untouched_if_miu
  | |- untouched (ret _) => apply untouched_ret
  | |- untouched (gets _) => apply untouched_gets
  | |- untouched (R _) => apply untouched_R
  | |- untouched (miu_readU8 _) => apply untouched_miu_readU8
  | |- untouched (miu_readU16 _) => apply untouched_miu_readU16
  | |- untouched (miu_readU32 _) => apply untouched_miu_readU32
  | |- untouched (miu_writeU8 _ _) => apply untouched_miu_writeU8
  | |- untouched (miu_writeU16 _ _) => apply untouched_miu_writeU16
  | |- untouched (miu_writeU32 _ _) => apply untouched_miu_writeU32
  end.

Ltac untouched_all := repeat untouched_step.

Lemma execJForm_untouched insn : untouched (M:=M) (execJForm insn).
Proof. unfold execJForm. cbv zeta. untouched_all. Qed.

Lemma execBForm_untouched insn : untouched (M:=M) (execBForm insn).
Proof. unfold execBForm. cbv zeta. untouched_all. Qed.

Lemma execIForm_untouched insn : untouched (M:=M) (execIForm insn).
Proof. unfold execIForm. cbv zeta. untouched_all. Qed.

Lemma execRixForm_untouched insn : untouched (M:=M) (execRixForm insn).
Proof. unfold execRixForm. cbv zeta. untouched_all. Qed.

Lemma execMemoryForm_untouched insn : untouched (M:=M) (execMemoryForm insn).
Proof. unfold execMemoryForm. cbv zeta. untouched_all. Qed.

Lemma execSpForm_untouched insn : untouched (M:=M) (execSpForm insn).
Proof. unfold execSpForm. cbv zeta. untouched_all. Qed.

Lemma exec16_untouched insn : untouched (M:=M) (exec16 insn).
Proof. unfold exec16. cbv zeta. untouched_all. Qed.

Lemma decode_execute_untouched encoded :
  untouched (M:=M) (decode_execute encoded).
Proof.
  unfold decode_execute. cbv zeta.
  repeat match goal with
         | |- untouched (match ?x with _ => _ end) => destruct x
         end;
    lazymatch goal with
    | |- untouched (execSpForm _) => apply execSpForm_untouched
    | |- untouched (execIForm _) => apply execIForm_untouched
    | |- untouched (execJForm _) => apply execJForm_untouched
    | |- untouched (execRixForm _) => apply execRixForm_untouched
    | |- untouched (execBForm _) => apply execBForm_untouched
    | |- untouched (execMemoryForm _) => apply execMemoryForm_untouched
    | |- untouched (exec16 _) => apply exec16_untouched
    | |- untouched (ret _) => apply untouched_ret
    end.
Qed.


Lemma complete_control result s :
  cycles (complete result s) = cycles s + 1 /\
  instructions (complete result s) = instructions s + 1 /\
  halted (complete result s) = halted s /\
  initialized (complete result s) = initialized s /\
  fault_count (complete result s) = fault_count s /\
  attached (complete result s) = attached s.
Proof.
  destruct s. unfold complete, attached. cbv zeta.
  destruct (negb _); cpu_fields; repeat split.
Qed.

(** What the [try] block of [step] does to the bookkeeping fields. *)
Lemma step_try_control s :
  match step_try s with
  | (c, s') =>
      halted s' = halted s /\ initialized s' = initialized s /\
      fault_count s' = fault_count s /\ attached s' = attached s /\
      (if match c with Normal true => true | _ => false end
       then cycles s' = cycles s + 1 /\ instructions s' = instructions s + 1
       else cycles s' = cycles s /\ instructions s' = instructions s)
  end.
Proof.
  assert (Hrest : forall s1,
            halted s1 = halted s /\ initialized s1 = initialized s /\
            fault_count s1 = fault_count s /\ attached s1 = attached s /\
            cycles s1 = cycles s /\ instructions s1 = instructions s ->
            match
              bind (gets pc)
                (fun p => bind (miu_readU32 p)
                   (fun encoded => bind (decode_execute encoded)
                      (fun result => bind (modify (complete result))
                         (fun _ => ret true)))) s1
            with
            | (c, s') =>
                halted s' = halted s /\ initialized s' = initialized s /\
                fault_count s' = fault_count s /\ attached s' = attached s /\
                (if match c with Normal true => true | _ => false end
                 then cycles s' = cycles s + 1 /\
                      instructions s' = instructions s + 1
                 else cycles s' = cycles s /\
                      instructions s' = instructions s)
            end).
  { intros s1 (H1 & H2 & H3 & H4 & H5 & H6).
    unfold bind at 1, gets at 1. unfold bind at 1.
    pose proof (untouched_miu_readU32 (pc s1) s1) as Hfetch.
    destruct (miu_readU32 (pc s1) s1) as [[encoded|e] s2]; cbn [fst snd] in *.
    - unfold bind at 1.
      pose proof (decode_execute_untouched encoded s2) as Hexec.
      destruct (decode_execute encoded s2) as [[result|e] s3];
        cbn [fst snd] in *.
      + unfold bind, modify, ret.
        destruct (complete_control result s3) as (C1 & C2 & C3 & C4 & C5 & C6).
        unfold same_control in *.
        repeat match goal with H : _ /\ _ |- _ => destruct H end.
        repeat split; congruence.
      + unfold same_control in *.
        repeat match goal with H : _ /\ _ |- _ => destruct H end.
        repeat split; congruence.
    - unfold same_control in *.
      repeat match goal with H : _ /\ _ |- _ => destruct H end.
      repeat split; congruence. }
  unfold step_try.
  unfold bind at 1. unfold pc_out_of_range at 1.
  destruct (miu s) as [m|] eqn:Hm; [|repeat split].
  destruct (match miu_size m with Some n => pc s >? n | None => false end).
  { unfold bind, modify, ret.
    assert (H : same_control s (exception 0xFF s)) by (revert s Hrest Hm; frame_atom).
    unfold same_control in H.
    repeat match goal with H : _ /\ _ |- _ => destruct H end.
    repeat split; assumption. }
  unfold bind at 1. unfold breakpoint_pause at 1.
  assert (Hbp : forall bm',
            let s1 := set_breakpointManager bm' s in
            halted s1 = halted s /\ initialized s1 = initialized s /\
            fault_count s1 = fault_count s /\ attached s1 = attached s /\
            cycles s1 = cycles s /\ instructions s1 = instructions s).
  { intros. destruct s. unfold attached. cbn. repeat split. }
  destruct (breakpointManager s) as [bm|].
  - destruct (checkBreakpoint (pc s) bm) as [[] bm'].
    + unfold ret.
      destruct (Hbp (Some (set_paused true bm')))
        as (H1 & H2 & H3 & H4 & H5 & H6).
      repeat split; assumption.
    + apply Hrest. apply Hbp.
  - apply Hrest. repeat split.
Qed.

(** One call of [step] on an attached CPU. *)
Lemma step_keeps_an_attached_cpu_running_aux s :
  initialized s = true -> halted s = false -> attached s = true ->
  let s' := snd (step s) in
  halted s' = false /\ initialized s' = true /\ attached s' = true /\
  (if fst (step s)
   then fault_count s' = 0 /\ cycles s' = cycles s + 1 /\
        instructions s' = instructions s + 1
   else 0 <= fault_count s' <= 1 /\ cycles s' = cycles s /\
        instructions s' = instructions s).
Proof.
  intros Hinit Hhalt Hmiu. cbv zeta. unfold step.
  rewrite Hinit, Hhalt. cbn [negb].
  unfold attached in Hmiu. destruct (miu s) as [m|] eqn:Hm; [|discriminate].
  pose proof (step_try_control (set_fault_count 0 s)) as H.
  assert (H0 : halted (set_fault_count 0 s) = halted s /\
               initialized (set_fault_count 0 s) = initialized s /\
               fault_count (set_fault_count 0 s) = 0 /\
               attached (set_fault_count 0 s) = true /\
               cycles (set_fault_count 0 s) = cycles s /\
               instructions (set_fault_count 0 s) = instructions s).
  { destruct s. unfold attached. cbn in *. subst. repeat split. }
  destruct H0 as (E1 & E2 & E3 & E4 & E5 & E6).
  destruct (step_try (set_fault_count 0 s)) as [[[]|e] s1]; cbn [fst snd] in *.
  all: rewrite E1, E2, E3, E4, E5, E6 in H.
  - destruct H as (H1 & H2 & H3 & H4 & H5 & H6).
    repeat split; congruence || lia.
  - destruct H as (H1 & H2 & H3 & H4 & H5 & H6).
    repeat split; congruence || lia.
  - destruct H as (H1 & H2 & H3 & H4 & H5 & H6).
    destruct s1. unfold attached in *. cbn in *.
    repeat split; congruence || lia.
Qed.

(** X17: [step] on an initialised, running CPU with a memory
    interface attached never halts the CPU, never detaches the interface and
    leaves the fault counter at 0 or 1.  A call that returns [true] counts
    exactly one instruction and one cycle; a call that returns [false]
    counts none. *)
Theorem step_keeps_an_attached_cpu_running s :
  initialized s = true -> halted s = false -> attached s = true ->
  let s' := snd (step s) in
  halted s' = false /\ initialized s' = true /\ attached s' = true /\
  (if fst (step s)
   then fault_count s' = 0 /\ cycles s' = cycles s + 1 /\
        instructions s' = instructions s + 1
   else 0 <= fault_count s' <= 1 /\ cycles s' = cycles s /\
        instructions s' = instructions s).
Proof. exact (step_keeps_an_attached_cpu_running_aux s). Qed.



Lemma run_loop_attached (fuel : nat) : forall (count : Z) s,
  initialized s = true -> halted s = false -> attached s = true ->
  run_loop fuel count s = (count + Z.of_nat fuel, steps fuel s) /\
  halted (steps fuel s) = false /\ attached (steps fuel s) = true.
Proof.
  induction fuel as [|fuel IH]; intros count s Hinit Hhalt Hmiu.
  - cbn [run_loop steps]. rewrite Z.add_0_r. auto.
  - cbn [run_loop steps]. rewrite Hhalt.
    pose proof (step_keeps_an_attached_cpu_running_aux s Hinit Hhalt Hmiu)
      as (H1 & H2 & H3 & H4).
    destruct (step s) as [ok s1]; cbn [fst snd] in *.
    assert (Hgo : negb ok && (fault_count s1 >? 100) = false).
    { destruct ok; [reflexivity|]. cbn [negb andb].
      destruct (Z.gtb_spec (fault_count s1) 100); [lia | reflexivity]. }
    rewrite Hgo.
    destruct (IH (count + 1) s1 H2 H1 H3) as (E & F).
    rewrite E. split; [f_equal; lia | exact F].
Qed.

(** X18: on an initialised, running CPU with a memory interface
    attached [run(maxSteps)] never stops early: it makes exactly [maxSteps]
    calls of [step], returns [maxSteps], and leaves the CPU running,
    whatever the instructions do and however many of the calls fail. *)
Theorem run_makes_every_call (maxSteps : nat) s :
  initialized s = true -> halted s = false -> attached s = true ->
  run maxSteps s = (Z.of_nat maxSteps, steps maxSteps s) /\
  halted (steps maxSteps s) = false.
Proof.
  intros Hinit Hhalt Hmiu. unfold run. rewrite Hinit. cbn [negb].
  destruct (run_loop_attached maxSteps 0 s Hinit Hhalt Hmiu) as (E & F & _).
  rewrite E. auto.
Qed.

End ControlFrameProperties.


(** ** The representation invariant along a run *)

Section InvariantAlongRuns.
Context {M : Type} `{MI : MemoryInterface M}.
Implicit Types s : CPU M.

Lemma run_loop_inv (fuel : nat) : forall (count : Z) s,
  invariant s -> invariant (snd (run_loop fuel count s)).
Proof.
  induction fuel as [|fuel IH]; intros count s H; [exact H|].
  cbn [run_loop]. destruct (halted s); [exact H|].
  pose proof (step_inv s H) as Hs.
  destruct (step s) as [ok s1]; cbn [snd] in Hs.
  destruct (negb ok && (fault_count s1 >? 100)); [exact Hs | apply IH, Hs].
Qed.

(** X19: the register banks keep 32 entries of 32 bits, [pc] stays a
    32-bit number and the five flags stay 0 or 1 through every call of
    [step] and through [run], whatever instruction words memory holds and
    whether the calls succeed, fail or throw. *)
Theorem step_and_run_keep_the_state_well_formed (n : nat) s :
  invariant s ->
  invariant (snd (step s)) /\ invariant (steps n s) /\
  invariant (snd (run n s)) /\ well_formed (steps n s).
Proof.
  intros H. split; [|split; [|split]].
  - apply step_inv, H.
  - apply steps_inv, H.
  - unfold run. destruct (negb (initialized s)); [exact H|].
    apply run_loop_inv, H.
  - apply invariant_well_formed, steps_inv, H.
Qed.

End InvariantAlongRuns.


(** ** The B-Form branch *)

Lemma lor_disjoint_low a b k :
  0 <= k -> 0 <= b < 2 ^ k -> Z.lor (a * 2 ^ k) b = a * 2 ^ k + b.
Proof.
  intros Hk Hb. rewrite <- Z.add_lor_land.
  replace (Z.land (a * 2 ^ k) b) with 0; [lia|].
  symmetry. apply Z.bits_inj'. intros n Hn.
  rewrite Z.bits_0, Z.land_spec.
  destruct (Z_lt_le_dec n k).
  - rewrite Z.mul_pow2_bits_low by lia. reflexivity.
  - rewrite <- (Z.mod_small b (2 ^ k)), Z.mod_pow2_bits_high by lia.
    apply andb_false_r.
Qed.

Lemma ushr_and_mask x k j :
  0 <= k < 32 -> 0 <= j < 31 ->
  (x >>> k) .& (2 ^ j - 1) = (JS.ToUint32 x / 2 ^ k) mod 2 ^ j.
Proof.
  intros Hk Hj. rewrite and_range_mask by lia.
  unfold JS.ushr, JS.count. rewrite (Z.mod_small k), Z.shiftr_div_pow2 by lia.
  reflexivity.
Qed.

(** The two displacement fields of a B-Form word are contiguous: together
    they are bits 1 to 22 of the word. *)
Lemma bform_displacement w :
  (((w >>> 9) .& 0x3FFF) << 8) .| ((w >>> 1) .& 0xFF) =
  (JS.ToUint32 w / 2) mod 2 ^ 22.
Proof.
  change 0x3FFF with (2 ^ 14 - 1). change 0xFF with (2 ^ 8 - 1).
  rewrite !ushr_and_mask by lia.
  set (u := JS.ToUint32 w).
  pose proof (Z.mod_pos_bound (u / 2 ^ 9) (2 ^ 14) ltac:(lia)) as Hh.
  pose proof (Z.mod_pos_bound (u / 2 ^ 1) (2 ^ 8) ltac:(lia)) as Hl.
  unfold JS.or, JS.shl. change (JS.count 8) with 8.
  rewrite Z.shiftl_mul_pow2 by lia.
  rewrite (ToInt32_small ((u / 2 ^ 9) mod 2 ^ 14)) by lia.
  rewrite (ToInt32_small ((u / 2 ^ 9) mod 2 ^ 14 * 2 ^ 8)) by lia.
  rewrite !ToInt32_small by lia.
  rewrite lor_disjoint_low by lia.
  change (2 ^ 22) with (2 ^ 8 * 2 ^ 14). rewrite Z.rem_mul_r by lia.
  change (2 ^ 1) with 2.
  rewrite Z.div_div by lia. change (2 * 2 ^ 8) with (2 ^ 9). lia.
Qed.

Lemma signed_low_bits_range x b :
  1 <= b -> - 2 ^ (b - 1) <= signed_low_bits x b < 2 ^ (b - 1).
Proof.
  intros Hb. unfold signed_low_bits. cbv zeta.
  assert (E : 2 ^ b = 2 * 2 ^ (b - 1)).
  { replace b with (1 + (b - 1)) at 1 by lia.
    rewrite Z.pow_add_r by lia. reflexivity. }
  assert (0 < 2 ^ (b - 1)) by (apply Z.pow_pos_nonneg; lia).
  pose proof (Z.mod_pos_bound x (2 ^ b) ltac:(lia)).
  destruct (Z.ltb_spec (x mod 2 ^ b) (2 ^ (b - 1))); lia.
Qed.

Lemma signed_low_bits_mod x b :
  0 <= b -> signed_low_bits (x mod 2 ^ b) b = signed_low_bits x b.
Proof.
  intros Hb. unfold signed_low_bits. rewrite Z.mod_mod; [reflexivity|].
  apply Z.pow_nonzero; lia.
Qed.

Section Branch.
Context {M : Type} `{MI : MemoryInterface M}.
Implicit Types s : CPU M.

Lemma execBForm_run insn s :
  execBForm insn s =
  if conditional ((insn >>> 23) .& 0x0F) s
  then
    (Normal 0,
     set_pc
       ((pc s +
         (signExtend ((((insn >>> 9) .& 0x3FFF) << 8) .| ((insn >>> 1) .& 0xFF))
            22 << 1)) >>> 0)
       (if JS.truthy (insn .& 1) then setRegister 3 ((pc s + 4) >>> 0) s
        else s))
  else (Normal 4, s).
Proof.
  unfold execBForm. cbv zeta.
  unfold bind at 1, gets at 1. unfold bind at 1, gets at 1.
  destruct (conditional _ s); [|reflexivity].
  destruct (JS.truthy (insn .& 1)); reflexivity.
Qed.

(** X15: a B-Form word is a conditional branch on the condition
    code in bits 23 to 26.  When the condition holds, [pc] moves by twice
    the signed 22-bit number in bits 1 to 22 of the word, modulo 2^32, and
    the link bit stores [pc + 4] in register 3; when it does not hold, [pc]
    advances by 4 and no register is written, link bit or not.  The call
    succeeds either way. *)
Theorem conditional_branch_target s m w m' :
  fetches s m w m' ->
  (w >>> 27) .& 0x1F = 0x04 ->
  let taken := conditional ((w >>> 23) .& 0x0F) s in
  let offset := 2 * signed_low_bits (JS.ToUint32 w / 2) 22 in
  fst (step s) = true /\
  pc (snd (step s)) =
    (if taken then (pc s + offset) mod 2 ^ 32 else (pc s + 4) mod 2 ^ 32) /\
  r (snd (step s)) =
    (if taken && JS.truthy (w .& 1) then bank_set (r s) 3 (pc s + 4)
     else r s).
Proof.
  intros [Hreach Hread] Hop. cbv zeta.
  assert (Hdec : decode_execute w = execBForm w).
  { unfold decode_execute. cbv zeta. rewrite Hop. reflexivity. }
  rewrite (step_at_fetch _ _ Hreach), Hread, Hdec, execBForm_run.
  rewrite bform_displacement, signExtend_value by lia.
  change (32 <=? 22) with false. cbv iota.
  rewrite signed_low_bits_mod by lia.
  pose proof (signed_low_bits_range (JS.ToUint32 w / 2) 22 ltac:(lia)) as Hd.
  set (d := signed_low_bits (JS.ToUint32 w / 2) 22) in *.
  change (2 ^ (22 - 1)) with (2 ^ 21) in Hd.
  assert (Hoff : JS.ToUint32 d << 1 = 2 * d).
  { unfold JS.shl. change (JS.count 1) with 1.
    rewrite ToInt32_ToUint32, (ToInt32_small d) by lia.
    rewrite Z.shiftl_mul_pow2 by lia. change (2 ^ 1) with 2.
    rewrite ToInt32_small by lia. lia. }
  rewrite Hoff. clear Hreach Hread Hdec.
  assert (Hcond : forall c, conditional c (set_miu (Some m') (set_fault_count 0 s))
                            = conditional c s)
    by (intros; destruct s; reflexivity).
  rewrite Hcond.
  destruct (conditional _ s); cbn [andb].
  - destruct (JS.truthy (w .& 1)); destruct s; unfold complete, setRegister;
      cbv zeta; change (negb (0 =? 0)) with false;
      change ((0 <? 3) && (3 <? 32)) with true; cbv iota; cpu_fields;
      rewrite !ushr_0.
    + repeat split. unfold bank_set. cbn [Z.leb Z.compare].
      rewrite !ToUint32_idem. reflexivity.
    + repeat split.
  - destruct s; unfold complete; cbv zeta.
    change (negb (4 =? 0)) with true. cbv iota. cpu_fields.
    repeat split.
Qed.

End Branch.


(** ** The guards of [step] *)

Section Guards.
Context {M : Type} `{MI : MemoryInterface M}.
Implicit Types s : CPU M.

(** X20: when [pc] is greater than the [size] of the memory
    interface, [step] fetches nothing: it enters exception 0xFF on the state
    with the fault counter cleared and returns [false], so neither
    [instructions] nor [cycles] is counted and the interface is untouched. *)
Theorem pc_beyond_memory_enters_exception s m size :
  initialized s = true -> halted s = false -> miu s = Some m ->
  miu_size m = Some size -> size < pc s ->
  step s = (false, exception 0xFF (set_fault_count 0 s)) /\
  pc (snd (step s)) = (bank_get (cr s) 3 + 0x3FC) mod 2 ^ 32 /\
  instructions (snd (step s)) = instructions s /\
  cycles (snd (step s)) = cycles s /\
  miu (snd (step s)) = Some m.
Proof.
  intros Hinit Hhalt Hmiu Hsize Hpc.
  assert (E : step s = (false, exception 0xFF (set_fault_count 0 s))).
  { unfold step. rewrite Hinit, Hhalt, Hmiu. cbn [negb].
    unfold step_try, bind at 1, pc_out_of_range.
    assert (Hm0 : miu (set_fault_count 0 s) = Some m /\
                  pc (set_fault_count 0 s) = pc s)
      by (destruct s; cbn in *; auto).
    destruct Hm0 as [-> ->]. rewrite Hsize.
    destruct (Z.gtb_spec (pc s) size); [|lia].
    reflexivity. }
  rewrite E. split; [reflexivity|].
  destruct s. cbn in Hmiu. subst.
  unfold exception, packSR0. cbv zeta. cpu_fields.
  repeat split.
  rewrite ushr_0. unfold JS.ToUint32. f_equal. f_equal.
  unfold bank_get, bank_set. cbn [Z.leb Z.compare].
  rewrite !list_lookup_total_insert_ne by (cbn; lia). reflexivity.
Qed.


(** X23: [halt] freezes the CPU and [resume] undoes it.  On an
    initialised, running CPU every call of [step] after [halt] returns
    [false] and changes nothing, and [resume] then returns [true] and gives
    back the state from before the [halt]; on a CPU that was never
    initialised [resume] returns [false] and leaves [halted] as it is. *)
Theorem halt_freezes_and_resume_restores (n : nat) s :
  initialized s = true -> halted s = false ->
  steps n (halt s) = halt s /\
  step (halt s) = (false, halt s) /\
  resume (steps n (halt s)) = (true, s) /\
  resume (set_initialized false (halt s)) =
    (false, set_initialized false (halt s)).
Proof.
  intros Hinit Hhalt.
  assert (Hh : halted (halt s) = true) by (destruct s; reflexivity).
  rewrite (steps_halted n _ Hh), (step_halted _ Hh).
  destruct s. cbn in *. subst. repeat split.
Qed.

End Guards.


(** ** The compressed stack instructions *)

Section Stack.
Context {M : Type} `{MI : MemoryInterface M}.
Implicit Types s : CPU M.

Lemma bank_get_in_range (b : bank) i :
  0 <= i < Z.of_nat (length b) -> bank_get b i = b !!! Z.to_nat i.
Proof. intros Hi. unfold bank_get. destruct (Z.leb_spec 0 i); [done|lia]. Qed.

Lemma bank_set_same (b : bank) i :
  bank_ok b -> 0 <= i -> bank_set b i (bank_get b i) = b.
Proof.
  intros [Hl Hf] Hi. unfold bank_set, bank_get.
  destruct (Z.leb_spec 0 i); [|lia].
  destruct (decide (Z.to_nat i < length b)%nat) as [Hlt|Hge].
  - apply list_insert_id.
    destruct (lookup_lt_is_Some_2 b (Z.to_nat i) Hlt) as [x Hx].
    rewrite (list_lookup_total_correct _ _ _ Hx), Hx. f_equal.
    symmetry. apply ToUint32_small. rewrite Forall_lookup in Hf. apply (Hf _ _ Hx).
  - apply list_insert_ge. lia.
Qed.

Lemma bank_set_set (b : bank) i v w :
  bank_set (bank_set b i v) i w = bank_set b i w.
Proof.
  unfold bank_set. destruct (0 <=? i); [|reflexivity].
  apply list_insert_insert_eq.
Qed.

Lemma bank_set_ToUint32 (b : bank) i x :
  bank_set b i (JS.ToUint32 x) = bank_set b i x.
Proof. unfold bank_set. rewrite ToUint32_idem. reflexivity. Qed.

(** Running a straight-line executor on a state given by its fields. *)
Ltac run_exec :=
  cbv beta iota zeta delta
    [bind R gets modify if_miu setReg miu_writeU32 miu_readU32 miu_call ret
     alu fst snd r cr sr CEL CEH pc flagN flagZ flagC flagV flagT cycles
     instructions halted miu initialized fault_count last_error
     breakpointManager set_r set_cr set_sr set_CEL set_CEH set_pc set_flagN
     set_flagZ set_flagC set_flagV set_flagT set_cycles set_instructions
     set_halted set_miu set_initialized set_fault_count set_last_error
     set_breakpointManager].

(** X16: [c.pop] after [c.push] with the same stack register and
    the same target register restores every register, when the memory
    interface returns the word that was just written to the address.  This
    holds for each choice of the two registers, the same register or
    register 0 included. *)
Theorem push_then_pop_restores_the_registers (p q : Z) s m v m1 m2 :
  let k := (p >>> 6) .& 0x07 in
  let t := ((p >>> 1) .& 0x0F) + (if JS.truthy ((p >>> 5) .& 1) then 16 else 0) in
  let sp := JS.ToUint32 (bank_get (r s) k - 4) in
  (p >>> 13) .& 0x07 = 0x02 -> (p >>> 9) .& 0x0F = 0x0E ->
  (q >>> 13) .& 0x07 = 0x02 -> (q >>> 9) .& 0x0F = 0x0F ->
  (q >>> 6) .& 0x07 = k -> (q >>> 5) .& 1 = (p >>> 5) .& 1 ->
  (q >>> 1) .& 0x0F = (p >>> 1) .& 0x0F ->
  bank_ok (r s) -> miu s = Some m ->
  v = bank_get (bank_set (r s) k sp) t ->
  writeU32 m sp v = (Normal tt, m1) ->
  readU32 m1 sp = (Normal v, m2) ->
  let s1 := set_miu (Some m1) (set_r (bank_set (r s) k sp) s) in
  exec16 p s = (Normal 2, s1) /\
  exec16 q s1 = (Normal 2, set_miu (Some m2) s).
Proof.
  intros k t sp Hp1 Hp2 Hq1 Hq2 Hk HH HD Hok Hmiu Hv Hw Hr s1.
  assert (Hkr : 0 <= k < 8).
  { subst k. change 0x07 with (2 ^ 3 - 1). rewrite and_range_mask by lia.
    apply Z.mod_pos_bound. lia. }
  assert (Htr : 0 <= t < 32).
  { subst t. change 0x0F with (2 ^ 4 - 1). rewrite and_range_mask by lia.
    pose proof (Z.mod_pos_bound (p >>> 1) (2 ^ 4) ltac:(lia)).
    destruct (JS.truthy _); lia. }
  pose proof Hok as [Hlen Hall].
  assert (Hsp : 0 <= sp < 2 ^ 32) by apply ToUint32_range.
  assert (Hok1 : bank_ok (bank_set (r s) k sp)) by (apply bank_ok_set, Hok).
  assert (Hget : bank_get (bank_set (r s) k sp) k = sp).
  { rewrite bank_get_set_eq by lia. apply ToUint32_small, Hsp. }
  assert (Hback : JS.ToUint32 (sp + 4) = bank_get (r s) k).
  { pose proof (bank_get_u32 (r s) k Hok) as Hx. unfold u32 in Hx.
    subst sp. unfold JS.ToUint32.
    rewrite Zplus_mod_idemp_l.
    replace (bank_get (r s) k - 4 + 4) with (bank_get (r s) k) by lia.
    apply Z.mod_small, Hx. }
  unfold exec16. cbv zeta. rewrite Hp1, Hp2, Hq1, Hq2, Hk, HH, HD.
  cbv iota. fold k. fold t.
  subst s1. destruct s as [gr ? ? ? ? ? ? ? ? ? ? ? ? ? mu ? ? ? ?].
  cbn in Hmiu. subst mu. cpu_fields.
  split.
  - run_exec.
    change (bank_get gr k - 4 >>> 0) with sp.
    rewrite Hget, <- Hv, Hw. reflexivity.
  - run_exec. rewrite Hget, Hr.
    unfold setRegister.
    assert (Hr2 : forall c : bool,
              (if c then bank_set (bank_set gr k sp) t (v >>> 0)
               else bank_set gr k sp) = bank_set gr k sp).
    { intros []; [|reflexivity].
      rewrite ushr_0, bank_set_ToUint32, Hv. apply bank_set_same; [exact Hok1|lia]. }
    destruct ((0 <? t) && (t <? 32)) eqn:Ht; run_exec.
    + rewrite (Hr2 true), Hget, ushr_0, bank_set_set.
      rewrite Hback, bank_set_same by (exact Hok || lia).
      reflexivity.
    + rewrite Hget, ushr_0, bank_set_set.
      rewrite Hback, bank_set_same by (exact Hok || lia).
      reflexivity.
Qed.

End Stack.


(** ** The interrupt controller: lines, acknowledge and accounting *)

Section INTCLines.
Context {M : Type}.
Import INTC.
Implicit Types (mc : Machine (M := M)) (ic : InterruptController).

(** X26: [enableIRQ], [disableIRQ] and [clearIRQ] act on one line.
    For an IRQ number in 0..31 the line reads enabled after [enableIRQ],
    disabled after [disableIRQ] and not pending after [clearIRQ], the state
    of every other line is kept, and for a number outside 0..31 the three
    calls change nothing. *)
Theorem irq_calls_touch_one_line (irq j : Z) ic :
  let inside := (0 <=? irq) && (irq <? 32) in
  isIRQEnabled j (enableIRQ irq ic) =
    (if inside && (j =? irq) then true else isIRQEnabled j ic) /\
  isIRQEnabled j (disableIRQ irq ic) =
    (if inside && (j =? irq) then false else isIRQEnabled j ic) /\
  isIRQPending j (clearIRQ irq ic) =
    (if inside && (j =? irq) then false else isIRQPending j ic) /\
  isIRQPending j (enableIRQ irq ic) = isIRQPending j ic /\
  isIRQEnabled j (clearIRQ irq ic) = isIRQEnabled j ic.
Proof.
  cbv zeta. rewrite !isIRQEnabled_testbit, !isIRQPending_testbit.
  unfold enableIRQ, disableIRQ, clearIRQ.
  destruct (Z.leb_spec 0 irq), (Z.ltb_spec irq 32); cbn [andb];
    try (repeat split; reflexivity).
  cbn [set_INT_MASK set_INT_STATUS set_regs regs INT_MASK INT_STATUS].
  destruct (Z.leb_spec 0 j), (Z.ltb_spec j 32); cbn [andb];
    try (destruct (Z.eqb_spec j irq); [lia|]; repeat split; reflexivity).
  rewrite or_testbit, !and_testbit, !not_testbit, !shl_1_testbit by lia.
  rewrite (Z.eqb_sym irq j).
  destruct (j =? irq); cbn [negb orb andb]; repeat split;
    rewrite ?orb_true_r, ?orb_false_r, ?andb_true_r, ?andb_false_r;
    reflexivity.
Qed.

(** X27: a 32-bit write to the acknowledge register (offset 0x0C of
    any address) clears the pending lines whose bit is set in the value and
    no other, and leaves the mask as it is; a 32-bit write to the status
    register (offset 0x08) is ignored, whatever the value. *)
Theorem acknowledge_clears_the_written_lines (address value j : Z) ic :
  address .& 0xFFFF = 0x0C ->
  isIRQPending j (writeU32 address value ic) =
    isIRQPending j ic && negb (Z.testbit value j) /\
  isIRQEnabled j (writeU32 address value ic) = isIRQEnabled j ic /\
  writeU32 (address - 4) value ic = ic.
Proof.
  intros Ha.
  assert (Ha' : (address - 4) .& 0xFFFF = 0x08).
  { revert Ha. change 0xFFFF with (2 ^ 16 - 1).
    rewrite !and_range_mask by lia. intros Ha.
    rewrite Zminus_mod, Ha. reflexivity. }
  rewrite !isIRQEnabled_testbit, !isIRQPending_testbit.
  unfold writeU32. cbv zeta. rewrite Ha, Ha'.
  cbn [set_INT_STATUS set_regs regs INT_MASK INT_STATUS].
  split; [|split; reflexivity].
  destruct (Z.leb_spec 0 j), (Z.ltb_spec j 32); cbn [andb];
    try reflexivity.
  rewrite and_testbit, not_testbit by lia. reflexivity.
Qed.

Lemma trigger_counts irq mc :
  let mc' := trigger irq mc in
  processed (stats (intc mc')) + blocked (stats (intc mc')) =
    processed (stats (intc mc)) + blocked (stats (intc mc)) + 1 /\
  triggered (stats (intc mc')) =
    triggered (stats (intc mc)) + (if accepted irq then 1 else 0) /\
  processed (stats (intc mc)) <= processed (stats (intc mc')) /\
  processed (stats (intc mc')) - processed (stats (intc mc)) <=
    triggered (stats (intc mc')) - triggered (stats (intc mc)).
Proof.
  cbv zeta.
  assert (Hdeliver : forall bit enter,
    let mc' := deliver bit enter mc in
    processed (stats (intc mc')) + blocked (stats (intc mc')) =
      processed (stats (intc mc)) + blocked (stats (intc mc)) + 1 /\
    triggered (stats (intc mc')) = triggered (stats (intc mc)) + 1 /\
    processed (stats (intc mc)) <= processed (stats (intc mc')) /\
    processed (stats (intc mc')) - processed (stats (intc mc)) <= 1).
  { intros bit enter. cbv zeta.
    destruct mc as [c [nm cp rg st]]. destruct st as [t pr b].
    unfold deliver. cbn.
    destruct cp as [[]|]; cbn; [|repeat split; lia].
    destruct (negb _); cbn; repeat split; lia. }
  assert (Hblocked :
    let mc' := on_intc count_blocked mc in
    processed (stats (intc mc')) + blocked (stats (intc mc')) =
      processed (stats (intc mc)) + blocked (stats (intc mc)) + 1 /\
    triggered (stats (intc mc')) = triggered (stats (intc mc)) /\
    processed (stats (intc mc')) = processed (stats (intc mc))).
  { cbv zeta. destruct mc as [c [nm cp rg st]]. destruct st as [t pr b].
    cbn. repeat split; lia. }
  cbv zeta in Hdeliver, Hblocked.
  destruct Hblocked as (B1 & B2 & B3).
  unfold trigger, accepted.
  destruct irq as [| |n|[q| |negative]].
  - repeat split; lia.
  - repeat split; lia.
  - destruct (Hdeliver (1 << n) (exception n)) as (D1 & D2 & D3 & D4).
    destruct (Z.ltb_spec n 0), (Z.gtb_spec n 31), (Z.leb_spec 0 n),
      (Z.leb_spec n 31); cbn [orb andb]; try lia; repeat split; lia.
  - destruct (Hdeliver (1 << to_integer (Fraction q))
                (exception_noninteger (Fraction q))) as (D1 & D2 & D3 & D4).
    unfold below, above. change (inject_Z 0) with 0%Q.
    change (inject_Z 31) with 31%Q.
    destruct (Qle_bool 0 q), (Qle_bool q 31); cbn [negb orb andb];
      repeat split; lia.
  - destruct (Hdeliver (1 << to_integer NaN) (exception_noninteger NaN))
      as (D1 & D2 & D3 & D4).
    cbn [below above orb]. repeat split; lia.
  - unfold below, above. destruct negative; cbn [negb orb];
      repeat split; lia.
Qed.

(** X28: the statistics of the controller account for every call of
    [trigger] whose argument is [undefined], [null] or a value that converts
    to a number.  Over any sequence of such calls [processed] plus [blocked]
    grows by the number of calls, so each call is counted as one or the
    other and never as both; [processed] grows by no more than [triggered];
    and [triggered] grows by the number of calls that pass the two guards,
    which are the calls with a number from 0 to 31, whole or not, and the
    calls with a value that compares as NaN. *)
Theorem trigger_statistics_account_for_every_call (irqs : list JsArg) mc :
  let mc' := trigger_all irqs mc in
  processed (stats (intc mc')) + blocked (stats (intc mc')) =
    processed (stats (intc mc)) + blocked (stats (intc mc)) +
    Z.of_nat (length irqs) /\
  triggered (stats (intc mc')) =
    triggered (stats (intc mc)) +
    Z.of_nat (length (filter (fun irq => accepted irq = true) irqs)) /\
  0 <= processed (stats (intc mc')) - processed (stats (intc mc)) <=
    triggered (stats (intc mc')) - triggered (stats (intc mc)).
Proof.
  cbv zeta. revert mc. induction irqs as [|irq irqs IH]; intros mc.
  - cbn. repeat split; lia.
  - unfold trigger_all in *. cbn [foldl].
    destruct (IH (trigger irq mc)) as (H1 & H2 & H3).
    destruct (trigger_counts irq mc) as (T1 & T2 & T3 & T4).
    rewrite filter_cons.
    destruct (decide (accepted irq = true)) as [Hv|Hv].
    + rewrite Hv in T2. cbn [length]. repeat split; lia.
    + destruct (accepted irq); [contradiction|].
      cbn [length]. repeat split; lia.
Qed.

End INTCLines.


(** ** The interrupt controller: byte and halfword access *)

Lemma lane_testbit x sh w n :
  0 <= sh -> 0 < w < 31 -> sh + w <= 32 -> 0 <= n ->
  Z.testbit ((x >>> sh) .& (2 ^ w - 1)) n = (n <? w) && Z.testbit x (n + sh).
Proof.
  intros Hsh Hw Hfit Hn. rewrite and_range_mask by lia.
  destruct (Z.ltb_spec n w); cbn [andb].
  - rewrite Z.mod_pow2_bits_low, ushr_testbit by lia.
    destruct (Z.ltb_spec (n + sh) 32); [reflexivity | lia].
  - apply Z.mod_pow2_bits_high. lia.
Qed.

Lemma low_mask_testbit w i : 0 <= w -> 0 <= i -> Z.testbit (2 ^ w - 1) i = (i <? w).
Proof.
  intros Hw Hi. replace (2 ^ w - 1) with (Z.ones w)
    by (rewrite Z.ones_equiv; lia).
  destruct (Z.ltb_spec i w).
  - apply Z.ones_spec_low. lia.
  - apply Z.ones_spec_high. lia.
Qed.

(** The word that [writeU8] and [writeU16] build: the lane of width [w]
    at [sh] replaced. *)
Lemma lane_replace_testbit word value sh w m :
  0 <= sh -> 0 < w < 31 -> sh + w <= 32 -> 0 <= m < 32 ->
  Z.testbit
    ((word .& .~ ((2 ^ w - 1) << sh)) .| ((value .& (2 ^ w - 1)) << sh)) m =
  if (sh <=? m) && (m - sh <? w) then Z.testbit value (m - sh)
  else Z.testbit word m.
Proof.
  intros Hsh Hw Hfit Hm.
  rewrite or_testbit, and_testbit, not_testbit, !shl_testbit by lia.
  destruct (Z.leb_spec sh m); cbn [andb negb].
  - rewrite and_testbit, !low_mask_testbit by lia.
    destruct (m - sh <? w); cbn [negb].
    + rewrite andb_false_r, andb_true_r. reflexivity.
    + rewrite andb_true_r, andb_false_r, orb_false_r. reflexivity.
  - rewrite andb_true_r, orb_false_r. reflexivity.
Qed.

Lemma and_2_cases x : x .& 2 = 0 \/ x .& 2 = 2.
Proof.
  unfold JS.and. change (JS.ToInt32 2) with (2 ^ 1).
  set (a := JS.ToInt32 x).
  assert (H : Z.land a (2 ^ 1) = 0 \/ Z.land a (2 ^ 1) = 2 ^ 1);
    [|exact H].
  destruct (Z.testbit a 1) eqn:Ha; [right | left];
    apply Z.bits_inj'; intros n Hn;
    rewrite Z.land_spec, ?Z.bits_0, !Z.pow2_bits_eqb by lia;
    destruct (Z.eqb_spec 1 n) as [<-|]; rewrite ?Ha;
    rewrite ?andb_false_r, ?andb_true_r; reflexivity.
Qed.

Section INTCNarrowAccess.
Import INTC.
Implicit Types ic : InterruptController.

(** X29: the mask and the priority register are little-endian for
    the narrow accesses.  A byte written with [writeU8] is the byte that
    [readU8] returns from the same offset, and the three other bytes of the
    register read as before; a halfword written with [writeU16] is the
    halfword that [readU16] returns from the same offset, and the other
    halfword reads as before. *)
Theorem narrow_write_then_read (offset value : Z) ic :
  (offset .& .~ 3) .& 0xFFFF = 0 \/ (offset .& .~ 3) .& 0xFFFF = 4 ->
  INTCBytes.readU8 offset (INTCBytes.writeU8 offset value ic) =
    value mod 2 ^ 8 /\
  INTCBytes.readU16 offset (INTCBytes.writeU16 offset value ic) =
    value mod 2 ^ 16 /\
  forall other,
    other .& .~ 3 = offset .& .~ 3 ->
    (other .& 3 <> offset .& 3 ->
     INTCBytes.readU8 other (INTCBytes.writeU8 offset value ic) =
     INTCBytes.readU8 other ic) /\
    (other .& 2 <> offset .& 2 ->
     INTCBytes.readU16 other (INTCBytes.writeU16 offset value ic) =
     INTCBytes.readU16 other ic).
Proof.
  intros Hreg.
  assert (Hlane : forall o, 0 <= (o .& 3) * 8 <= 24).
  { intros o. change 3 with (2 ^ 2 - 1). rewrite and_range_mask by lia.
    pose proof (Z.mod_pos_bound o (2 ^ 2) ltac:(lia)). lia. }
  assert (Hhalf : forall o, 0 <= (o .& 2) * 8 <= 16).
  { intros o. destruct (and_2_cases o) as [-> | ->]; lia. }
  assert (Hword : forall w,
            readU32 (offset .& .~ 3) (writeU32 (offset .& .~ 3) w ic) = w).
  { intros w. unfold readU32, writeU32. cbv zeta.
    destruct Hreg as [-> | ->]; reflexivity. }
  unfold INTCBytes.readU8, INTCBytes.writeU8, INTCBytes.readU16,
    INTCBytes.writeU16. cbv zeta.
  change 0xFF with (2 ^ 8 - 1). change 0xFFFF with (2 ^ 16 - 1).
  split; [|split].
  - rewrite Hword. pose proof (Hlane offset).
    apply Z.bits_inj'. intros n Hn.
    rewrite lane_testbit by lia.
    destruct (Z.ltb_spec n 8); cbn [andb].
    + rewrite lane_replace_testbit by lia.
      destruct (Z.leb_spec ((offset .& 3) * 8) (n + (offset .& 3) * 8));
        [|lia].
      replace (n + (offset .& 3) * 8 - (offset .& 3) * 8) with n by lia.
      destruct (Z.ltb_spec n 8); [|lia]. cbn [andb].
      rewrite Z.mod_pow2_bits_low by lia. reflexivity.
    + rewrite Z.mod_pow2_bits_high by lia. reflexivity.
  - rewrite Hword. pose proof (Hhalf offset).
    apply Z.bits_inj'. intros n Hn.
    rewrite lane_testbit by lia.
    destruct (Z.ltb_spec n 16); cbn [andb].
    + rewrite lane_replace_testbit by lia.
      destruct (Z.leb_spec ((offset .& 2) * 8) (n + (offset .& 2) * 8));
        [|lia].
      replace (n + (offset .& 2) * 8 - (offset .& 2) * 8) with n by lia.
      destruct (Z.ltb_spec n 16); [|lia]. cbn [andb].
      rewrite Z.mod_pow2_bits_low by lia. reflexivity.
    + rewrite Z.mod_pow2_bits_high by lia. reflexivity.
  - intros other Hsame. rewrite Hsame, !Hword. split; intros Hdiff.
    + pose proof (Hlane offset). pose proof (Hlane other).
      apply Z.bits_inj'. intros n Hn.
      rewrite !lane_testbit by lia.
      destruct (Z.ltb_spec n 8); cbn [andb]; [|reflexivity].
      rewrite lane_replace_testbit by lia.
      assert (Hsh : (other .& 3) * 8 + 8 <= (offset .& 3) * 8 \/
                    (offset .& 3) * 8 + 8 <= (other .& 3) * 8) by lia.
      destruct (Z.leb_spec ((offset .& 3) * 8) (n + (other .& 3) * 8));
        destruct (Z.ltb_spec (n + (other .& 3) * 8 - (offset .& 3) * 8) 8);
        cbn [andb]; try reflexivity; lia.
    + pose proof (Hhalf offset). pose proof (Hhalf other).
      apply Z.bits_inj'. intros n Hn.
      rewrite !lane_testbit by lia.
      destruct (Z.ltb_spec n 16); cbn [andb]; [|reflexivity].
      rewrite lane_replace_testbit by lia.
      assert (Hsh : (other .& 2) * 8 + 16 <= (offset .& 2) * 8 \/
                    (offset .& 2) * 8 + 16 <= (other .& 2) * 8).
      { destruct (and_2_cases other) as [E1|E1],
          (and_2_cases offset) as [E2|E2]; rewrite E1, E2 in *; lia. }
      destruct (Z.leb_spec ((offset .& 2) * 8) (n + (other .& 2) * 8));
        destruct (Z.ltb_spec (n + (other .& 2) * 8 - (offset .& 2) * 8) 16);
        cbn [andb]; try reflexivity; lia.
Qed.

End INTCNarrowAccess.


(** ** The breakpoint table *)

(** X24: [addTemporaryBreakpoint] never throws and always
    returns [true].  On a free address it creates an enabled breakpoint
    that [checkBreakpoint] reports once and removes; on an address that has
    a breakpoint already it turns that breakpoint into a temporary one,
    keeping its hit count and whether it is enabled.  Breakpoints at other
    addresses are not touched, and addresses count modulo 2^32. *)
Theorem temporary_breakpoints (addr : Z) (bm : BreakpointManager) :
  let a := JS.ToUint32 addr in
  let bm' := snd (addTemporaryBreakpoint addr bm) in
  fst (addTemporaryBreakpoint addr bm) = Normal true /\
  breakpoints bm' !! a =
    Some match breakpoints bm !! a with
         | Some bp => {| enabled := enabled bp; hitCount := hitCount bp;
                         temporary := true |}
         | None => {| enabled := true; hitCount := 0; temporary := true |}
         end /\
  (forall b, b <> a -> breakpoints bm' !! b = breakpoints bm !! b) /\
  addTemporaryBreakpoint (addr + 2 ^ 32) bm = addTemporaryBreakpoint addr bm /\
  (breakpoints bm !! a = None ->
   fst (checkBreakpoint addr bm') = true /\
   hasBreakpoint addr (snd (checkBreakpoint addr bm')) = false /\
   fst (checkBreakpoint addr (snd (checkBreakpoint addr bm'))) = false).
Proof.
  cbv zeta.
  assert (Hwrap : JS.ToUint32 (addr + 2 ^ 32) = JS.ToUint32 addr).
  { unfold JS.ToUint32. replace (addr + 2 ^ 32) with (addr + 1 * 2 ^ 32) by lia.
    apply Z.mod_add. lia. }
  unfold addTemporaryBreakpoint, addBreakpoint, checkBreakpoint, hasBreakpoint.
  cbv zeta. rewrite !ushr_0, !ToUint32_idem, Hwrap.
  destruct (breakpoints bm !! JS.ToUint32 addr) as [bp|] eqn:Hbp;
    cbn [fst snd breakpoints paused lastBreakpoint].
  - rewrite Hbp. cbn [fst snd breakpoints].
    rewrite lookup_insert_eq.
    repeat split; try discriminate.
    intros b Hb. apply lookup_insert_ne. congruence.
  - rewrite lookup_insert_eq. cbn [fst snd breakpoints enabled hitCount].
    rewrite !lookup_insert_eq.
    split; [reflexivity|]. split; [reflexivity|]. split.
    { intros b Hb. rewrite !lookup_insert_ne by congruence. reflexivity. }
    split; [reflexivity|]. intros _.
    cbn [enabled temporary negb fst snd breakpoints].
    rewrite !lookup_delete_eq. repeat split.
Qed.

(** X25: the breakpoint table behaves as a map keyed by the
    address modulo 2^32.  [addBreakpoint] returns [false] on an address that
    has a breakpoint and changes nothing, so the hit count is kept;
    [removeBreakpoint] returns whether there was one, and adding again after
    removing starts from a count of 0.  A breakpoint disabled with
    [setEnabled] is never reported by [checkBreakpoint] and is not counted.
    [clearAll] leaves no breakpoint and [resetHitCounts] zeroes every count
    and nothing else. *)
Theorem breakpoint_table_operations (addr : Z) (bm : BreakpointManager) :
  let a := JS.ToUint32 addr in
  let fresh := {| enabled := true; hitCount := 0; temporary := false |} in
  fst (addBreakpoint addr bm) = negb (hasBreakpoint addr bm) /\
  hasBreakpoint addr (snd (addBreakpoint addr bm)) = true /\
  (if hasBreakpoint addr bm then snd (addBreakpoint addr bm) = bm
   else breakpoints (snd (addBreakpoint addr bm)) !! a = Some fresh) /\
  fst (removeBreakpoint addr bm) = hasBreakpoint addr bm /\
  hasBreakpoint addr (snd (removeBreakpoint addr bm)) = false /\
  breakpoints (snd (addBreakpoint addr (snd (removeBreakpoint addr bm)))) !! a
    = Some fresh /\
  fst (setEnabled addr false bm) = hasBreakpoint addr bm /\
  checkBreakpoint addr (snd (setEnabled addr false bm)) =
    (false, snd (setEnabled addr false bm)) /\
  hasBreakpoint addr (clearAll bm) = false /\
  breakpoints (resetHitCounts bm) !! a =
    (fun bp => {| enabled := enabled bp; hitCount := 0;
                  temporary := temporary bp |}) <$> breakpoints bm !! a.
Proof.
  cbv zeta.
  unfold addBreakpoint, removeBreakpoint, setEnabled, checkBreakpoint,
    hasBreakpoint, clearAll, resetHitCounts.
  cbv zeta. rewrite !ushr_0, ?ToUint32_idem.
  cbn [fst snd breakpoints].
  rewrite ?lookup_delete_eq. cbn [fst snd breakpoints].
  rewrite ?lookup_fmap, ?lookup_empty, ?lookup_delete_eq.
  destruct (breakpoints bm !! JS.ToUint32 addr) as [bp|] eqn:Hbp;
    cbn [fst snd breakpoints negb];
    rewrite ?Hbp, ?lookup_insert_eq; cbn [enabled negb fmap option_fmap option_map];
    repeat split.
Qed.

(** ** Sector addresses *)



(** ** The further properties on concrete inputs *)

(** A 64-bit addition that carries out of the low word, and a subtraction
    that borrows from the high word. *)
Lemma carry_chains_to_64_bits_witness :
  u32 0xFFFFFFFF /\ u32 1 /\ u32 2 /\
  fst (addc 1 2 true (snd (add 0xFFFFFFFF 1 true flagged_state))) * 2 ^ 32 +
    fst (add 0xFFFFFFFF 1 true flagged_state) = 0x400000000 /\
  flagC (snd (subc 1 2 true (snd (sub 0xFFFFFFFF 1 true flagged_state)))) = 0.
Proof.
  assert (H1 : u32 0xFFFFFFFF) by (unfold u32; lia).
  assert (H2 : u32 1) by (unfold u32; lia).
  assert (H3 : u32 2) by (unfold u32; lia).
  split; [exact H1|]. split; [exact H2|]. split; [exact H3|].
  destruct (carry_chains_to_64_bits 0xFFFFFFFF 1 1 2 flagged_state H1 H2 H2 H3)
    as (E1 & _ & _ & E2).
  split; [rewrite E1 | rewrite E2]; reflexivity.
Defined.

Lemma rotate_through_carry_round_trip_witness :
  flag_bit (flagC flagged_state) /\
  fst (rorc (fst (rolc 0x80000001 true flagged_state)) true
         (snd (rolc 0x80000001 true flagged_state))) = 0x80000001.
Proof.
  assert (H : flag_bit (flagC flagged_state)) by (right; reflexivity).
  split; [exact H|].
  destruct (rotate_through_carry_round_trip 0x80000001 flagged_state H)
    as (E & _).
  rewrite E. reflexivity.
Defined.

Lemma sign_and_zero_extension_witness :
  1 <= 8 /\ signExtend 0xFF 8 = 0xFFFFFFFF /\
  fst (extsb 0xFF false flagged_state) = signExtend 0xFF 8.
Proof.
  assert (H : 1 <= 8) by lia.
  split; [exact H|].
  destruct (sign_and_zero_extension 0xFF 8 false flagged_state H)
    as (E1 & E2 & _).
  split; [rewrite E1; reflexivity | exact E2].
Defined.

(** -7 divided by 2: quotient -3, remainder -1. *)
Lemma division_fills_CEL_CEH_witness :
  JS.ToUint32 2 <> 0 /\
  JS.ToInt32 (- 7) =
    JS.ToInt32 (CEL (execDiv (- 7) 2 flagged_state)) * JS.ToInt32 2 +
    JS.ToInt32 (CEH (execDiv (- 7) 2 flagged_state)) /\
  CEL (execDiv (- 7) 2 flagged_state) = 0xFFFFFFFD.
Proof.
  assert (H : JS.ToUint32 2 <> 0) by discriminate.
  split; [exact H|].
  destruct (division_fills_CEL_CEH (- 7) 2 flagged_state H) as (_ & E).
  destruct E as (E1 & _).
  split; [exact E1 | reflexivity].
Defined.

Lemma register_write_then_read_witness :
  length (r flagged_state) = 32%nat /\ length (cr flagged_state) = 32%nat /\
  getRegister 5 (setRegister 5 0x100000007 flagged_state) = 7 /\
  getRegister 0 (setRegister 0 0x100000007 flagged_state) = 0.
Proof.
  assert (H1 : length (r flagged_state) = 32%nat) by reflexivity.
  assert (H2 : length (cr flagged_state) = 32%nat) by reflexivity.
  split; [exact H1|]. split; [exact H2|].
  destruct (register_write_then_read 5 0x100000007 flagged_state H1 H2)
    as (E1 & _).
  destruct (register_write_then_read 0 0x100000007 flagged_state H1 H2)
    as (E2 & _).
  split; [rewrite E1 | rewrite E2]; reflexivity.
Defined.

(** Writing all ones to SR0 sets the five flags; [packSR0] then leaves
    0xF0000001. *)
Lemma status_register_keeps_five_bits_witness :
  length (sr flagged_state) = 32%nat /\
  getSystemRegister 0 (setSystemRegister 0 0xFFFFFFFF flagged_state) =
    0xFFFFFFFF /\
  getSystemRegister 0 (packSR0 (setSystemRegister 0 0xFFFFFFFF flagged_state))
    = 0xF0000001.
Proof.
  assert (H : length (sr flagged_state) = 32%nat) by reflexivity.
  split; [exact H|].
  destruct (status_register_keeps_five_bits 0xFFFFFFFF flagged_state H)
    as (_ & _ & _ & _ & _ & E1 & E2).
  split; [rewrite E1 | rewrite E2]; reflexivity.
Defined.


Lemma step_keeps_an_attached_cpu_running_witness :
  initialized flagged_state = true /\ halted flagged_state = false /\
  attached flagged_state = true /\
  halted (snd (step flagged_state)) = false /\
  attached (snd (step flagged_state)) = true.
Proof.
  assert (H1 : initialized flagged_state = true) by reflexivity.
  assert (H2 : halted flagged_state = false) by reflexivity.
  assert (H3 : attached flagged_state = true) by reflexivity.
  split; [exact H1|]. split; [exact H2|]. split; [exact H3|].
  destruct (step_keeps_an_attached_cpu_running flagged_state H1 H2 H3)
    as (E1 & _ & E2 & _).
  split; [exact E1 | exact E2].
Defined.

Lemma run_makes_every_call_witness :
  initialized flagged_state = true /\ halted flagged_state = false /\
  attached flagged_state = true /\
  fst (run 3 flagged_state) = 3 /\
  halted (steps 3 flagged_state) = false.
Proof.
  assert (H1 : initialized flagged_state = true) by reflexivity.
  assert (H2 : halted flagged_state = false) by reflexivity.
  assert (H3 : attached flagged_state = true) by reflexivity.
  split; [exact H1|]. split; [exact H2|]. split; [exact H3|].
  destruct (run_makes_every_call 3 flagged_state H1 H2 H3) as (E1 & E2).
  split; [rewrite E1; reflexivity | exact E2].
Defined.

Lemma booted_inv {M} `{MI : MemoryInterface M} (m : M) entry :
  invariant (booted m entry).
Proof.
  unfold booted, setPC. apply set_pc_inv; [apply u32_ushr_0|].
  apply initializeCPU_inv, new_CPU_inv.
Qed.

Lemma flagged_state_inv : invariant flagged_state.
Proof.
  unfold flagged_state.
  generalize (booted_inv (∅ : Ram) 0x9E000040).
  generalize (booted (∅ : Ram) 0x9E000040). intros s Hs.
  destruct s. unfold invariant in *. cbn in *.
  repeat match goal with H : _ /\ _ |- _ => destruct H end.
  repeat match goal with |- _ /\ _ => split end; try assumption;
    first [right; reflexivity | left; reflexivity].
Qed.

Lemma step_and_run_keep_the_state_well_formed_witness :
  invariant flagged_state /\
  invariant (steps 2 flagged_state) /\ well_formed (steps 2 flagged_state).
Proof.
  assert (H : invariant flagged_state) by exact flagged_state_inv.
  split; [exact H|].
  destruct (step_and_run_keep_the_state_well_formed 2 flagged_state H)
    as (_ & E1 & _ & E2).
  split; [exact E1 | exact E2].
Defined.

(** An always-taken branch by -2 halfwords with the link bit. *)
Lemma conditional_branch_target_witness :
  fetches branch_state (ram_with 0x9E000010 0x27FFFFFD) 0x27FFFFFD
    (ram_with 0x9E000010 0x27FFFFFD) /\
  (0x27FFFFFD >>> 27) .& 0x1F = 0x04 /\
  fst (step branch_state) = true /\
  pc (snd (step branch_state)) = 0x9E00000C.
Proof.
  assert (Hf : fetches branch_state (ram_with 0x9E000010 0x27FFFFFD)
                 0x27FFFFFD (ram_with 0x9E000010 0x27FFFFFD)) by closed.
  assert (Hop : (0x27FFFFFD >>> 27) .& 0x1F = 0x04) by reflexivity.
  split; [exact Hf|]. split; [exact Hop|].
  destruct (conditional_branch_target _ _ _ _ Hf Hop) as (E1 & E2 & _).
  split; [exact E1|]. rewrite E2. reflexivity.
Defined.

Lemma pc_beyond_memory_enters_exception_witness :
  initialized beyond_state = true /\ halted beyond_state = false /\
  miu beyond_state = Some (mkBounded 0x100 ∅) /\
  miu_size (mkBounded 0x100 ∅) = Some 0x100 /\ 0x100 < pc beyond_state /\
  fst (step beyond_state) = false /\
  pc (snd (step beyond_state)) = 0x3FC /\
  instructions (snd (step beyond_state)) = 0.
Proof.
  assert (H1 : initialized beyond_state = true) by reflexivity.
  assert (H2 : halted beyond_state = false) by reflexivity.
  assert (H3 : miu beyond_state = Some (mkBounded 0x100 ∅)) by reflexivity.
  assert (H4 : miu_size (mkBounded 0x100 ∅) = Some 0x100) by reflexivity.
  assert (H5 : 0x100 < pc beyond_state)
    by (change (pc beyond_state) with 0x200; lia).
  split; [exact H1|]. split; [exact H2|]. split; [exact H3|].
  split; [exact H4|]. split; [exact H5|].
  destruct (pc_beyond_memory_enters_exception _ _ _ H1 H2 H3 H4 H5)
    as (E1 & E2 & E3 & _).
  split; [rewrite E1; reflexivity|].
  split; [rewrite E2 | rewrite E3]; reflexivity.
Defined.


Lemma stack_state_bank : bank_ok (r stack_state).
Proof.
  unfold stack_state.
  exact (proj1 (setRegister_inv 5 0xDEADBEEF _
                  (setRegister_inv 2 0x1000 _ (booted_inv (∅ : Ram) 0)))).
Qed.

(** [c.push r5] then [c.pop r5] on stack register 2. *)
Lemma push_then_pop_restores_the_registers_witness :
  bank_ok (r stack_state) /\
  writeU32 (∅ : Ram) 0xFFC 0xDEADBEEF =
    (Normal tt, ram_with 0xFFC 0xDEADBEEF) /\
  readU32 (ram_with 0xFFC 0xDEADBEEF) 0xFFC =
    (Normal 0xDEADBEEF, ram_with 0xFFC 0xDEADBEEF) /\
  exec16 0x5E8A
    (set_miu (Some (ram_with 0xFFC 0xDEADBEEF))
       (set_r (bank_set (r stack_state) 2 0xFFC) stack_state)) =
  (Normal 2, set_miu (Some (ram_with 0xFFC 0xDEADBEEF)) stack_state).
Proof.
  assert (H1 : bank_ok (r stack_state)) by exact stack_state_bank.
  assert (H2 : writeU32 (∅ : Ram) 0xFFC 0xDEADBEEF =
               (Normal tt, ram_with 0xFFC 0xDEADBEEF)) by reflexivity.
  assert (H3 : readU32 (ram_with 0xFFC 0xDEADBEEF) 0xFFC =
               (Normal 0xDEADBEEF, ram_with 0xFFC 0xDEADBEEF))
    by (vm_compute; reflexivity).
  split; [exact H1|]. split; [exact H2|]. split; [exact H3|].
  destruct (push_then_pop_restores_the_registers 0x5C8A 0x5E8A stack_state
              (∅ : Ram) 0xDEADBEEF (ram_with 0xFFC 0xDEADBEEF)
              (ram_with 0xFFC 0xDEADBEEF)
              eq_refl eq_refl eq_refl eq_refl eq_refl eq_refl eq_refl
              H1 eq_refl eq_refl H2 H3) as (_ & E).
  exact E.
Defined.

(** Acknowledging IRQ 4 of two pending lines. *)
Lemma acknowledge_clears_the_written_lines_witness :
  0x080A000C .& 0xFFFF = 0x0C /\
  INTC.isIRQPending 4 (INTC.writeU32 0x080A000C 0x10 pending_controller)
    = false /\
  INTC.isIRQPending 9 (INTC.writeU32 0x080A000C 0x10 pending_controller)
    = true.
Proof.
  assert (H : 0x080A000C .& 0xFFFF = 0x0C) by reflexivity.
  split; [exact H|].
  destruct (acknowledge_clears_the_written_lines 0x080A000C 0x10 4
              pending_controller H) as (E1 & _).
  destruct (acknowledge_clears_the_written_lines 0x080A000C 0x10 9
              pending_controller H) as (E2 & _).
  split; [rewrite E1 | rewrite E2]; reflexivity.
Defined.

(** Byte 1 of the mask register. *)
Lemma narrow_write_then_read_witness :
  ((0x080A0001 .& .~ 3) .& 0xFFFF = 0 \/ (0x080A0001 .& .~ 3) .& 0xFFFF = 4) /\
  INTCBytes.readU8 0x080A0001
    (INTCBytes.writeU8 0x080A0001 0x1AB INTC.new_InterruptController) = 0xAB /\
  INTCBytes.readU8 0x080A0002
    (INTCBytes.writeU8 0x080A0001 0x1AB INTC.new_InterruptController) = 0xFF.
Proof.
  assert (H : (0x080A0001 .& .~ 3) .& 0xFFFF = 0 \/
              (0x080A0001 .& .~ 3) .& 0xFFFF = 4) by (left; reflexivity).
  split; [exact H|].
  destruct (narrow_write_then_read 0x080A0001 0x1AB
              INTC.new_InterruptController H) as (E1 & _ & E2).
  split; [rewrite E1; reflexivity|].
  destruct (E2 0x080A0002 eq_refl) as (E3 & _).
  rewrite E3; [reflexivity | discriminate].
Defined.


Lemma halt_freezes_and_resume_restores_witness :
  initialized flagged_state = true /\ halted flagged_state = false /\
  steps 2 (halt flagged_state) = halt flagged_state /\
  resume (steps 2 (halt flagged_state)) = (true, flagged_state).
Proof.
  assert (H1 : initialized flagged_state = true) by reflexivity.
  assert (H2 : halted flagged_state = false) by reflexivity.
  split; [exact H1|]. split; [exact H2|].
  destruct (halt_freezes_and_resume_restores 2 flagged_state H1 H2)
    as (E1 & _ & E2 & _).
  split; [exact E1 | exact E2].
Defined.
